(** * libvips foreign load/save core: a shallow embedding of
      libvips/foreign/foreign.c with the properties of its specification.

    The file has two parts.  The first part embeds the C code: the class
    registry and its priority-ordered iteration, the lazy load start
    function, the saveable normaliser, the metadata policy and the save
    build.  The second part states and proves the properties.

    C [int] values are integers of type [Z]; where the C code computes on
    them the 32-bit wrap-around is written out with [int_wrap].  Flag masks
    are [Z] values tested with [Z.land], as in the C code.  A [NULL] pointer
    is [None]. *)

From Stdlib Require Import ZArith List String Ascii Bool Lia Permutation Sorted.
Import ListNotations.
Open Scope string_scope.
Open Scope list_scope.
Open Scope Z_scope.

Set Implicit Arguments.

(* ================================================================== *)
(** * Part 1: the embedding                                            *)
(* ================================================================== *)

(** ** C integers *)

Module CInt.

Definition INT_MIN : Z := - 2 ^ 31.
Definition INT_MAX : Z := 2 ^ 31 - 1.

(** The value a 32-bit two's complement [int] holds after an arithmetic
    result [z]: C leaves signed overflow undefined, the compilers the
    library is built with wrap. *)
Definition int_wrap (z : Z) : Z := (z + 2 ^ 31) mod 2 ^ 32 - 2 ^ 31.

Definition is_int (z : Z) : Prop := INT_MIN <= z <= INT_MAX.

(** [mask & flag] used as a C truth value. *)
Definition has_flag (mask flag : Z) : bool := negb (Z.land mask flag =? 0).

End CInt.
Import CInt.

(** ** The GLib and libvips utility functions the registry uses *)

Module GLib.

(** [g_str_has_suffix (str, suffix)]. *)
Definition g_str_has_suffix (str suffix : string) : bool :=
  let n := String.length str in
  let m := String.length suffix in
  (m <=? n)%nat && String.eqb (substring (n - m) m str) suffix.

(** [vips_isprefix (a, b)]: is [a] the start of [b]. *)
Definition vips_isprefix (a b : string) : bool := String.prefix a b.

Definition g_slist_append (A : Type) (l : list A) (x : A) : list A := l ++ [x].

Section Sort.
Variable A : Type.
Variable compare_func : A -> A -> Z.

(** [g_slist_sort_merge]: the head of [l1] is taken while the comparison
    is [<= 0], so on ties the element of the first list goes first. *)
Fixpoint g_slist_sort_merge (l1 : list A) : list A -> list A :=
  fix merge_l2 (l2 : list A) : list A :=
    match l1, l2 with
    | [], _ => l2
    | _, [] => l1
    | a :: t1, b :: t2 =>
        if compare_func a b <=? 0
        then a :: g_slist_sort_merge t1 l2
        else b :: merge_l2 t2
    end.

(** [g_slist_sort_real]: lists of length 0 and 1 are returned as they are;
    a longer list of length [n] is cut after its first [n / 2] cells, both
    parts are sorted and then merged.  [fuel] bounds the recursion depth. *)
Fixpoint g_slist_sort_real (fuel : nat) (l : list A) : list A :=
  match l with
  | [] => []
  | [x] => [x]
  | _ =>
      match fuel with
      | O => l
      | S fuel' =>
          let k := Nat.div2 (List.length l) in
          g_slist_sort_merge (g_slist_sort_real fuel' (firstn k l))
                             (g_slist_sort_real fuel' (skipn k l))
      end
  end.

Definition g_slist_sort (l : list A) : list A :=
  g_slist_sort_real (List.length l) l.

End Sort.

(** What it means that a comparison orders the items of a list by a key,
    larger key first, and that a list is in descending key order; the
    items of a list that carry a given key, in their order. *)
Section SortSpec.
Variable A : Type.
Variable compare_func : A -> A -> Z.
Variable key : A -> Z.

Definition orders_by_key (l : list A) : Prop :=
  forall a b, In a l -> In b l ->
    (compare_func a b <=? 0) = (key b <=? key a).

Definition descending (l : list A) : Prop :=
  StronglySorted (fun a b => key b <= key a) l.

Definition with_key (p : Z) (l : list A) : list A :=
  filter (fun a => key a =? p) l.

End SortSpec.

(** [vips_slist_map2], as the comment of [vips_foreign_map] describes
    the libvips map functions: [fn] is applied to the items in order,
    iteration continues while it returns [NULL] and ends with the first
    non-[NULL] result.  The user data [a], [b] that the callbacks update
    through pointers is the threaded state [s]. *)
Fixpoint vips_slist_map2 (C S R : Type) (l : list C)
    (fn : C -> S -> option R * S) (s : S) : option R * S :=
  match l with
  | [] => (None, s)
  | c :: t =>
      match fn c s with
      | (Some r, s') => (Some r, s')
      | (None, s') => vips_slist_map2 t fn s'
      end
  end.

End GLib.
Import GLib.

(** ** Format registry (foreign.c, 426-504) *)

Module Registry.

(** Modelled from the spec: the operation flag that marks a handler as
    blocked; operation.h, which declares [VIPS_OPERATION_BLOCKED], is not
    among the sources. *)
Definition VIPS_OPERATION_BLOCKED : Z := 32.

(** The fields of [VipsForeignClass] (with the nickname of its
    [VipsObjectClass], the GType name and the flags of its
    [VipsOperationClass]) that foreign.c reads. *)
Record VipsForeignClass : Type := {
  nickname : string;
  class_name : string;
  operation_flags : Z;
  priority : Z;
  suffs : option (list string)
}.

(** A loader class: the base class and the optional [is_a] sniffer, which
    opens the named file and tests its first bytes. *)
Record VipsForeignLoadClass : Type := {
  load_parent_class : VipsForeignClass;
  is_a : option (string -> bool)
}.

(** The [VIPS_FOREIGN_CLASS ()] cast. *)
Class ForeignSubclass (C : Type) : Type :=
  VIPS_FOREIGN_CLASS : C -> VipsForeignClass.

#[export] Instance foreign_is_foreign : ForeignSubclass VipsForeignClass :=
  fun c => c.
#[export] Instance load_is_foreign : ForeignSubclass VipsForeignLoadClass :=
  load_parent_class.

Section Map.
Context {C : Type} `{ForeignSubclass C}.

Definition file_add_class (class : C) (files : list C) : list C :=
  if has_flag (operation_flags (VIPS_FOREIGN_CLASS class)) VIPS_OPERATION_BLOCKED
  then files
  else if vips_isprefix "rawload" (nickname (VIPS_FOREIGN_CLASS class))
  then files
  else g_slist_append files class.

(** The classes [file_add_class] lets through: not blocked, and not a
    "rawload" variant. *)
Definition file_add_class_keeps (class : C) : bool :=
  negb (has_flag (operation_flags (VIPS_FOREIGN_CLASS class)) VIPS_OPERATION_BLOCKED)
  && negb (vips_isprefix "rawload" (nickname (VIPS_FOREIGN_CLASS class))).

Definition file_compare (a b : C) : Z :=
  int_wrap (priority (VIPS_FOREIGN_CLASS b) - priority (VIPS_FOREIGN_CLASS a)).

(** The list [vips_foreign_map] iterates: [classes] is the sequence in
    which [vips_class_map_all] presents the classes below the base class,
    that is, their registration order. *)
Definition vips_foreign_map_files (classes : list C) : list C :=
  let files := fold_left (fun files class => file_add_class class files) classes [] in
  g_slist_sort file_compare files.

Definition vips_foreign_map (S R : Type) (classes : list C)
    (fn : C -> S -> option R * S) (s : S) : option R * S :=
  vips_slist_map2 (vips_foreign_map_files classes) fn s.

End Map.

End Registry.
Import Registry.

(** ** Loader discovery and the suffix query (foreign.c, 551-642, 1994-2064) *)

Module Discovery.

(** The file-system and file-name helpers of util.c that discovery calls;
    they are outside foreign.c and are taken as an interface. *)
Class FileSystem : Type := {
  vips__filename_split8 : string -> string * string;
  vips_existsf : string -> bool;
  vips_isdirf : string -> bool;
  vips_filename_suffix_match : string -> list string -> bool
}.

Inductive find_load_error : Type :=
| file_does_not_exist
| is_a_directory
| not_a_known_file_format.

Inductive result (A : Type) : Type :=
| Ok (a : A)
| Err (e : find_load_error).
Arguments Err {A} e.

Section FindLoad.
Context `{FileSystem}.

(** Can this loader open this file?  [None] is the C [NULL]: carry on. *)
Definition vips_foreign_find_load_sub (load_class : VipsForeignLoadClass)
    (filename : string) : option VipsForeignLoadClass :=
  let object_class := VIPS_FOREIGN_CLASS load_class in
  if g_str_has_suffix (nickname object_class) "_buffer"
     || g_str_has_suffix (nickname object_class) "_source"
  then None
  else
    match is_a load_class with
    | Some sniff => if sniff filename then Some load_class else None
    | None =>
        match suffs object_class with
        | Some ss =>
            if vips_filename_suffix_match filename ss
            then Some load_class else None
        | None => None (* g_warning *)
        end
    end.

Definition vips_foreign_find_load (classes : list VipsForeignLoadClass)
    (name : string) : result string :=
  let (filename, option_string) := vips__filename_split8 name in
  if negb (vips_existsf filename) then Err file_does_not_exist
  else if vips_isdirf filename then Err is_a_directory
  else
    match fst (vips_foreign_map classes
                 (fun c (b : unit) => (vips_foreign_find_load_sub c filename, b)) tt)
    with
    | None => Err not_a_known_file_format
    | Some load_class => Ok (class_name (VIPS_FOREIGN_CLASS load_class))
    end.

(** A loader is sniff-matching for a file when it has a sniffer and the
    sniffer accepts the file; it is suffix-only when it has no sniffer. *)
Definition sniff_matches (load_class : VipsForeignLoadClass) (filename : string)
    : bool :=
  match is_a load_class with
  | Some sniff => sniff filename
  | None => false
  end.

Definition suffix_only (load_class : VipsForeignLoadClass) : bool :=
  match is_a load_class with
  | Some _ => false
  | None => true
  end.

(** A file loader: neither a buffer nor a source loader. *)
Definition is_file_loader (load_class : VipsForeignLoadClass) : bool :=
  negb (g_str_has_suffix (nickname (VIPS_FOREIGN_CLASS load_class)) "_buffer"
        || g_str_has_suffix (nickname (VIPS_FOREIGN_CLASS load_class)) "_source").

End FindLoad.

Section Suffixes.
Context {C : Type} `{ForeignSubclass C}.

(** A [gchar **] array is a list of cells, [None] for [NULL]. *)
Definition g_new0 (n : Z) : list (option string) := repeat None (Z.to_nat n).

(** [**p = v]: store through the cursor.  A cursor past the end of the
    array leaves the array as it is in this model; the counting pass sizes
    the array so that the filling pass never gets there. *)
Fixpoint array_store (arr : list (option string)) (p : nat) (v : option string)
    : list (option string) :=
  match arr, p with
  | [], _ => []
  | _ :: t, O => v :: t
  | x :: t, S p' => x :: array_store t p' v
  end.

(** The strings of a [NULL]-terminated array. *)
Fixpoint strv (arr : list (option string)) : list string :=
  match arr with
  | Some s :: t => s :: strv t
  | _ => []
  end.

(** The suffix list of a class, empty for [NULL]. *)
Definition class_suffixes (class : C) : list string :=
  match suffs (VIPS_FOREIGN_CLASS class) with
  | Some ss => ss
  | None => []
  end.

Definition vips_foreign_get_suffixes_count_cb (save_class : C) (n_fields : Z)
    : option unit * Z :=
  (None,
   match suffs (VIPS_FOREIGN_CLASS save_class) with
   | Some ss => fold_left (fun n _ => int_wrap (n + 1)) ss n_fields
   | None => n_fields
   end).

Definition vips_foreign_get_suffixes_add_cb (save_class : C)
    (a : list (option string) * nat) : option unit * (list (option string) * nat) :=
  (None,
   match suffs (VIPS_FOREIGN_CLASS save_class) with
   | Some ss =>
       fold_left (fun '(arr, p) s => (array_store arr p (Some s), S p)) ss a
   | None => a
   end).

Definition vips_foreign_get_suffixes (classes : list C) : list string :=
  let n_suffs := snd (vips_foreign_map classes vips_foreign_get_suffixes_count_cb 0) in
  let suffs := g_new0 (n_suffs + 1) in
  let '(suffs, p) :=
    snd (vips_foreign_map classes vips_foreign_get_suffixes_add_cb (suffs, O)) in
  strv suffs.

End Suffixes.

End Discovery.
Import Discovery.

(** ** Images: the header fields and the metadata foreign.c works with *)

Module Image.

(** The ten band formats that index a saver's format table
    ([VIPS_FORMAT_NOTSET] is not the format of an image). *)
Inductive VipsBandFormat : Type :=
| VIPS_FORMAT_UCHAR | VIPS_FORMAT_CHAR
| VIPS_FORMAT_USHORT | VIPS_FORMAT_SHORT
| VIPS_FORMAT_UINT | VIPS_FORMAT_INT
| VIPS_FORMAT_FLOAT | VIPS_FORMAT_COMPLEX
| VIPS_FORMAT_DOUBLE | VIPS_FORMAT_DPCOMPLEX.

Inductive VipsCoding : Type :=
| VIPS_CODING_ERROR | VIPS_CODING_NONE | VIPS_CODING_LABQ | VIPS_CODING_RAD.

Inductive VipsInterpretation : Type :=
| VIPS_INTERPRETATION_ERROR
| VIPS_INTERPRETATION_MULTIBAND
| VIPS_INTERPRETATION_B_W
| VIPS_INTERPRETATION_HISTOGRAM
| VIPS_INTERPRETATION_XYZ
| VIPS_INTERPRETATION_LAB
| VIPS_INTERPRETATION_CMYK
| VIPS_INTERPRETATION_LABQ
| VIPS_INTERPRETATION_RGB
| VIPS_INTERPRETATION_CMC
| VIPS_INTERPRETATION_LCH
| VIPS_INTERPRETATION_LABS
| VIPS_INTERPRETATION_sRGB
| VIPS_INTERPRETATION_YXY
| VIPS_INTERPRETATION_FOURIER
| VIPS_INTERPRETATION_RGB16
| VIPS_INTERPRETATION_GREY16
| VIPS_INTERPRETATION_MATRIX
| VIPS_INTERPRETATION_scRGB
| VIPS_INTERPRETATION_HSV.

Scheme Equality for VipsBandFormat.
Scheme Equality for VipsCoding.
Scheme Equality for VipsInterpretation.

(** The value of a metadata field, by kind. *)
Inductive GValue : Type :=
| GBlob (data : list Byte.byte)
| GString (s : string)
| GInt (i : Z).

(** [VipsImage]: the header fields ([Type_] is the C field [Type]) and the
    metadata, an association list in [meta_traverse] order with one entry
    per field name. *)
Record VipsImage : Type := {
  Xsize : Z;
  Ysize : Z;
  Bands : Z;
  BandFmt : VipsBandFormat;
  Coding : VipsCoding;
  Type_ : VipsInterpretation;
  meta : list (string * GValue)
}.

Definition set_meta (im : VipsImage) (m : list (string * GValue)) : VipsImage :=
  {| Xsize := Xsize im; Ysize := Ysize im; Bands := Bands im;
     BandFmt := BandFmt im; Coding := Coding im; Type_ := Type_ im;
     meta := m |}.

Fixpoint meta_lookup (m : list (string * GValue)) (field : string) : option GValue :=
  match m with
  | [] => None
  | (k, v) :: t => if String.eqb k field then Some v else meta_lookup t field
  end.

Fixpoint meta_remove (m : list (string * GValue)) (field : string)
    : list (string * GValue) :=
  match m with
  | [] => []
  | (k, v) :: t => if String.eqb k field then t else (k, v) :: meta_remove t field
  end.

(** Modelled from the spec: the metadata accessors of header.c (not among
    the sources), on the key/value storage the spec leaves external:
    [vips_image_get_typeof] is non-zero when the field exists,
    [vips_image_get_blob] succeeds on a blob field, [vips_image_remove]
    returns [TRUE] when it found and removed the field, and
    [vips_image_set_int] / [vips_image_set_blob] replace or append. *)
Definition vips_image_get_typeof (im : VipsImage) (field : string) : bool :=
  match meta_lookup (meta im) field with Some _ => true | None => false end.

Definition vips_image_get_blob (im : VipsImage) (field : string)
    : option (list Byte.byte) :=
  match meta_lookup (meta im) field with
  | Some (GBlob data) => Some data
  | _ => None
  end.

Definition vips_image_remove (im : VipsImage) (field : string) : bool * VipsImage :=
  match meta_lookup (meta im) field with
  | Some _ => (true, set_meta im (meta_remove (meta im) field))
  | None => (false, im)
  end.

Definition vips_image_set (im : VipsImage) (field : string) (v : GValue) : VipsImage :=
  set_meta im (meta_remove (meta im) field ++ [(field, v)]).

(** The names of the built-in header fields, which [vips_image_map]
    presents before the metadata. *)
Definition vips_header_field_names : list string :=
  ["width"; "height"; "bands"; "format"; "coding"; "interpretation";
   "xoffset"; "yoffset"; "xres"; "yres"; "filename"].

(** Modelled from the spec: [vips_image_map] of header.c (not among the
    sources) walks all fields of the image: it calls [fn] on the header
    fields and then on every metadata field the image had when the walk
    began, lets [fn] change the image, and stops at the first non-[NULL]
    result. *)
Fixpoint vips_image_map_fields (R : Type) (fields : list string)
    (fn : VipsImage -> string -> option R * VipsImage) (im : VipsImage)
    : option R * VipsImage :=
  match fields with
  | [] => (None, im)
  | f :: t =>
      match fn im f with
      | (Some r, im') => (Some r, im')
      | (None, im') => vips_image_map_fields t fn im'
      end
  end.

Definition vips_image_map (R : Type)
    (fn : VipsImage -> string -> option R * VipsImage) (im : VipsImage)
    : option R * VipsImage :=
  vips_image_map_fields (vips_header_field_names ++ map fst (meta im)) fn im.

End Image.
Import Image.

(** ** Load pipeline (foreign.c, 914-1060) *)

Module Load.

Inductive VipsAccess : Type :=
| VIPS_ACCESS_RANDOM
| VIPS_ACCESS_SEQUENTIAL
| VIPS_ACCESS_SEQUENTIAL_UNBUFFERED.

Scheme Equality for VipsAccess.

(** Modelled from the spec: the capability flags of a loader (lazy
    partial read, big-endian pixels, sequential read), one bit each;
    foreign.h, which declares them, is not among the sources. *)
Definition VIPS_FOREIGN_PARTIAL : Z := 1.
Definition VIPS_FOREIGN_BIGENDIAN : Z := 2.
Definition VIPS_FOREIGN_SEQUENTIAL : Z := 4.

(** The fields of a [VipsForeignLoad] object that the start function
    reads and writes. *)
Record VipsForeignLoad : Type := {
  out : VipsImage;
  real : option VipsImage;
  error : bool;
  memory : bool;
  disc : bool;
  flags : Z;
  access : VipsAccess
}.

Definition set_memory (load : VipsForeignLoad) (b : bool) : VipsForeignLoad :=
  {| out := out load; real := real load; error := error load; memory := b;
     disc := disc load; flags := flags load; access := access load |}.

Definition set_real (load : VipsForeignLoad) (r : option VipsImage) : VipsForeignLoad :=
  {| out := out load; real := r; error := error load; memory := memory load;
     disc := disc load; flags := flags load; access := access load |}.

Definition set_error (load : VipsForeignLoad) (b : bool) : VipsForeignLoad :=
  {| out := out load; real := real load; error := b; memory := memory load;
     disc := disc load; flags := flags load; access := access load |}.

(** A region on an image. *)
Record VipsRegion : Type := { region_im : VipsImage }.

(** What the start function calls outside foreign.c: the image
    constructors, the configured disc threshold, the size macro, the
    handler's [load] method (it fills [load->real] and returns a C status),
    and the pipeline calls. *)
Class LoadEnv : Type := {
  vips_get_disc_threshold : Z;
  VIPS_IMAGE_SIZEOF_IMAGE : VipsImage -> Z;
  vips_image_new_memory : option VipsImage;
  vips_image_new : option VipsImage;
  vips_image_new_temp_file : string -> option VipsImage;
  class_load : VipsForeignLoad -> Z * VipsImage;
  vips_image_pio_input : VipsImage -> Z;
  vips_image_pipelinev : VipsImage -> VipsImage -> Z;
  vips_region_new : VipsImage -> option VipsRegion
}.

(** What an observer sees of a load object over time: each call of the
    handler's [load] method and each [vips_operation_invalidate] on the
    operation. *)
Inductive event : Type :=
| handler_load_called
| operation_invalidated.

(** The state the start function runs in: the load object and the events
    so far. *)
Definition LoadState : Type := (VipsForeignLoad * list event)%type.

Section Start.
Context `{LoadEnv}.

Definition vips_foreign_load_temp (load : VipsForeignLoad)
    : option VipsImage * VipsForeignLoad :=
  let disc_threshold := vips_get_disc_threshold in
  let image_size := VIPS_IMAGE_SIZEOF_IMAGE (out load) in
  let load := if negb (disc load) then set_memory load true else load in
  if memory load then (vips_image_new_memory, load)
  else if has_flag (flags load) VIPS_FOREIGN_PARTIAL then (vips_image_new, load)
  else if has_flag (flags load) VIPS_FOREIGN_SEQUENTIAL
          && negb (VipsAccess_beq (access load) VIPS_ACCESS_RANDOM)
  then (vips_image_new, load)
  else if image_size >? disc_threshold then (vips_image_new_temp_file "%s.v", load)
  else (vips_image_new_memory, load).

Definition vips_foreign_load_iscompat (a b : VipsImage) : bool :=
  if negb (Xsize a =? Xsize b)
     || negb (Ysize a =? Ysize b)
     || negb (Bands a =? Bands b)
     || negb (VipsCoding_beq (Coding a) (Coding b))
     || negb (VipsBandFormat_beq (BandFmt a) (BandFmt b))
  then false (* vips_error: images do not match between header and load *)
  else true.

Definition vips_foreign_load_start (out_image : VipsImage) (st : LoadState)
    : option VipsRegion * LoadState :=
  let (load, log) := st in
  if error load then (None, (load, log))
  else
    match real load with
    | Some r => (vips_region_new r, (load, log))
    | None =>
        match vips_foreign_load_temp load with
        | (None, load) => (None, (load, log))
        | (Some r, load) =>
            let load := set_real load (Some r) in
            let (status, r') := class_load load in
            let load := set_real load (Some r') in
            let log := log ++ [handler_load_called] in
            if negb (status =? 0)
               || negb (vips_image_pio_input r' =? 0)
               || negb (vips_foreign_load_iscompat r' out_image)
            then (None, (set_error load true, log ++ [operation_invalidated]))
            else if negb (vips_image_pipelinev (out load) r' =? 0)
            then (None, (load, log))
            else (vips_region_new r', (load, log))
        end
    end.

(** [n] start requests in a row on the same load object: the results, in
    order, and the final state. *)
Fixpoint start_requests (n : nat) (out_image : VipsImage) (st : LoadState)
    : list (option VipsRegion) * LoadState :=
  match n with
  | O => ([], st)
  | S n' =>
      let (r, st') := vips_foreign_load_start out_image st in
      let (rs, st'') := start_requests n' out_image st' in
      (r :: rs, st'')
  end.

(** The decision order of the backing store in the words of the
    specification, to compare [vips_foreign_load_temp] with. *)
Inductive backing_store : Type :=
| in_memory
| direct
| temporary_file.

Definition backing_store_decision
    (memory_flag disc_forced_off lazy_partial sequential non_random_requested
       over_disc_threshold : bool) : backing_store :=
  if memory_flag || disc_forced_off then in_memory
  else if lazy_partial then direct
  else if sequential && non_random_requested then direct
  else if over_disc_threshold then temporary_file
  else in_memory.

Definition backing_store_image (b : backing_store) : option VipsImage :=
  match b with
  | in_memory => vips_image_new_memory
  | direct => vips_image_new
  | temporary_file => vips_image_new_temp_file "%s.v"
  end.

(** The decoded image disagrees with the header-declared image. *)
Definition header_mismatch (decoded declared : VipsImage) : Prop :=
  Xsize decoded <> Xsize declared
  \/ Ysize decoded <> Ysize declared
  \/ Bands decoded <> Bands declared
  \/ Coding decoded <> Coding declared
  \/ BandFmt decoded <> BandFmt declared.

End Start.

End Load.
Import Load.

(** ** Saveable normaliser (foreign.c, 1376-1703) *)

Module Normalizer.

(** Modelled from the spec: the saveable colour-model mask (mono, RGB,
    CMYK, alpha as bits, "any" as the empty mask) and the coding mask
    (uncoded, packed Lab, radiance as bits); foreign.h, which declares
    them, is not among the sources. *)
Definition VIPS_FOREIGN_SAVEABLE_ANY : Z := 0.
Definition VIPS_FOREIGN_SAVEABLE_MONO : Z := 1.
Definition VIPS_FOREIGN_SAVEABLE_RGB : Z := 2.
Definition VIPS_FOREIGN_SAVEABLE_CMYK : Z := 4.
Definition VIPS_FOREIGN_SAVEABLE_ALPHA : Z := 8.

Definition VIPS_FOREIGN_CODING_NONE : Z := 1.
Definition VIPS_FOREIGN_CODING_LABQ : Z := 2.
Definition VIPS_FOREIGN_CODING_RAD : Z := 4.

(** Modelled from the spec: the width in bits of the ten numeric pixel
    formats (unsigned/signed 8/16/32-bit integers, 32/64-bit floats and
    the two complex variants), and [vips_band_format_is8bit] of header.c
    (not among the sources), true of the two 8-bit formats. *)
Definition band_format_bits (f : VipsBandFormat) : Z :=
  match f with
  | VIPS_FORMAT_UCHAR | VIPS_FORMAT_CHAR => 8
  | VIPS_FORMAT_USHORT | VIPS_FORMAT_SHORT => 16
  | VIPS_FORMAT_UINT | VIPS_FORMAT_INT | VIPS_FORMAT_FLOAT => 32
  | VIPS_FORMAT_COMPLEX | VIPS_FORMAT_DOUBLE => 64
  | VIPS_FORMAT_DPCOMPLEX => 128
  end.

Definition vips_band_format_is8bit (f : VipsBandFormat) : bool :=
  match f with
  | VIPS_FORMAT_UCHAR | VIPS_FORMAT_CHAR => true
  | _ => false
  end.

(** Modelled from the spec: the rescale that [vips_cast] (cast.c, not
    among the sources) applies to an integer sample when its shift option
    is on and the cast narrows: a right shift by the difference of the
    widths. *)
Definition shift_rescale_sample (from to : VipsBandFormat) (v : Z) : Z :=
  Z.shiftr v (band_format_bits from - band_format_bits to).

(** A saver's format table, [VipsBandFormat format[10]]: the format to
    cast to, for each band format. *)
Definition format_table : Type := VipsBandFormat -> VipsBandFormat.

(** The default table of foreign.c (1835): no cast. *)
Definition vips_foreign_save_format_table : format_table := fun f => f.

(** The table of tiffsave.c (137) for jpeg-in-tiff: always to uchar. *)
Definition bandfmt_jpeg : format_table := fun _ => VIPS_FORMAT_UCHAR.

(** The image operations the normaliser calls, with the optional
    arguments it passes. *)
Inductive Op (background : Type) : Type :=
| vips_LabQ2sRGB
| vips_rad2float
| vips_icc_import_cmyk_to_xyz
| vips_colourspace (space : VipsInterpretation)
| vips_icc_export_cmyk (depth : Z)
| vips_flatten (bg : background)
| vips_extract_band (band : Z) (n : Z)
| vips_cast (format : VipsBandFormat) (shift : bool)
| vips_Lab2LabQ
| vips_float2rad
| vips_image_decode
| vips_copy.
Arguments vips_LabQ2sRGB {background}.
Arguments vips_rad2float {background}.
Arguments vips_icc_import_cmyk_to_xyz {background}.
Arguments vips_colourspace {background} space.
Arguments vips_icc_export_cmyk {background} depth.
Arguments vips_extract_band {background} band n.
Arguments vips_cast {background} format shift.
Arguments vips_Lab2LabQ {background}.
Arguments vips_float2rad {background}.
Arguments vips_image_decode {background}.
Arguments vips_copy {background}.

(** The image library outside foreign.c: the type of a background value
    ([VipsArrayDouble]), the two header queries and the operations
    themselves, each of which yields a new image or fails. *)
Class ImageOps : Type := {
  VipsArrayDouble : Type;
  vips_image_guess_interpretation : VipsImage -> VipsInterpretation;
  vips_image_hasalpha : VipsImage -> bool;
  run_op : Op VipsArrayDouble -> VipsImage -> option VipsImage
}.

Section Convert.
Context `{ImageOps}.

(** A conversion either fails ([-1] in C, the intermediates unreferenced)
    or yields a value and the operations that were applied, in order. *)
Definition Conv (A : Type) : Type := option (A * list (Op VipsArrayDouble)).

Definition ret (A : Type) (a : A) : Conv A := Some (a, []).

Definition bind (A B : Type) (c : Conv A) (k : A -> Conv B) : Conv B :=
  match c with
  | None => None
  | Some (a, ops) =>
      match k a with
      | None => None
      | Some (b, ops') => Some (b, ops ++ ops')
      end
  end.

Definition fail (A : Type) : Conv A := None.

Definition call (op : Op VipsArrayDouble) (im : VipsImage) : Conv VipsImage :=
  match run_op op im with
  | Some im' => Some (im', [op])
  | None => None
  end.

Local Notation "x <- c ;; k" := (bind c (fun x => k))
  (at level 61, c at next level, right associativity).

Definition is_cmyk_looking (im : VipsImage) : bool :=
  VipsInterpretation_beq (vips_image_guess_interpretation im) VIPS_INTERPRETATION_CMYK
  && (4 <=? Bands im).

Definition vips_foreign_apply_saveable (in_ : VipsImage) (saveable : Z)
    : Conv VipsImage :=
  let sixteenbit := VipsBandFormat_beq (BandFmt in_) VIPS_FORMAT_USHORT in
  if saveable =? VIPS_FOREIGN_SAVEABLE_ANY then ret in_
  else
    in_ <- (if VipsCoding_beq (Coding in_) VIPS_CODING_LABQ
            then call vips_LabQ2sRGB in_ else ret in_) ;;
    in_ <- (if VipsCoding_beq (Coding in_) VIPS_CODING_RAD
            then call vips_rad2float in_ else ret in_) ;;
    if has_flag saveable VIPS_FOREIGN_SAVEABLE_MONO && (Bands in_ <? 3)
    then ret in_
    else if is_cmyk_looking in_ && has_flag saveable VIPS_FOREIGN_SAVEABLE_CMYK
    then ret in_
    else
      in_ <- (if is_cmyk_looking in_
              then call vips_icc_import_cmyk_to_xyz in_ else ret in_) ;;
      if has_flag saveable VIPS_FOREIGN_SAVEABLE_RGB
      then call (vips_colourspace
                   (if sixteenbit then VIPS_INTERPRETATION_RGB16
                    else VIPS_INTERPRETATION_sRGB)) in_
      else if has_flag saveable VIPS_FOREIGN_SAVEABLE_CMYK
      then call (vips_icc_export_cmyk (if sixteenbit then 16 else 8)) in_
      else if has_flag saveable VIPS_FOREIGN_SAVEABLE_MONO
      then call (vips_colourspace
                   (if sixteenbit then VIPS_INTERPRETATION_GREY16
                    else VIPS_INTERPRETATION_B_W)) in_
      else fail _ (* saver does not support any output type *).

(** Lines 1574-1587: flatten alpha, if the saver does not support it. *)
Definition flatten_alpha_step (saveable : Z) (background : VipsArrayDouble)
    (in_ : VipsImage) : Conv VipsImage :=
  if VipsCoding_beq (Coding in_) VIPS_CODING_NONE
     && vips_image_hasalpha in_
     && negb (has_flag saveable VIPS_FOREIGN_SAVEABLE_ALPHA)
  then call (vips_flatten background) in_
  else ret in_.

(** The [switch] of lines 1596-1623. *)
Definition interpretation_max_bands (i : VipsInterpretation) : Z :=
  match i with
  | VIPS_INTERPRETATION_B_W
  | VIPS_INTERPRETATION_GREY16 => 1
  | VIPS_INTERPRETATION_RGB
  | VIPS_INTERPRETATION_CMC
  | VIPS_INTERPRETATION_LCH
  | VIPS_INTERPRETATION_LABS
  | VIPS_INTERPRETATION_sRGB
  | VIPS_INTERPRETATION_YXY
  | VIPS_INTERPRETATION_XYZ
  | VIPS_INTERPRETATION_LAB
  | VIPS_INTERPRETATION_RGB16
  | VIPS_INTERPRETATION_scRGB
  | VIPS_INTERPRETATION_HSV => 3
  | VIPS_INTERPRETATION_CMYK => 4
  | _ => 0
  end.

(** Lines 1589-1641: drop any remaining excess bands. *)
Definition drop_excess_bands_step (saveable : Z) (in_ : VipsImage) : Conv VipsImage :=
  if VipsCoding_beq (Coding in_) VIPS_CODING_NONE
  then
    let max_bands := interpretation_max_bands (vips_image_guess_interpretation in_) in
    let max_bands :=
      if saveable =? VIPS_FOREIGN_SAVEABLE_ANY then Bands in_
      else if has_flag saveable VIPS_FOREIGN_SAVEABLE_ALPHA then max_bands + 1
      else max_bands in
    if (max_bands >? 0) && (Bands in_ >? max_bands)
    then call (vips_extract_band 0 max_bands) in_
    else ret in_
  else ret in_.

(** An interpretation outside the grey, RGB-family and CMYK cases of the
    [switch]. *)
Definition unrecognised_interpretation (i : VipsInterpretation) : Prop :=
  interpretation_max_bands i = 0.

Definition needs_shift (format : format_table) (in_ : VipsImage) : bool :=
  negb (vips_band_format_is8bit (BandFmt in_))
  && vips_band_format_is8bit (format (BandFmt in_)).

(** Lines 1643-1662: convert to the format the saver likes. *)
Definition cast_step (format : format_table) (in_ : VipsImage) : Conv VipsImage :=
  if VipsCoding_beq (Coding in_) VIPS_CODING_NONE
  then call (vips_cast (format (BandFmt in_)) (needs_shift format in_)) in_
  else ret in_.

(** Lines 1664-1698: does this class want a coded image? *)
Definition recode_step (coding : Z) (in_ : VipsImage) : Conv VipsImage :=
  if (VipsCoding_beq (Coding in_) VIPS_CODING_NONE
        && has_flag coding VIPS_FOREIGN_CODING_NONE)
     || (VipsCoding_beq (Coding in_) VIPS_CODING_LABQ
        && has_flag coding VIPS_FOREIGN_CODING_LABQ)
     || (VipsCoding_beq (Coding in_) VIPS_CODING_RAD
        && has_flag coding VIPS_FOREIGN_CODING_RAD)
  then ret in_
  else if has_flag coding VIPS_FOREIGN_CODING_LABQ then call vips_Lab2LabQ in_
  else if has_flag coding VIPS_FOREIGN_CODING_RAD then call vips_float2rad in_
  else if has_flag coding VIPS_FOREIGN_CODING_NONE then call vips_image_decode in_
  else ret in_.

Definition vips__foreign_convert_saveable (in_ : VipsImage) (saveable : Z)
    (format : format_table) (coding : Z) (background : VipsArrayDouble)
    : Conv VipsImage :=
  if (VipsCoding_beq (Coding in_) VIPS_CODING_LABQ
        && has_flag coding VIPS_FOREIGN_CODING_LABQ)
     || (VipsCoding_beq (Coding in_) VIPS_CODING_RAD
        && has_flag coding VIPS_FOREIGN_CODING_RAD)
  then ret in_
  else if VipsCoding_beq (Coding in_) VIPS_CODING_NONE
          && (saveable =? VIPS_FOREIGN_SAVEABLE_ANY)
          && VipsBandFormat_beq (format (BandFmt in_)) (BandFmt in_)
  then ret in_
  else
    in_ <- vips_foreign_apply_saveable in_ saveable ;;
    in_ <- flatten_alpha_step saveable background in_ ;;
    in_ <- drop_excess_bands_step saveable in_ ;;
    in_ <- cast_step format in_ ;;
    recode_step coding in_.

End Convert.

End Normalizer.
Import Normalizer.

(** ** Metadata policy (foreign.c, 1705-1768) *)

Module Metadata.

(** Modelled from the spec: the metadata-keep mask, one bit for each of
    the categories EXIF, XMP, IPTC, ICC and "other", "none" the empty mask
    and "all" every category; foreign.h, which declares it, is not among
    the sources. *)
Definition VIPS_FOREIGN_KEEP_NONE : Z := 0.
Definition VIPS_FOREIGN_KEEP_EXIF : Z := 1.
Definition VIPS_FOREIGN_KEEP_XMP : Z := 2.
Definition VIPS_FOREIGN_KEEP_IPTC : Z := 4.
Definition VIPS_FOREIGN_KEEP_ICC : Z := 8.
Definition VIPS_FOREIGN_KEEP_OTHER : Z := 16.
Definition VIPS_FOREIGN_KEEP_ALL : Z :=
  Z.lor VIPS_FOREIGN_KEEP_EXIF
    (Z.lor VIPS_FOREIGN_KEEP_XMP
       (Z.lor VIPS_FOREIGN_KEEP_IPTC
          (Z.lor VIPS_FOREIGN_KEEP_ICC VIPS_FOREIGN_KEEP_OTHER))).

(** Modelled from the spec: the distinguished metadata keys; header.h,
    which declares them, is not among the sources. *)
Definition VIPS_META_EXIF_NAME : string := "exif-data".
Definition VIPS_META_XMP_NAME : string := "xmp-data".
Definition VIPS_META_IPTC_NAME : string := "iptc-data".
Definition VIPS_META_ICC_NAME : string := "icc-profile-data".
Definition VIPS_META_IMAGEDESCRIPTION : string := "image-description".
Definition VIPS_META_PAGE_HEIGHT : string := "page-height".

(** The two collaborators of the metadata policy that live outside
    foreign.c: the serialiser of the EXIF rebuild, which yields the new
    EXIF block or fails, and the structural test of an ICC profile against
    a band count, band format and interpretation. *)
Class MetaEnv : Type := {
  exif_rebuild : VipsImage -> option (list Byte.byte);
  icc_profile_fits :
    Z -> VipsBandFormat -> VipsInterpretation -> list Byte.byte -> bool
}.

Section Policy.
Context `{MetaEnv}.

(** Modelled from the spec: [vips__exif_update] of exif.c (not among the
    sources) rebuilds the serialised EXIF block from the structured tag
    fields the image carries: it fails, or it sets the EXIF field of the
    image to the rebuilt block. *)
Definition vips__exif_update (im : VipsImage) : Z * VipsImage :=
  match exif_rebuild im with
  | Some data => (0, vips_image_set im VIPS_META_EXIF_NAME (GBlob data))
  | None => (-1, im)
  end.

(** Modelled from the spec: [vips_icc_is_compatible_profile] of
    icc_transform.c (not among the sources) validates that the profile is
    structurally compatible with the colour model and bit depth of the
    image, that is, with its header fields. *)
Definition vips_icc_is_compatible_profile (im : VipsImage) (data : list Byte.byte)
    : bool :=
  icc_profile_fits (Bands im) (BandFmt im) (Type_ im) data.

(** The first test of the callback: is [field] metadata at all. *)
Definition is_metadata_field (field : string) : bool :=
  vips_isprefix "png-comment-" field
  || vips_isprefix "magickprofile-" field
  || String.eqb field VIPS_META_IMAGEDESCRIPTION
  || g_str_has_suffix field "-data".

(** The second test of the callback: does [keep] retain [field]. *)
Definition keep_retains (keep : Z) (field : string) : bool :=
  (String.eqb field VIPS_META_EXIF_NAME && has_flag keep VIPS_FOREIGN_KEEP_EXIF)
  || (String.eqb field VIPS_META_XMP_NAME && has_flag keep VIPS_FOREIGN_KEEP_XMP)
  || (String.eqb field VIPS_META_IPTC_NAME && has_flag keep VIPS_FOREIGN_KEEP_IPTC)
  || (String.eqb field VIPS_META_ICC_NAME && has_flag keep VIPS_FOREIGN_KEEP_ICC)
  || has_flag keep VIPS_FOREIGN_KEEP_OTHER.

(** The [vips_image_map] callback; a non-[NULL] result (the image) is
    [Some tt]. *)
Definition vips_foreign_save_remove_metadata (keep : Z) (image : VipsImage)
    (field : string) : option unit * VipsImage :=
  if negb (is_metadata_field field) then (None, image)
  else if keep_retains keep field then (None, image)
  else
    let (removed, image') := vips_image_remove image field in
    if negb removed then (Some tt, image') else (None, image').

(** The fields the walk leaves in place under [keep]. *)
Definition walk_retains (keep : Z) (field : string) : bool :=
  negb (is_metadata_field field) || keep_retains keep field.

(** The status ([0] or [-1]) and the image as the call leaves it. *)
Definition vips__foreign_update_metadata (in_ : VipsImage) (keep : Z)
    : Z * VipsImage :=
  let (exif_status, in1) :=
    if has_flag keep VIPS_FOREIGN_KEEP_EXIF then vips__exif_update in_
    else (0, in_) in
  if negb (exif_status =? 0) then (-1, in1)
  else
    let (walk, in2) :=
      if negb (keep =? VIPS_FOREIGN_KEEP_ALL)
      then vips_image_map (vips_foreign_save_remove_metadata keep) in1
      else (None, in1) in
    match walk with
    | Some _ => (-1, in2)
    | None =>
        if has_flag keep VIPS_FOREIGN_KEEP_ICC
           && vips_image_get_typeof in2 VIPS_META_ICC_NAME
        then
          match vips_image_get_blob in2 VIPS_META_ICC_NAME with
          | Some data =>
              if negb (vips_icc_is_compatible_profile in2 data)
              then
                let (removed, in3) := vips_image_remove in2 VIPS_META_ICC_NAME in
                if negb removed then (-1, in3) else (0, in3)
              else (0, in2)
          | None => (0, in2)
          end
        else (0, in2)
    end.

End Policy.

End Metadata.
Import Metadata.

(** ** Save build (foreign.c, 1770-1822) *)

Module Save.

(** The class fields of a saver: the base class, the saveable mask, the
    format table and the coding mask. *)
Record VipsForeignSaveClass : Type := {
  save_parent_class : VipsForeignClass;
  saveable : Z;
  save_format_table : format_table;
  coding : Z
}.

#[export] Instance save_is_foreign : ForeignSubclass VipsForeignSaveClass :=
  save_parent_class.

Section Build.
Context `{ImageOps} `{MetaEnv}.

(** The fields of a [VipsForeignSave] object; [profile] is the file name
    of the ICC profile to embed ([NULL] is [None]), and [argument_isset]
    answers [vips_object_argument_isset] for the object. *)
Record VipsForeignSave : Type := {
  in_ : option VipsImage;
  ready : option VipsImage;
  keep : Z;
  strip : bool;
  background : VipsArrayDouble;
  page_height : Z;
  profile : option string;
  argument_isset : string -> bool
}.

Definition set_keep (save : VipsForeignSave) (k : Z) : VipsForeignSave :=
  {| in_ := in_ save; ready := ready save; keep := k; strip := strip save;
     background := background save; page_height := page_height save;
     profile := profile save; argument_isset := argument_isset save |}.

Definition set_ready (save : VipsForeignSave) (r : option VipsImage)
    : VipsForeignSave :=
  {| in_ := in_ save; ready := r; keep := keep save; strip := strip save;
     background := background save; page_height := page_height save;
     profile := profile save; argument_isset := argument_isset save |}.

(** The first statement of the build: the deprecated "strip" field sets
    "keep". *)
Definition save_build_strip (save : VipsForeignSave) : VipsForeignSave :=
  if argument_isset save "strip" && negb (argument_isset save "keep")
  then set_keep save (if strip save then VIPS_FOREIGN_KEEP_NONE
                      else VIPS_FOREIGN_KEEP_ALL)
  else save.

(** The first two statements of the build: the deprecated "strip" field,
    then "profile" switching the ICC category on. *)
Definition save_build_keep (save : VipsForeignSave) : VipsForeignSave :=
  let save := save_build_strip save in
  if (Z.land (keep save) VIPS_FOREIGN_KEEP_ICC =? 0)
     && argument_isset save "profile"
  then set_keep save (Z.lor (keep save) VIPS_FOREIGN_KEEP_ICC)
  else save.

(** [parent_build] is the [build] method of the parent class, which the
    function chains up to at its end. *)
Definition vips_foreign_save_build (parent_build : VipsForeignSave -> Z)
    (class : VipsForeignSaveClass) (save : VipsForeignSave)
    : Z * VipsForeignSave :=
  let save := save_build_keep save in
  match in_ save with
  | Some im =>
      match vips__foreign_convert_saveable im (saveable class)
              (save_format_table class) (coding class) (background save) with
      | None => (-1, save)
      | Some (ready0, _) =>
          match run_op vips_copy ready0 with
          | None => (-1, save)
          | Some x =>
              let (status, ready1) := vips__foreign_update_metadata x (keep save) in
              if negb (status =? 0) then (-1, save)
              else
                let ready2 :=
                  if negb (page_height save =? 0)
                  then vips_image_set ready1 VIPS_META_PAGE_HEIGHT
                         (GInt (page_height save))
                  else ready1 in
                let save := set_ready save (Some ready2) in
                (parent_build save, save)
          end
      end
  | None => (parent_build save, save)
  end.

End Build.

End Save.
Import Save.

(** ** Concrete handlers, files and images for the examples *)

Module Examples.

(** A file system with the one file "fake.tif"; names carry no option
    string and a name matches a suffix list when it ends in one of its
    entries. *)
Definition one_file_fs : FileSystem := {|
  vips__filename_split8 := fun name => (name, "");
  vips_existsf := fun filename => String.eqb filename "fake.tif";
  vips_isdirf := fun _ => false;
  vips_filename_suffix_match := fun filename ss =>
    existsb (fun s => g_str_has_suffix filename s) ss
|}.

Definition foreign_class (nick name : string) (prio : Z)
    (ss : option (list string)) : VipsForeignClass :=
  {| nickname := nick; class_name := name; operation_flags := 0;
     priority := prio; suffs := ss |}.

(** Two loaders without a sniffer, which claim ".tif" and ".csv" by
    suffix, and a loader of lower priority with a sniffer that recognises
    the bytes of "fake.tif". *)
Definition suffix_tiff_load : VipsForeignLoadClass :=
  {| load_parent_class :=
       foreign_class "tiffload" "VipsForeignLoadTiff" 50 (Some [".tif"; ".tiff"]);
     is_a := None |}.

Definition suffix_csv_load : VipsForeignLoadClass :=
  {| load_parent_class :=
       foreign_class "csvload" "VipsForeignLoadCsv" 50 (Some [".csv"]);
     is_a := None |}.

Definition sniffing_x_load : VipsForeignLoadClass :=
  {| load_parent_class := foreign_class "xload" "VipsForeignLoadX" 0 (Some [".x"]);
     is_a := Some (fun filename => String.eqb filename "fake.tif") |}.

(** Two handlers whose priorities are the largest [int] and [-100]. *)
Definition top_priority_class : VipsForeignClass :=
  foreign_class "firstload" "VipsForeignLoadFirst" 2147483647 None.

Definition low_priority_class : VipsForeignClass :=
  foreign_class "lastload" "VipsForeignLoadLast" (-100) None.

(** Two handlers with priorities 10 and 5. *)
Definition ten_class : VipsForeignClass :=
  foreign_class "tenload" "VipsForeignLoadTen" 10 None.

Definition five_class : VipsForeignClass :=
  foreign_class "fiveload" "VipsForeignLoadFive" 5 None.

(** The file and the buffer saver of one format share a suffix list. *)
Definition tiff_save : VipsForeignClass :=
  foreign_class "tiffsave" "VipsForeignSaveTiffFile" 0 (Some [".tif"; ".tiff"]).

Definition tiff_save_buffer : VipsForeignClass :=
  foreign_class "tiffsave_buffer" "VipsForeignSaveTiffBuffer" 0
    (Some [".tif"; ".tiff"]).

(** Images. *)
Definition image (w h bands : Z) (fmt : VipsBandFormat) (c : VipsCoding)
    (t : VipsInterpretation) (m : list (string * GValue)) : VipsImage :=
  {| Xsize := w; Ysize := h; Bands := bands; BandFmt := fmt; Coding := c;
     Type_ := t; meta := m |}.

Definition header_image : VipsImage :=
  image 640 480 3 VIPS_FORMAT_UCHAR VIPS_CODING_NONE VIPS_INTERPRETATION_sRGB [].

Definition empty_image : VipsImage :=
  image 0 0 0 VIPS_FORMAT_UCHAR VIPS_CODING_NONE VIPS_INTERPRETATION_MULTIBAND [].

(** A loader environment whose handler decodes an image one band short of
    the header and reports success, and one whose handler fails. *)
Definition mismatching_load_env : LoadEnv := {|
  vips_get_disc_threshold := 100 * 1024 * 1024;
  VIPS_IMAGE_SIZEOF_IMAGE := fun im => Xsize im * Ysize im * Bands im;
  vips_image_new_memory := Some empty_image;
  vips_image_new := Some empty_image;
  vips_image_new_temp_file := fun _ => Some empty_image;
  class_load := fun _ =>
    (0, image 640 480 2 VIPS_FORMAT_UCHAR VIPS_CODING_NONE
          VIPS_INTERPRETATION_sRGB []);
  vips_image_pio_input := fun _ => 0;
  vips_image_pipelinev := fun _ _ => 0;
  vips_region_new := fun im => Some {| region_im := im |}
|}.

(** The image library at the level of the header: the interpretation
    tag of the example images is sane, so the sanity-checked guess is the
    tag; alpha is signalled for bands beyond those of a grey, RGB-family or
    CMYK interpretation; each operation changes the header fields it is
    documented to change. *)
Definition header_hasalpha (im : VipsImage) : bool :=
  match interpretation_max_bands (Type_ im) with
  | 0 => false
  | n => Bands im >? n
  end.

Definition header_run_op (op : Op (list Z)) (im : VipsImage) : option VipsImage :=
  let mk b f c t := image (Xsize im) (Ysize im) b f c t (meta im) in
  match op with
  | vips_LabQ2sRGB =>
      Some (mk 3 VIPS_FORMAT_UCHAR VIPS_CODING_NONE VIPS_INTERPRETATION_sRGB)
  | vips_rad2float =>
      Some (mk 3 VIPS_FORMAT_FLOAT VIPS_CODING_NONE VIPS_INTERPRETATION_scRGB)
  | vips_icc_import_cmyk_to_xyz =>
      Some (mk (Bands im - 1) VIPS_FORMAT_FLOAT VIPS_CODING_NONE VIPS_INTERPRETATION_XYZ)
  | vips_colourspace space =>
      Some (mk (Bands im) (BandFmt im) (Coding im) space)
  | vips_icc_export_cmyk depth =>
      Some (mk 4 (if depth =? 16 then VIPS_FORMAT_USHORT else VIPS_FORMAT_UCHAR)
              VIPS_CODING_NONE VIPS_INTERPRETATION_CMYK)
  | vips_flatten _ =>
      Some (mk (Bands im - 1) (BandFmt im) (Coding im) (Type_ im))
  | vips_extract_band _ n =>
      Some (mk n (BandFmt im) (Coding im) (Type_ im))
  | vips_cast format _ =>
      Some (mk (Bands im) format (Coding im) (Type_ im))
  | vips_Lab2LabQ =>
      Some (mk 4 VIPS_FORMAT_UCHAR VIPS_CODING_LABQ VIPS_INTERPRETATION_LABQ)
  | vips_float2rad =>
      Some (mk 4 VIPS_FORMAT_UCHAR VIPS_CODING_RAD (Type_ im))
  | vips_image_decode =>
      Some (mk 3 (BandFmt im) VIPS_CODING_NONE (Type_ im))
  | vips_copy => Some im
  end.

Definition header_ops : ImageOps := {|
  VipsArrayDouble := list Z;
  vips_image_guess_interpretation := Type_;
  vips_image_hasalpha := header_hasalpha;
  run_op := header_run_op
|}.

(** An 8-bit three-band sRGB image, a 16-bit one, a two-band 8-bit
    histogram of 256 bins, and a five-band image tagged sRGB. *)
Definition rgb_five_band_image : VipsImage :=
  image 640 480 5 VIPS_FORMAT_UCHAR VIPS_CODING_NONE VIPS_INTERPRETATION_sRGB [].

Definition rgb8_image : VipsImage := header_image.

Definition rgb16_image : VipsImage :=
  image 640 480 3 VIPS_FORMAT_USHORT VIPS_CODING_NONE VIPS_INTERPRETATION_RGB16 [].

Definition histogram2_image : VipsImage :=
  image 256 1 2 VIPS_FORMAT_UCHAR VIPS_CODING_NONE VIPS_INTERPRETATION_HISTOGRAM [].

(** The saveable mask of a saver of mono and RGB images with alpha. *)
Definition mono_rgb_alpha : Z :=
  Z.lor VIPS_FOREIGN_SAVEABLE_MONO
    (Z.lor VIPS_FOREIGN_SAVEABLE_RGB VIPS_FOREIGN_SAVEABLE_ALPHA).

(** Metadata collaborators: the EXIF rebuild yields an empty block or
    fails; a profile fits an image with at least as many bands as the
    profile has bytes. *)
Definition profile_fits (bands : Z) (_ : VipsBandFormat) (_ : VipsInterpretation)
    (data : list Byte.byte) : bool :=
  Z.of_nat (List.length data) <=? bands.

Definition meta_env : MetaEnv :=
  {| exif_rebuild := fun _ => Some []; icc_profile_fits := profile_fits |}.

Definition failing_exif_env : MetaEnv :=
  {| exif_rebuild := fun _ => None; icc_profile_fits := profile_fits |}.

(** A three-band image that carries a four-byte profile, EXIF and XMP. *)
Definition cmyk_profile : list Byte.byte := [Byte.x43; Byte.x4d; Byte.x59; Byte.x4b].

Definition rgb_with_cmyk_profile : VipsImage :=
  image 640 480 3 VIPS_FORMAT_UCHAR VIPS_CODING_NONE VIPS_INTERPRETATION_sRGB
    [("exif-data", GBlob [Byte.x45]);
     ("icc-profile-data", GBlob cmyk_profile);
     ("xmp-data", GBlob [Byte.x58])].

Definition keep_exif_icc : Z := Z.lor VIPS_FOREIGN_KEEP_EXIF VIPS_FOREIGN_KEEP_ICC.


Definition any_saver : VipsForeignSaveClass :=
  {| save_parent_class :=
       foreign_class "tiffsave" "VipsForeignSaveTiffFile" 0 (Some [".tif"; ".tiff"]);
     saveable := VIPS_FOREIGN_SAVEABLE_ANY;
     save_format_table := vips_foreign_save_format_table;
     coding := Z.lor VIPS_FOREIGN_CODING_NONE VIPS_FOREIGN_CODING_LABQ |}.

Definition fresh_load : VipsForeignLoad :=
  {| out := header_image; real := None; error := false; memory := false;
     disc := true; flags := 0; access := VIPS_ACCESS_RANDOM |}.

End Examples.

(** ** Buffer and source loaders, and the savers (foreign.c, 669-787,
    1925-2208) *)

Module Finders.

(** A [VipsSource]: the bytes it delivers and its read position. *)
Record VipsSource : Type := {
  source_data : list Byte.byte;
  read_position : Z
}.

(** Modelled from the spec: [vips_source_rewind] of source.c (not among
    the sources) puts the stream back to position zero. *)
Definition vips_source_rewind (source : VipsSource) : VipsSource :=
  {| source_data := source_data source; read_position := 0 |}.

(** The methods of [VipsForeignLoadClass] for buffers and sources, beside
    the fields of the class that file discovery reads: [is_a_buffer] tests
    a memory area, [is_a_source] reads from the source, which moves its
    read position. *)
Record VipsForeignLoadMethods : Type := {
  load_class : VipsForeignLoadClass;
  is_a_buffer : option (list Byte.byte -> bool);
  is_a_source : option (VipsSource -> bool * VipsSource)
}.

#[export] Instance methods_is_foreign : ForeignSubclass VipsForeignLoadMethods :=
  fun c => VIPS_FOREIGN_CLASS (load_class c).

(** Can this loader open this buffer? *)
Definition vips_foreign_find_load_buffer_sub (load_class : VipsForeignLoadMethods)
    (buf : list Byte.byte) : option VipsForeignLoadMethods :=
  let object_class := VIPS_FOREIGN_CLASS load_class in
  if negb (g_str_has_suffix (nickname object_class) "_buffer") then None
  else
    match is_a_buffer load_class with
    | Some sniff => if sniff buf then Some load_class else None
    | None => None (* g_warning *)
    end.

(** [None] is the [NULL] the C function returns with "buffer is not in a
    known format". *)
Definition vips_foreign_find_load_buffer (classes : list VipsForeignLoadMethods)
    (data : list Byte.byte) : option string :=
  match fst (vips_foreign_map classes
               (fun c (b : unit) => (vips_foreign_find_load_buffer_sub c data, b)) tt)
  with
  | None => None
  | Some load_class => Some (class_name (VIPS_FOREIGN_CLASS load_class))
  end.

(** Can this loader open this source?  The source is the user data [a];
    the function returns it as the sniffer left it. *)
Definition vips_foreign_find_load_source_sub (item : VipsForeignLoadMethods)
    (a : VipsSource) : option VipsForeignLoadMethods * VipsSource :=
  let object_class := VIPS_FOREIGN_CLASS item in
  if negb (g_str_has_suffix (nickname object_class) "_source") then (None, a)
  else
    match is_a_source item with
    | Some sniff =>
        let source := vips_source_rewind a in
        let (accepted, source) := sniff source in
        if accepted then (Some item, source) else (None, source)
    | None => (None, a) (* g_warning *)
    end.

Definition vips_foreign_find_load_source (classes : list VipsForeignLoadMethods)
    (source : VipsSource) : option string * VipsSource :=
  let (found, source) :=
    vips_foreign_map classes vips_foreign_find_load_source_sub source in
  (match found with
   | None => None
   | Some load_class => Some (class_name (VIPS_FOREIGN_CLASS load_class))
   end, source).

(** The first source loader, in the order given, whose sniffer accepts the
    rewound source: what the search is compared with. *)
Definition accepts_rewound (source : VipsSource) (item : VipsForeignLoadMethods)
    : bool :=
  g_str_has_suffix (nickname (VIPS_FOREIGN_CLASS item)) "_source"
  && match is_a_source item with
     | Some sniff => fst (sniff (vips_source_rewind source))
     | None => false
     end.

(** A sniffer reads: it may move the read position, the bytes stay. *)
Definition sniffers_only_read (classes : list VipsForeignLoadMethods) : Prop :=
  forall item sniff source,
    In item classes -> is_a_source item = Some sniff ->
    source_data (snd (sniff source)) = source_data source.

(** The string helper of util.c that saver discovery calls, and the GType
    query for abstract classes; both are outside foreign.c and are taken
    as an interface. *)
Class SaverNames : Type := {
  vips_iscasepostfix : string -> string -> bool;
  G_TYPE_IS_ABSTRACT : VipsForeignSaveClass -> bool
}.

Section FindSave.
Context `{FileSystem} `{SaverNames}.

(** Can we write this filename with this class? *)
Definition vips_foreign_find_save_sub (save_class : VipsForeignSaveClass)
    (filename : string) : option VipsForeignSaveClass :=
  let object_class := VIPS_FOREIGN_CLASS save_class in
  match suffs object_class with
  | None => None (* g_warning *)
  | Some ss =>
      if g_str_has_suffix (nickname object_class) "_buffer"
         || g_str_has_suffix (nickname object_class) "_target"
      then None
      else if existsb (fun p => vips_iscasepostfix filename p) ss
      then Some save_class
      else None
  end.

Definition vips_foreign_find_save (classes : list VipsForeignSaveClass)
    (name : string) : option string :=
  let (filename, option_string) := vips__filename_split8 name in
  match fst (vips_foreign_map classes
               (fun c (b : unit) => (vips_foreign_find_save_sub c filename, b)) tt)
  with
  | None => None (* is not a known file format *)
  | Some save_class => Some (class_name (VIPS_FOREIGN_CLASS save_class))
  end.

(** Can this class write this filetype to a target / to a buffer?  The
    two functions differ in the nickname suffix they ask for. *)
Definition vips_foreign_find_save_target_sub (save_class : VipsForeignSaveClass)
    (suffix : string) : option VipsForeignSaveClass :=
  let object_class := VIPS_FOREIGN_CLASS save_class in
  match suffs object_class with
  | Some ss =>
      if negb (G_TYPE_IS_ABSTRACT save_class)
         && g_str_has_suffix (nickname object_class) "_target"
         && vips_filename_suffix_match suffix ss
      then Some save_class
      else None
  | None => None (* g_warning, for a concrete class *)
  end.

Definition vips_foreign_find_save_target (classes : list VipsForeignSaveClass)
    (name : string) : option string :=
  let (suffix, option_string) := vips__filename_split8 name in
  match fst (vips_foreign_map classes
               (fun c (b : unit) => (vips_foreign_find_save_target_sub c suffix, b)) tt)
  with
  | None => None (* is not a known target format *)
  | Some save_class => Some (class_name (VIPS_FOREIGN_CLASS save_class))
  end.

Definition vips_foreign_find_save_buffer_sub (save_class : VipsForeignSaveClass)
    (suffix : string) : option VipsForeignSaveClass :=
  let object_class := VIPS_FOREIGN_CLASS save_class in
  match suffs object_class with
  | Some ss =>
      if negb (G_TYPE_IS_ABSTRACT save_class)
         && g_str_has_suffix (nickname object_class) "_buffer"
         && vips_filename_suffix_match suffix ss
      then Some save_class
      else None
  | None => None (* g_warning, for a concrete class *)
  end.

Definition vips_foreign_find_save_buffer (classes : list VipsForeignSaveClass)
    (name : string) : option string :=
  let (suffix, option_string) := vips__filename_split8 name in
  match fst (vips_foreign_map classes
               (fun c (b : unit) => (vips_foreign_find_save_buffer_sub c suffix, b)) tt)
  with
  | None => None (* is not a known buffer format *)
  | Some save_class => Some (class_name (VIPS_FOREIGN_CLASS save_class))
  end.

End FindSave.

(** What the priority-ordered search amounts to when the [int] difference
    of priorities does not overflow: the class it stops at is registered
    and let through by [file_add_class], it is accepted, no accepted class
    that is let through has a higher priority, and among the classes of its
    own priority that are let through it is the first accepted one in
    registration order. *)
Section Choice.
Context {C : Type} `{ForeignSubclass C}.

Definition class_priority (c : C) : Z := priority (VIPS_FOREIGN_CLASS c).

Definition priorities_fit_int (classes : list C) : Prop :=
  forall a b, In a classes -> In b classes ->
    is_int (class_priority b - class_priority a).

Definition chosen_by_priority (accepts : C -> bool) (classes : list C) (c : C)
    : Prop :=
  In c classes
  /\ file_add_class_keeps c = true
  /\ accepts c = true
  /\ (forall d, In d classes -> file_add_class_keeps d = true ->
        accepts d = true -> class_priority d <= class_priority c)
  /\ exists pre post,
       with_key class_priority (class_priority c)
         (filter file_add_class_keeps classes) = pre ++ c :: post
       /\ forall d, In d pre -> accepts d = false.

End Choice.

(** Is a class accepted by one of the sub-functions of the finders. *)
Definition accepted (C : Type) (sub : C -> option C) (c : C) : bool :=
  match sub c with
  | Some _ => true
  | None => false
  end.

End Finders.
Import Finders.

(** ** Load build and operation flags (foreign.c, 1085-1201) *)

Module LoadBuild.

Inductive VipsFailOn : Type :=
| VIPS_FAIL_ON_NONE
| VIPS_FAIL_ON_TRUNCATED
| VIPS_FAIL_ON_ERROR
| VIPS_FAIL_ON_WARNING.

(** Modelled from the spec: the operation flags for "do not cache" and
    "revalidate", and the metadata keys for the loader name and the
    sequential-access marker; operation.h and header.h, which declare
    them, are not among the sources. *)
Definition VIPS_OPERATION_NOCACHE : Z := 4.
Definition VIPS_OPERATION_REVALIDATE : Z := 64.
Definition VIPS_META_LOADER : string := "vips-loader".
Definition VIPS_META_SEQUENTIAL : string := "vips-sequential".

(** A load object as the build sees it: the fields the start function
    works with, and the remaining fields of [VipsForeignLoad];
    [argument_isset] answers [vips_object_argument_isset]. *)
Record VipsForeignLoadObject : Type := {
  load : VipsForeignLoad;
  nocache : bool;
  revalidate : bool;
  fail_on : VipsFailOn;
  fail : bool;
  sequential : bool;
  argument_isset : string -> bool
}.

Definition with_load (o : VipsForeignLoadObject) (l : VipsForeignLoad)
    : VipsForeignLoadObject :=
  {| load := l; nocache := nocache o; revalidate := revalidate o;
     fail_on := fail_on o; fail := fail o; sequential := sequential o;
     argument_isset := argument_isset o |}.

Definition with_nocache (o : VipsForeignLoadObject) (b : bool)
    : VipsForeignLoadObject :=
  {| load := load o; nocache := b; revalidate := revalidate o;
     fail_on := fail_on o; fail := fail o; sequential := sequential o;
     argument_isset := argument_isset o |}.

Definition with_fail_on (o : VipsForeignLoadObject) (f : VipsFailOn)
    : VipsForeignLoadObject :=
  {| load := load o; nocache := nocache o; revalidate := revalidate o;
     fail_on := f; fail := fail o; sequential := sequential o;
     argument_isset := argument_isset o |}.

Definition set_flags (l : VipsForeignLoad) (f : Z) : VipsForeignLoad :=
  {| out := out l; real := real l; error := error l; memory := memory l;
     disc := disc l; flags := f; access := access l |}.

Definition set_out (l : VipsForeignLoad) (o : VipsImage) : VipsForeignLoad :=
  {| out := o; real := real l; error := error l; memory := memory l;
     disc := disc l; flags := flags l; access := access l |}.

(** The methods of the loader class that the build calls: [get_flags] and
    [header] are optional, [header] fills [load->out] and returns a C
    status; [load_defined] says whether the class has a [load] method. *)
Record VipsForeignLoadVtable : Type := {
  object_nickname : string;
  get_flags : option (VipsForeignLoadObject -> Z);
  header : option (VipsForeignLoadObject -> Z * VipsImage);
  load_defined : bool
}.

(** What the build calls outside foreign.c: the [build] of the parent
    class, the image constructor, and the two pipeline calls on the output
    image. *)
Class BuildEnv : Type := {
  parent_build : VipsForeignLoadObject -> Z;
  new_image : VipsImage;
  vips_image_pipeline_out : VipsImage -> Z;
  vips_image_generate : VipsImage -> Z
}.

Section Build.
Context `{BuildEnv}.

Definition nonrandom (o : VipsForeignLoadObject) : bool :=
  negb (VipsAccess_beq (access (load o)) VIPS_ACCESS_RANDOM).

(** What the class declares for the object: the result of [get_flags],
    nothing without the method. *)
Definition declared_flags (fclass : VipsForeignLoadVtable)
    (object : VipsForeignLoadObject) : Z :=
  match get_flags fclass with
  | Some method => method object
  | None => 0
  end.

(** Lines 1098-1109: the flags the class declares, with PARTIAL dropped
    when SEQUENTIAL is declared too. *)
Definition build_flags (fclass : VipsForeignLoadVtable)
    (object : VipsForeignLoadObject) : Z :=
  let flags := 0 in
  let flags :=
    match get_flags fclass with
    | Some method => Z.lor flags (method object)
    | None => flags
    end in
  if has_flag flags VIPS_FOREIGN_PARTIAL && has_flag flags VIPS_FOREIGN_SEQUENTIAL
  then Z.lxor flags VIPS_FOREIGN_PARTIAL (* g_warning: using SEQUENTIAL *)
  else flags.

(** Lines 1098-1125: store the flags, block caching of sequential loaders
    in sequential mode, and let the deprecated "fail" set "fail_on". *)
Definition build_prepare (fclass : VipsForeignLoadVtable)
    (object : VipsForeignLoadObject) : VipsForeignLoadObject :=
  let object :=
    with_load object (set_flags (load object) (build_flags fclass object)) in
  let object :=
    if has_flag (Load.flags (load object)) VIPS_FOREIGN_SEQUENTIAL && nonrandom object
    then with_nocache object true
    else object in
  if argument_isset object "fail" && negb (argument_isset object "fail_on")
  then with_fail_on object
         (if fail object then VIPS_FAIL_ON_WARNING else VIPS_FAIL_ON_NONE)
  else object.

(** Lines 1134-1137: the new output image, with the loader's nickname. *)
Definition build_new_out (fclass : VipsForeignLoadVtable)
    (object : VipsForeignLoadObject) : VipsForeignLoadObject :=
  let object := with_load object (set_out (load object) new_image) in
  with_load object
    (set_out (load object)
       (vips_image_set (out (load object)) VIPS_META_LOADER
          (GString (object_nickname fclass)))).

(** Lines 1143-1147: read the header into [out]. *)
Definition build_header (fclass : VipsForeignLoadVtable)
    (object : VipsForeignLoadObject) : Z * VipsForeignLoadObject :=
  match header fclass with
  | Some method =>
      let (status, out') := method object in
      (status, with_load object (set_out (load object) out'))
  | None => (0, object)
  end.

(** Lines 1156-1176: with a [load] method, attach the start and generate
    functions to [out]; the status and whether they are attached. *)
Definition build_attach (fclass : VipsForeignLoadVtable)
    (object : VipsForeignLoadObject) : Z * bool :=
  if load_defined fclass
  then
    if negb (vips_image_pipeline_out (out (load object)) =? 0) then (-1, false)
    else if negb (vips_image_generate (out (load object)) =? 0) then (-1, false)
    else (0, true)
  else (0, false).

(** Lines 1178-1181: tell downstream if sequential mode was requested. *)
Definition build_mark_sequential (object : VipsForeignLoadObject)
    : VipsForeignLoadObject :=
  if nonrandom object
  then with_load object
         (set_out (load object)
            (vips_image_set (out (load object)) VIPS_META_SEQUENTIAL (GInt 1)))
  else object.

(** The outcome of the build: its status, the object as it leaves it, and
    whether the start and generate functions were attached to the output
    image. *)
Definition vips_foreign_load_build (fclass : VipsForeignLoadVtable)
    (object : VipsForeignLoadObject) : Z * VipsForeignLoadObject * bool :=
  let object := build_prepare fclass object in
  if negb (parent_build object =? 0) then (-1, object, false)
  else
    let object := build_new_out fclass object in
    let (header_status, object) := build_header fclass object in
    if negb (header_status =? 0) then (-1, object, false)
    else
      let (attach_status, attached) := build_attach fclass object in
      if negb (attach_status =? 0) then (-1, object, false)
      else (0, build_mark_sequential object, attached).

(** [parent_flags] is what the [get_flags] of the parent class returns. *)
Definition vips_foreign_load_operation_get_flags (parent_flags : Z)
    (object : VipsForeignLoadObject) : Z :=
  let flags := parent_flags in
  let flags := if nocache object then Z.lor flags VIPS_OPERATION_NOCACHE else flags in
  let flags :=
    if revalidate object then Z.lor flags VIPS_OPERATION_REVALIDATE else flags in
  flags.

End Build.

End LoadBuild.

(** ** Observing a run of start requests *)

Module LoadObserve.

(** How often the record of events shows the handler's [load] method. *)
Definition handler_calls (log : list event) : nat :=
  List.length
    (filter (fun e => match e with
                      | handler_load_called => true
                      | operation_invalidated => false
                      end) log).

(** The load object has settled: it has failed or it has its decoded
    image. *)
Definition settled (load : VipsForeignLoad) : Prop :=
  error load = true \/ real load <> None.

(** The decoded image, once there, has passed the comparison with the
    header-declared image, or the object has failed. *)
Definition checked (out_image : VipsImage) (load : VipsForeignLoad) : Prop :=
  forall r, real load = Some r ->
    error load = true \/ vips_foreign_load_iscompat r out_image = true.

End LoadObserve.
Import LoadObserve.

(** ** Reading the record of applied operations *)

Module Pipeline.

(** The operations of the colour-model stage: unpacking a coded image,
    importing CMYK, and the conversion to the colour model of the saver. *)
Definition is_colour_op (background : Type) (op : Op background) : bool :=
  match op with
  | vips_LabQ2sRGB
  | vips_rad2float
  | vips_icc_import_cmyk_to_xyz
  | vips_colourspace _
  | vips_icc_export_cmyk _ => true
  | _ => false
  end.

(** The saveable mask names a colour model. *)
Definition names_colour_model (saveable : Z) : bool :=
  has_flag saveable VIPS_FOREIGN_SAVEABLE_MONO
  || has_flag saveable VIPS_FOREIGN_SAVEABLE_RGB
  || has_flag saveable VIPS_FOREIGN_SAVEABLE_CMYK.

(** The coding of the image is one the coding mask accepts as it is: the
    test of the first fast path. *)
Definition coding_accepted (in_ : VipsImage) (coding : Z) : bool :=
  (VipsCoding_beq (Coding in_) VIPS_CODING_LABQ
     && has_flag coding VIPS_FOREIGN_CODING_LABQ)
  || (VipsCoding_beq (Coding in_) VIPS_CODING_RAD
     && has_flag coding VIPS_FOREIGN_CODING_RAD).

(** The normaliser returns at one of its two early exits: the coding is
    accepted as it is, or the image is uncoded, the mask is ANY and the
    table leaves the band format alone. *)
Definition skips_normalisation (in_ : VipsImage) (saveable : Z)
    (format : format_table) (coding : Z) : bool :=
  coding_accepted in_ coding
  || (VipsCoding_beq (Coding in_) VIPS_CODING_NONE
      && (saveable =? VIPS_FOREIGN_SAVEABLE_ANY)
      && VipsBandFormat_beq (format (BandFmt in_)) (BandFmt in_)).

Section Stages.
Context `{ImageOps}.

(** The stages of the normaliser that come before the cast: the colour
    model, the flattening of alpha and the trimming of bands. *)
Definition stages_before_cast (in_ : VipsImage) (saveable : Z)
    (background : VipsArrayDouble) : Conv VipsImage :=
  bind (bind (vips_foreign_apply_saveable in_ saveable)
          (flatten_alpha_step saveable background))
    (drop_excess_bands_step saveable).

End Stages.

End Pipeline.
Import Pipeline.

(** ** TIFF save (tiffsave.c, 142-233) *)

From Stdlib Require PrimFloat.

Module TiffSave.
Import PrimFloat.
#[local] Set Warnings "-inexact-float".

(** Modelled from the spec: the compression kinds and the resolution
    units among the format-specific options of the TIFF saver; foreign.h,
    which declares the two enumerations, is not among the sources. *)
Inductive VipsForeignTiffCompression : Type :=
| VIPS_FOREIGN_TIFF_COMPRESSION_NONE
| VIPS_FOREIGN_TIFF_COMPRESSION_JPEG
| VIPS_FOREIGN_TIFF_COMPRESSION_DEFLATE
| VIPS_FOREIGN_TIFF_COMPRESSION_PACKBITS
| VIPS_FOREIGN_TIFF_COMPRESSION_CCITTFAX4
| VIPS_FOREIGN_TIFF_COMPRESSION_LZW
| VIPS_FOREIGN_TIFF_COMPRESSION_WEBP
| VIPS_FOREIGN_TIFF_COMPRESSION_ZSTD
| VIPS_FOREIGN_TIFF_COMPRESSION_JP2K.

Inductive VipsForeignTiffResunit : Type :=
| VIPS_FOREIGN_TIFF_RESUNIT_CM
| VIPS_FOREIGN_TIFF_RESUNIT_INCH.

Scheme Equality for VipsForeignTiffCompression.
Scheme Equality for VipsForeignTiffResunit.

(** Modelled from the spec: the distinguished metadata key of the
    resolution unit (header.h is not among the sources), and
    [vips_image_get_string] of header.c, which succeeds on a field that
    holds a string. *)
Definition VIPS_META_RESOLUTION_UNIT : string := "resolution-unit".

Definition vips_image_get_string (im : VipsImage) (field : string)
    : option string :=
  match meta_lookup (meta im) field with
  | Some (GString s) => Some s
  | _ => None
  end.

Section Tiff.
Context `{ImageOps} `{MetaEnv}.

(** The fields of a [VipsForeignSaveTiff] object; the enumerations the
    build only hands on ([predictor], [region_shrink], [depth]) are their
    integer values, and [double] is the binary64 float. *)
Record VipsForeignSaveTiff : Type := {
  parent_object : VipsForeignSave;
  compression : VipsForeignTiffCompression;
  Q : Z;
  predictor : Z;
  tile : bool;
  tile_width : Z;
  tile_height : Z;
  pyramid : bool;
  squash : bool;
  bitdepth : Z;
  miniswhite : bool;
  resunit : VipsForeignTiffResunit;
  xres : float;
  yres : float;
  bigtiff : bool;
  rgbjpeg : bool;
  properties : bool;
  region_shrink : Z;
  level : Z;
  lossless : bool;
  depth : Z;
  subifd : bool;
  premultiply : bool
}.

Definition set_parent_object (tiff : VipsForeignSaveTiff)
    (save : VipsForeignSave) : VipsForeignSaveTiff :=
  {| parent_object := save; compression := compression tiff; Q := Q tiff;
     predictor := predictor tiff; tile := tile tiff;
     tile_width := tile_width tiff; tile_height := tile_height tiff;
     pyramid := pyramid tiff; squash := squash tiff; bitdepth := bitdepth tiff;
     miniswhite := miniswhite tiff; resunit := resunit tiff; xres := xres tiff;
     yres := yres tiff; bigtiff := bigtiff tiff; rgbjpeg := rgbjpeg tiff;
     properties := properties tiff; region_shrink := region_shrink tiff;
     level := level tiff; lossless := lossless tiff; depth := depth tiff;
     subifd := subifd tiff; premultiply := premultiply tiff |}.

(** One call of [vips__tiff_write_target]: the image, the object whose
    option fields the call hands on as they are (compression, Q,
    predictor, the tiling and pyramid options, miniswhite, bigtiff,
    rgbjpeg, properties, region_shrink, level, lossless, depth, subifd,
    premultiply; its target is not modelled), the profile of the save
    object, and the arguments the build computes. *)
Record TiffWriteCall : Type := {
  written_image : VipsImage;
  written_options : VipsForeignSaveTiff;
  written_profile : option string;
  written_bitdepth : Z;
  written_resunit : VipsForeignTiffResunit;
  written_xres : float;
  written_yres : float;
  written_page_height : Z
}.

(** Outside tiffsave.c: the [Xres] and [Yres] header fields of an image
    (pixels per millimetre), which the image record leaves out; the TIFF
    writer of vips2tiff.c; and [vips_target_end] on the target the writer
    wrote to. *)
Class TiffEnv : Type := {
  image_Xres : VipsImage -> float;
  image_Yres : VipsImage -> float;
  vips__tiff_write_target : TiffWriteCall -> Z;
  vips_target_end : TiffWriteCall -> Z
}.

Context `{TiffEnv}.

(** The saveable mask of the jpeg-in-tiff path. *)
Definition tiff_jpeg_saveable : Z :=
  Z.lor VIPS_FOREIGN_SAVEABLE_MONO
    (Z.lor VIPS_FOREIGN_SAVEABLE_RGB VIPS_FOREIGN_SAVEABLE_CMYK).

(** The image the writer gets: [ready], re-normalised for jpeg-in-tiff. *)
Definition tiff_ready (class : VipsForeignSaveClass)
    (tiff : VipsForeignSaveTiff) (ready : VipsImage) : option VipsImage :=
  if VipsForeignTiffCompression_beq (compression tiff)
       VIPS_FOREIGN_TIFF_COMPRESSION_JPEG
  then
    match vips__foreign_convert_saveable ready tiff_jpeg_saveable bandfmt_jpeg
            (coding class) (background (parent_object tiff)) with
    | Some (x, _) => Some x
    | None => None
    end
  else Some ready.

(** The local [resunit]: the "resunit" field, which metadata that starts
    with "in" overrides when the argument is not set. *)
Definition tiff_local_resunit (tiff : VipsForeignSaveTiff) (ready : VipsImage)
    : VipsForeignTiffResunit :=
  if negb (argument_isset (parent_object tiff) "resunit")
     && vips_image_get_typeof ready VIPS_META_RESOLUTION_UNIT
     && match vips_image_get_string ready VIPS_META_RESOLUTION_UNIT with
        | Some p => vips_isprefix "in" p
        | None => false
        end
  then VIPS_FOREIGN_TIFF_RESUNIT_INCH
  else resunit tiff.

(** The local [xres] and [yres] before scaling. *)
Definition tiff_local_xres (tiff : VipsForeignSaveTiff) (ready : VipsImage)
    : float :=
  if argument_isset (parent_object tiff) "xres" then xres tiff
  else image_Xres ready.

Definition tiff_local_yres (tiff : VipsForeignSaveTiff) (ready : VipsImage)
    : float :=
  if argument_isset (parent_object tiff) "yres" then yres tiff
  else image_Yres ready.

(** The factor of the [if (tiff->resunit == ...INCH)] statement. *)
Definition tiff_resolution_scale (tiff : VipsForeignSaveTiff) : float :=
  if VipsForeignTiffResunit_beq (resunit tiff) VIPS_FOREIGN_TIFF_RESUNIT_INCH
  then 25.4%float
  else 10.0%float.

(** The arguments of the writer call. *)
Definition tiff_write_call (tiff : VipsForeignSaveTiff) (ready : VipsImage)
    : TiffWriteCall :=
  {| written_image := ready;
     written_options := tiff;
     written_profile := profile (parent_object tiff);
     written_bitdepth := if squash tiff then 1 else bitdepth tiff;
     written_resunit := tiff_local_resunit tiff ready;
     written_xres := mul (tiff_local_xres tiff ready) (tiff_resolution_scale tiff);
     written_yres := mul (tiff_local_yres tiff ready) (tiff_resolution_scale tiff);
     written_page_height := page_height (parent_object tiff) |}.

(** The status, the object as the build leaves it and the calls of the
    writer it made.  [parent_build] is the build of the class above
    [VipsForeignSave].  The function reads [save->ready] without a test:
    [None] is the run in which the parent build succeeded and left it
    [NULL]. *)
Definition vips_foreign_save_tiff_build (parent_build : VipsForeignSave -> Z)
    (class : VipsForeignSaveClass) (tiff : VipsForeignSaveTiff)
    : option (Z * VipsForeignSaveTiff * list TiffWriteCall) :=
  let (status, save) :=
    vips_foreign_save_build parent_build class (parent_object tiff) in
  let tiff := set_parent_object tiff save in
  if negb (status =? 0) then Some (-1, tiff, [])
  else
    match ready save with
    | None => None
    | Some ready =>
        match tiff_ready class tiff ready with
        | None => Some (-1, tiff, [])
        | Some ready =>
            let call := tiff_write_call tiff ready in
            if negb (vips__tiff_write_target call =? 0)
            then Some (-1, tiff, [call])
            else if negb (vips_target_end call =? 0)
            then Some (-1, tiff, [call])
            else Some (0, tiff, [call])
        end
    end.

End Tiff.

End TiffSave.

(** ** Scenarios for the finders, the load build and the TIFF saver *)

Module Scenarios.
Import Examples.

(** A source loader that recognises a stream by its first byte, read at
    the current read position, and leaves the position after it. *)
Definition x_source_sniff (source : VipsSource) : bool * VipsSource :=
  (match nth_error (source_data source) (Z.to_nat (read_position source)) with
   | Some b => Byte.eqb b Byte.x58
   | None => false
   end,
   {| source_data := source_data source;
      read_position := read_position source + 1 |}).

Definition x_source_load : VipsForeignLoadMethods :=
  {| load_class :=
       {| load_parent_class :=
            foreign_class "xload_source" "VipsForeignLoadXSource" 0 None;
          is_a := None |};
     is_a_buffer := None;
     is_a_source := Some x_source_sniff |}.

(** A stream that starts with the byte the sniffer looks for, read up to
    its end. *)
Definition consumed_x_source : VipsSource :=
  {| source_data := [Byte.x58; Byte.x00]; read_position := 2 |}.

(** Saver names on lower-case file names, where the case-blind postfix
    test is the postfix test; no class is abstract. *)
Definition lower_case_names : SaverNames :=
  {| vips_iscasepostfix := fun a b => g_str_has_suffix a b;
     G_TYPE_IS_ABSTRACT := fun _ => false |}.

(** A loader environment whose handler decodes the image the header
    declared, and one in which, besides, the pipeline link fails. *)
Definition matching_load_env : LoadEnv := {|
  vips_get_disc_threshold := 100 * 1024 * 1024;
  VIPS_IMAGE_SIZEOF_IMAGE := fun im => Xsize im * Ysize im * Bands im;
  vips_image_new_memory := Some empty_image;
  vips_image_new := Some empty_image;
  vips_image_new_temp_file := fun _ => Some empty_image;
  class_load := fun _ => (0, header_image);
  vips_image_pio_input := fun _ => 0;
  vips_image_pipelinev := fun _ _ => 0;
  vips_region_new := fun im => Some {| region_im := im |}
|}.

Definition unlinkable_load_env : LoadEnv := {|
  vips_get_disc_threshold := 100 * 1024 * 1024;
  VIPS_IMAGE_SIZEOF_IMAGE := fun im => Xsize im * Ysize im * Bands im;
  vips_image_new_memory := Some empty_image;
  vips_image_new := Some empty_image;
  vips_image_new_temp_file := fun _ => Some empty_image;
  class_load := fun _ => (0, header_image);
  vips_image_pio_input := fun _ => 0;
  vips_image_pipelinev := fun _ _ => -1;
  vips_region_new := fun im => Some {| region_im := im |}
|}.

(** A build environment in which every outside call succeeds, a loader
    class that declares sequential read, and load objects opened in
    sequential and in random mode. *)
Definition plain_build_env : LoadBuild.BuildEnv :=
  {| LoadBuild.parent_build := fun _ => 0;
     LoadBuild.new_image := empty_image;
     LoadBuild.vips_image_pipeline_out := fun _ => 0;
     LoadBuild.vips_image_generate := fun _ => 0 |}.

Definition sequential_loader : LoadBuild.VipsForeignLoadVtable :=
  {| LoadBuild.object_nickname := "pngload";
     LoadBuild.get_flags := Some (fun _ => VIPS_FOREIGN_SEQUENTIAL);
     LoadBuild.header := Some (fun _ => (0, header_image));
     LoadBuild.load_defined := true |}.

Definition load_object (a : VipsAccess) : LoadBuild.VipsForeignLoadObject :=
  {| LoadBuild.load :=
       {| out := empty_image; real := None; error := false; memory := false;
          disc := true; flags := 0; access := a |};
     LoadBuild.nocache := false;
     LoadBuild.revalidate := false;
     LoadBuild.fail_on := LoadBuild.VIPS_FAIL_ON_NONE;
     LoadBuild.fail := false;
     LoadBuild.sequential := false;
     LoadBuild.argument_isset := fun _ => false |}.

(** The operations that normalise the five-band image tagged sRGB for a
    saver of RGB without alpha: the colour stage, then one flatten,
    one band extraction and one cast. *)
Definition rgb_five_band_ops : list (Op (list Z)) :=
  [vips_colourspace VIPS_INTERPRETATION_sRGB;
   vips_flatten [0];
   vips_extract_band 0 3;
   vips_cast VIPS_FORMAT_UCHAR false].

(** An image library on images of one sample, kept as the first metadata
    entry: a cast with the shift option on rescales the sample by right
    shift, every other operation is that of the header-level library. *)
Definition sample_of (im : VipsImage) : Z :=
  match meta im with
  | (_, GInt v) :: _ => v
  | _ => 0
  end.

Definition rescale_first (from to : VipsBandFormat)
    (m : list (string * GValue)) : list (string * GValue) :=
  match m with
  | (k, GInt v) :: t => (k, GInt (shift_rescale_sample from to v)) :: t
  | _ => m
  end.

Definition sample_run_op (op : Op (list Z)) (im : VipsImage) : option VipsImage :=
  match op with
  | vips_cast format true =>
      Some (image (Xsize im) (Ysize im) (Bands im) format (Coding im) (Type_ im)
              (rescale_first (BandFmt im) format (meta im)))
  | _ => header_run_op op im
  end.

Definition sample_ops : ImageOps := {|
  VipsArrayDouble := list Z;
  vips_image_guess_interpretation := Type_;
  vips_image_hasalpha := header_hasalpha;
  run_op := sample_run_op
|}.

(** A 16-bit RGB image whose sample is 0x1234, and the image the
    normaliser makes of it for a saver of 8-bit RGB. *)
Definition rgb16_sample_image : VipsImage :=
  image 640 480 3 VIPS_FORMAT_USHORT VIPS_CODING_NONE VIPS_INTERPRETATION_RGB16
    [("sample", GInt 0x1234)].

Definition rgb8_sample_image : VipsImage :=
  image 640 480 3 VIPS_FORMAT_UCHAR VIPS_CODING_NONE VIPS_INTERPRETATION_RGB16
    [("sample", GInt 0x12)].

(** A three-band image that carries a three-byte profile, which fits it,
    and a save object for it with "keep" none and "profile" set. *)
Definition rgb_profile : list Byte.byte := [Byte.x52; Byte.x47; Byte.x42].

Definition rgb_with_rgb_profile : VipsImage :=
  image 640 480 3 VIPS_FORMAT_UCHAR VIPS_CODING_NONE VIPS_INTERPRETATION_sRGB
    [("icc-profile-data", GBlob rgb_profile);
     ("xmp-data", GBlob [Byte.x58])].


(** A save object for a multi-page image of pages 240 lines high, which
    keeps all metadata. *)
Definition save_paged : @VipsForeignSave header_ops :=
  {| in_ := Some rgb_with_rgb_profile; ready := None;
     keep := VIPS_FOREIGN_KEEP_ALL; strip := false;
     background := ([0] : @VipsArrayDouble header_ops); page_height := 240;
     profile := None;
     argument_isset := fun _ => false |}.

(** A save object with the deprecated "strip" set, and one that keeps all
    metadata of an image whose resolution unit is the inch. *)
Definition save_with_strip : @VipsForeignSave header_ops :=
  {| in_ := Some rgb_with_cmyk_profile; ready := None;
     keep := VIPS_FOREIGN_KEEP_ALL; strip := true;
     background := ([0] : @VipsArrayDouble header_ops); page_height := 0;
     profile := None;
     argument_isset := fun arg => String.eqb arg "strip" |}.

Definition inch_image : VipsImage :=
  image 640 480 3 VIPS_FORMAT_USHORT VIPS_CODING_NONE VIPS_INTERPRETATION_RGB16
    [("resolution-unit", GString "in")].

Definition save_inch_image : @VipsForeignSave header_ops :=
  {| in_ := Some inch_image; ready := None;
     keep := VIPS_FOREIGN_KEEP_ALL; strip := false;
     background := ([0] : @VipsArrayDouble header_ops); page_height := 0;
     profile := None;
     argument_isset := fun _ => false |}.

(** A TIFF save object as [vips_foreign_save_tiff_init] leaves it, with
    the compression given: predictor horizontal (2), region shrink mean
    (0) and depth one-tile (1). *)
Definition tiff_object (c : TiffSave.VipsForeignTiffCompression)
    : @TiffSave.VipsForeignSaveTiff header_ops :=
  {| TiffSave.parent_object := save_inch_image;
     TiffSave.compression := c;
     TiffSave.Q := 75;
     TiffSave.predictor := 2;
     TiffSave.tile := false;
     TiffSave.tile_width := 128;
     TiffSave.tile_height := 128;
     TiffSave.pyramid := false;
     TiffSave.squash := false;
     TiffSave.bitdepth := 0;
     TiffSave.miniswhite := false;
     TiffSave.resunit := TiffSave.VIPS_FOREIGN_TIFF_RESUNIT_CM;
     TiffSave.xres := PrimFloat.one;
     TiffSave.yres := PrimFloat.one;
     TiffSave.bigtiff := false;
     TiffSave.rgbjpeg := false;
     TiffSave.properties := false;
     TiffSave.region_shrink := 0;
     TiffSave.level := 0;
     TiffSave.lossless := false;
     TiffSave.depth := 1;
     TiffSave.subifd := false;
     TiffSave.premultiply := false |}.

(** A writer that succeeds on images of one pixel per millimetre. *)
Definition writing_tiff_env : @TiffSave.TiffEnv header_ops :=
  {| TiffSave.image_Xres := fun _ => PrimFloat.one;
     TiffSave.image_Yres := fun _ => PrimFloat.one;
     TiffSave.vips__tiff_write_target := fun _ => 0;
     TiffSave.vips_target_end := fun _ => 0 |}.

End Scenarios.

(* ================================================================== *)
(** * Part 2: properties                                               *)
(* ================================================================== *)

Unset Implicit Arguments.

(** ** The list sort *)

Section SortFacts.
Variable A : Type.
Variable compare_func : A -> A -> Z.

Lemma g_slist_sort_merge_nil_l (l2 : list A) :
  g_slist_sort_merge compare_func [] l2 = l2.
Proof. destruct l2; reflexivity. Qed.

Lemma g_slist_sort_merge_nil_r (l1 : list A) :
  g_slist_sort_merge compare_func l1 [] = l1.
Proof. destruct l1; reflexivity. Qed.

Lemma g_slist_sort_merge_cons (a b : A) (t1 t2 : list A) :
  g_slist_sort_merge compare_func (a :: t1) (b :: t2) =
  if compare_func a b <=? 0
  then a :: g_slist_sort_merge compare_func t1 (b :: t2)
  else b :: g_slist_sort_merge compare_func (a :: t1) t2.
Proof. reflexivity. Qed.

(** Merging loses and invents nothing, whatever the comparison. *)
Lemma g_slist_sort_merge_perm (l1 l2 : list A) :
  Permutation (g_slist_sort_merge compare_func l1 l2) (l1 ++ l2).
Proof.
  revert l2. induction l1 as [|a t1 IH1]; intro l2.
  - rewrite g_slist_sort_merge_nil_l. reflexivity.
  - induction l2 as [|b t2 IH2].
    + rewrite g_slist_sort_merge_nil_r, app_nil_r. reflexivity.
    + rewrite g_slist_sort_merge_cons.
      destruct (compare_func a b <=? 0).
      * simpl. constructor. apply IH1.
      * etransitivity; [constructor; apply IH2|].
        change (Permutation ([b] ++ (a :: t1) ++ t2) ((a :: t1) ++ [b] ++ t2)).
        rewrite !app_assoc. apply Permutation_app_tail, Permutation_app_comm.
Qed.

Lemma g_slist_sort_real_perm (fuel : nat) (l : list A) :
  Permutation (g_slist_sort_real compare_func fuel l) l.
Proof.
  revert l. induction fuel as [|fuel IH]; intro l.
  - destruct l as [|x [|y t]]; reflexivity.
  - destruct l as [|x [|y t]]; try reflexivity.
    cbn [g_slist_sort_real].
    set (k := Nat.div2 (List.length (x :: y :: t))).
    etransitivity; [apply g_slist_sort_merge_perm|].
    rewrite <- (firstn_skipn k (x :: y :: t)) at 3.
    apply Permutation_app; apply IH.
Qed.

Lemma g_slist_sort_perm (l : list A) :
  Permutation (g_slist_sort compare_func l) l.
Proof. apply g_slist_sort_real_perm. Qed.

(** When the comparison orders the items of a list by a key, larger key
    first, the sort is a stable descending sort on that key. *)
Variable key : A -> Z.

Lemma orders_by_key_incl (l l' : list A) :
  incl l' l -> orders_by_key compare_func key l -> orders_by_key compare_func key l'.
Proof. intros Hi Ho a b Ha Hb. apply Ho; apply Hi; assumption. Qed.

Lemma with_key_none (p : Z) (l : list A) :
  Forall (fun x => key x < p) l -> with_key key p l = [].
Proof.
  induction 1 as [|x l Hx _ IH]; [reflexivity|].
  unfold with_key in *. simpl. destruct (Z.eqb_spec (key x) p); [lia|exact IH].
Qed.

Lemma g_slist_sort_merge_descending (l1 l2 : list A) :
  orders_by_key compare_func key (l1 ++ l2) -> descending key l1 -> descending key l2 ->
  descending key (g_slist_sort_merge compare_func l1 l2).
Proof.
  revert l2. induction l1 as [|a t1 IH1]; intros l2 Ho H1 H2.
  - rewrite g_slist_sort_merge_nil_l. exact H2.
  - induction l2 as [|b t2 IH2].
    + rewrite g_slist_sort_merge_nil_r. exact H1.
    + rewrite g_slist_sort_merge_cons.
      assert (Hab : (compare_func a b <=? 0) = (key b <=? key a)).
      { apply Ho; apply in_or_app; [left|right]; left; reflexivity. }
      rewrite Hab.
      inversion H1 as [|? ? H1t H1a]; subst.
      inversion H2 as [|? ? H2t H2b]; subst.
      destruct (Z.leb_spec (key b) (key a)) as [Hle|Hlt].
      * constructor.
        -- apply IH1; [|assumption|assumption].
           eapply orders_by_key_incl; [|exact Ho].
           intros x Hx. right. exact Hx.
        -- eapply Permutation_Forall;
             [symmetry; apply g_slist_sort_merge_perm|].
           apply Forall_app. split; [exact H1a|].
           constructor; [exact Hle|].
           eapply Forall_impl; [|exact H2b]. simpl. intros; lia.
      * constructor.
        -- apply IH2; [|assumption].
           eapply orders_by_key_incl; [|exact Ho].
           intros x Hx. apply in_app_or in Hx. apply in_or_app.
           destruct Hx as [Hx|Hx]; [left; exact Hx|right; right; exact Hx].
        -- eapply Permutation_Forall;
             [symmetry; apply g_slist_sort_merge_perm|].
           apply Forall_app. split; [|exact H2b].
           constructor; [lia|].
           eapply Forall_impl; [|exact H1a]. simpl. intros; lia.
Qed.

Lemma with_key_cons (p : Z) (x : A) (l : list A) :
  with_key key p (x :: l) = if key x =? p then x :: with_key key p l else with_key key p l.
Proof. reflexivity. Qed.

Lemma g_slist_sort_merge_with_key (p : Z) (l1 l2 : list A) :
  orders_by_key compare_func key (l1 ++ l2) -> descending key l1 ->
  with_key key p (g_slist_sort_merge compare_func l1 l2) =
  with_key key p l1 ++ with_key key p l2.
Proof.
  revert l2. induction l1 as [|a t1 IH1]; intros l2 Ho H1.
  - rewrite g_slist_sort_merge_nil_l. reflexivity.
  - induction l2 as [|b t2 IH2].
    + rewrite g_slist_sort_merge_nil_r.
      change (with_key key p []) with (@nil A). rewrite app_nil_r. reflexivity.
    + rewrite g_slist_sort_merge_cons.
      assert (Hab : (compare_func a b <=? 0) = (key b <=? key a)).
      { apply Ho; apply in_or_app; [left|right]; left; reflexivity. }
      rewrite Hab.
      inversion H1 as [|? ? H1t H1a]; subst.
      destruct (Z.leb_spec (key b) (key a)) as [Hle|Hlt].
      * rewrite (with_key_cons p a (g_slist_sort_merge _ _ _)).
        rewrite IH1; [|eapply orders_by_key_incl; [|exact Ho];
                        intros x Hx; right; exact Hx|assumption].
        rewrite (with_key_cons p a t1).
        destruct (key a =? p); reflexivity.
      * rewrite (with_key_cons p b (g_slist_sort_merge _ _ _)).
        rewrite IH2.
        2:{ eapply orders_by_key_incl; [|exact Ho].
            intros x Hx. apply in_app_or in Hx. apply in_or_app.
            destruct Hx as [Hx|Hx]; [left; exact Hx|right; right; exact Hx]. }
        rewrite (with_key_cons p b t2).
        destruct (Z.eqb_spec (key b) p) as [Hp|Hp]; [|reflexivity].
        assert (Hnone : with_key key p (a :: t1) = []).
        { apply with_key_none. constructor; [lia|].
          eapply Forall_impl; [|exact H1a]. simpl. intros; lia. }
        rewrite Hnone. reflexivity.
Qed.

Lemma with_key_app (p : Z) (l1 l2 : list A) :
  with_key key p (l1 ++ l2) = with_key key p l1 ++ with_key key p l2.
Proof. apply filter_app. Qed.

Lemma g_slist_sort_real_stable (fuel : nat) (l : list A) :
  (List.length l <= S fuel)%nat -> orders_by_key compare_func key l ->
  descending key (g_slist_sort_real compare_func fuel l) /\
  forall p, with_key key p (g_slist_sort_real compare_func fuel l) = with_key key p l.
Proof.
  revert l. induction fuel as [|fuel IH]; intros l Hlen Ho.
  - destruct l as [|x [|y t]]; simpl in Hlen; try lia; simpl.
    + split; [constructor|reflexivity].
    + split; [repeat constructor|reflexivity].
  - destruct l as [|x [|y t]].
    + split; [constructor|reflexivity].
    + split; [repeat constructor|reflexivity].
    + cbn [g_slist_sort_real].
      set (l := x :: y :: t) in *.
      set (k := Nat.div2 (List.length l)).
      assert (Hk : (1 <= k /\ k < List.length l)%nat).
      { unfold k. rewrite Nat.div2_div. subst l. simpl List.length.
        pose proof (Nat.div_mod_eq (S (S (List.length t))) 2).
        pose proof (Nat.mod_upper_bound (S (S (List.length t))) 2).
        lia. }
      assert (Hl : l = firstn k l ++ skipn k l) by (symmetry; apply firstn_skipn).
      assert (Hi1 : incl (firstn k l) l).
      { intros z Hz. rewrite Hl. apply in_or_app. left. exact Hz. }
      assert (Hi2 : incl (skipn k l) l).
      { intros z Hz. rewrite Hl. apply in_or_app. right. exact Hz. }
      destruct (IH (firstn k l)) as [Hd1 Hs1].
      { rewrite length_firstn. lia. }
      { eapply orders_by_key_incl; eassumption. }
      destruct (IH (skipn k l)) as [Hd2 Hs2].
      { rewrite length_skipn. lia. }
      { eapply orders_by_key_incl; eassumption. }
      assert (Hom : orders_by_key compare_func key
                (g_slist_sort_real compare_func fuel (firstn k l) ++
                 g_slist_sort_real compare_func fuel (skipn k l))).
      { eapply orders_by_key_incl; [|exact Ho].
        intros z Hz. apply in_app_or in Hz. destruct Hz as [Hz|Hz].
        - apply Hi1. eapply Permutation_in; [apply g_slist_sort_real_perm|exact Hz].
        - apply Hi2. eapply Permutation_in; [apply g_slist_sort_real_perm|exact Hz]. }
      split.
      * apply g_slist_sort_merge_descending; assumption.
      * intro p. rewrite g_slist_sort_merge_with_key by assumption.
        rewrite Hs1, Hs2, <- with_key_app, <- Hl. reflexivity.
Qed.

Lemma g_slist_sort_stable (l : list A) :
  orders_by_key compare_func key l ->
  descending key (g_slist_sort compare_func l) /\
  forall p, with_key key p (g_slist_sort compare_func l) = with_key key p l.
Proof. intro Ho. apply g_slist_sort_real_stable; [lia|exact Ho]. Qed.

End SortFacts.

(** ** The registry: which classes are iterated, and in which order *)

Section RegistryFacts.
Context {C : Type} `{ForeignSubclass C}.

Lemma file_add_class_fold (classes acc : list C) :
  fold_left (fun files class => file_add_class class files) classes acc =
  acc ++ filter file_add_class_keeps classes.
Proof.
  revert acc. induction classes as [|c cs IH]; intro acc; simpl.
  - rewrite app_nil_r. reflexivity.
  - rewrite IH. unfold file_add_class, file_add_class_keeps, g_slist_append.
    destruct (has_flag _ _); simpl; [reflexivity|].
    destruct (vips_isprefix _ _); simpl; [reflexivity|].
    rewrite <- app_assoc. reflexivity.
Qed.

Lemma vips_foreign_map_files_eq (classes : list C) :
  vips_foreign_map_files classes =
  g_slist_sort file_compare (filter file_add_class_keeps classes).
Proof.
  unfold vips_foreign_map_files. rewrite file_add_class_fold. reflexivity.
Qed.

Lemma vips_foreign_map_files_perm (classes : list C) :
  Permutation (vips_foreign_map_files classes)
              (filter file_add_class_keeps classes).
Proof. rewrite vips_foreign_map_files_eq. apply g_slist_sort_perm. Qed.

Lemma vips_foreign_map_files_In (classes : list C) (c : C) :
  In c (vips_foreign_map_files classes) <->
  In c classes /\ file_add_class_keeps c = true.
Proof.
  rewrite <- filter_In. split; intro Hin.
  - eapply Permutation_in; [apply vips_foreign_map_files_perm|exact Hin].
  - eapply Permutation_in;
      [symmetry; apply vips_foreign_map_files_perm|exact Hin].
Qed.

Lemma int_wrap_id (z : Z) : is_int z -> int_wrap z = z.
Proof.
  unfold is_int, INT_MIN, INT_MAX, int_wrap. intro Hz.
  rewrite Z.mod_small; lia.
Qed.

(** Away from [int] overflow of the priority difference the iteration
    order is a stable descending sort by priority: the iterated list is in
    descending priority order and, for each priority, holds the classes of
    that priority in their registration order. *)
Lemma vips_foreign_map_files_stable_descending (classes : list C) :
  (forall a b, In a classes -> In b classes ->
     is_int (priority (VIPS_FOREIGN_CLASS b) - priority (VIPS_FOREIGN_CLASS a))) ->
  descending (fun c => priority (VIPS_FOREIGN_CLASS c))
    (vips_foreign_map_files classes) /\
  forall p,
    with_key (fun c => priority (VIPS_FOREIGN_CLASS c)) p
      (vips_foreign_map_files classes) =
    with_key (fun c => priority (VIPS_FOREIGN_CLASS c)) p
      (filter file_add_class_keeps classes).
Proof.
  intro Hint. rewrite vips_foreign_map_files_eq.
  apply g_slist_sort_stable.
  intros a b Ha Hb. apply filter_In in Ha, Hb.
  unfold file_compare. rewrite int_wrap_id by (apply Hint; tauto).
  destruct (Z.leb_spec (priority (VIPS_FOREIGN_CLASS b) - priority (VIPS_FOREIGN_CLASS a)) 0),
           (Z.leb_spec (priority (VIPS_FOREIGN_CLASS b)) (priority (VIPS_FOREIGN_CLASS a)));
    try reflexivity; lia.
Qed.

End RegistryFacts.

(** C5.  Discovery is meant to iterate the handlers in a stable descending
    sort by priority, so that a handler of strictly higher priority is
    always visited first.  [file_compare] orders by the [int] difference
    of the priorities, which overflows for priorities far apart: a handler
    of the largest [int] priority registered before one of priority [-100]
    is iterated after it. *)
Theorem file_compare_overflow_reverses_priority_order :
  vips_foreign_map_files
    [Examples.top_priority_class; Examples.low_priority_class] =
  [Examples.low_priority_class; Examples.top_priority_class]
  /\ priority Examples.low_priority_class < priority Examples.top_priority_class
  /\ is_int (priority Examples.low_priority_class)
  /\ is_int (priority Examples.top_priority_class).
Proof.
  split; [vm_compute; reflexivity|].
  unfold is_int, INT_MIN, INT_MAX. simpl. lia.
Qed.

(** Priorities 10 and 5, registered in either order: the priority-10
    handler is iterated first. *)
Example ten_before_five :
  vips_foreign_map_files [Examples.ten_class; Examples.five_class] =
    [Examples.ten_class; Examples.five_class]
  /\ vips_foreign_map_files [Examples.five_class; Examples.ten_class] =
    [Examples.ten_class; Examples.five_class].
Proof. split; vm_compute; reflexivity. Qed.

(** ** Loader discovery *)

Section DiscoveryFacts.
Context `{FileSystem}.

(** A loader is accepted only as itself. *)
Lemma vips_foreign_find_load_sub_some (c r : VipsForeignLoadClass) (filename : string) :
  vips_foreign_find_load_sub c filename = Some r -> r = c.
Proof.
  unfold vips_foreign_find_load_sub.
  destruct (_ || _); [discriminate|].
  destruct (is_a c) as [sniff|].
  - destruct (sniff filename); congruence.
  - destruct (suffs _) as [ss|]; [|discriminate].
    destruct (vips_filename_suffix_match filename ss); congruence.
Qed.

(** A loader with a sniffer is accepted by its sniffer alone, never by its
    suffix list. *)
Lemma vips_foreign_find_load_sub_sniffer (c : VipsForeignLoadClass) (filename : string) :
  suffix_only c = false ->
  vips_foreign_find_load_sub c filename =
  if is_file_loader c && sniff_matches c filename then Some c else None.
Proof.
  unfold suffix_only, vips_foreign_find_load_sub, is_file_loader, sniff_matches.
  destruct (is_a c) as [sniff|]; [intros _|discriminate].
  destruct (_ || _); simpl; [reflexivity|].
  destruct (sniff filename); reflexivity.
Qed.

(** The search accepts the first loader of the iterated list that accepts
    the file: with a sniff-matching file loader in the list and no
    suffix-only loader accepting the file before it, the loader found is
    sniff-matching. *)
Lemma vips_slist_map2_first_sniffer (filename : string)
    (pre post : list VipsForeignLoadClass) (c : VipsForeignLoadClass) :
  is_file_loader c = true ->
  sniff_matches c filename = true ->
  (forall d, In d pre -> suffix_only d = true ->
     vips_foreign_find_load_sub d filename = None) ->
  exists c', In c' (pre ++ c :: post) /\ sniff_matches c' filename = true /\
    fst (vips_slist_map2 (pre ++ c :: post)
           (fun c (b : unit) => (vips_foreign_find_load_sub c filename, b)) tt)
    = Some c'.
Proof.
  intros Hfile Hsniff. induction pre as [|d pre IH]; intro Hpre.
  - exists c. simpl. split; [left; reflexivity|]. split; [exact Hsniff|].
    rewrite vips_foreign_find_load_sub_sniffer.
    + rewrite Hfile, Hsniff. reflexivity.
    + unfold suffix_only. unfold sniff_matches in Hsniff.
      destruct (is_a c); [reflexivity|discriminate].
  - simpl. destruct (vips_foreign_find_load_sub d filename) as [r|] eqn:Hd.
    + pose proof (vips_foreign_find_load_sub_some _ _ _ Hd) as ->.
      exists d. split; [left; reflexivity|]. split; [|reflexivity].
      destruct (suffix_only d) eqn:Hso.
      * rewrite (Hpre d) in Hd by (auto using in_eq). discriminate.
      * rewrite vips_foreign_find_load_sub_sniffer in Hd by exact Hso.
        destruct (is_file_loader d); simpl in Hd; [|discriminate].
        destruct (sniff_matches d filename); [reflexivity|discriminate].
    + destruct IH as (c' & Hin & Hm & Hres).
      { intros e He. apply Hpre. right. exact He. }
      exists c'. split; [right; exact Hin|]. split; assumption.
Qed.

(** C1, as the code has it.  For an existing file that is not a directory,
    if the iterated list holds a file loader whose sniffer accepts the
    file and no suffix-only loader iterated before it accepts the file
    name, [vips_foreign_find_load] resolves to a registered loader whose
    sniffer accepts the file. *)
Theorem find_load_resolves_to_sniffer_unless_suffix_only_first
    (classes pre post : list VipsForeignLoadClass) (c : VipsForeignLoadClass)
    (name filename option_string : string) :
  vips__filename_split8 name = (filename, option_string) ->
  vips_existsf filename = true ->
  vips_isdirf filename = false ->
  vips_foreign_map_files classes = pre ++ c :: post ->
  is_file_loader c = true ->
  sniff_matches c filename = true ->
  (forall d, In d pre -> suffix_only d = true ->
     vips_foreign_find_load_sub d filename = None) ->
  exists c', In c' classes /\ sniff_matches c' filename = true /\
    vips_foreign_find_load classes name = Ok (class_name (VIPS_FOREIGN_CLASS c')).
Proof.
  intros Hsplit Hex Hdir Hfiles Hfile Hsniff Hpre.
  destruct (vips_slist_map2_first_sniffer filename pre post c Hfile Hsniff Hpre)
    as (c' & Hin & Hm & Hres).
  exists c'. split.
  - rewrite <- Hfiles in Hin. apply vips_foreign_map_files_In in Hin. tauto.
  - split; [exact Hm|].
    unfold vips_foreign_find_load, vips_foreign_map.
    rewrite Hsplit, Hex, Hdir, Hfiles, Hres. reflexivity.
Qed.

End DiscoveryFacts.

Lemma find_load_resolves_to_sniffer_witness :
  exists c', In c' [Examples.sniffing_x_load; Examples.suffix_csv_load] /\
    sniff_matches c' "fake.tif" = true /\
    @vips_foreign_find_load Examples.one_file_fs
      [Examples.sniffing_x_load; Examples.suffix_csv_load] "fake.tif"
    = Ok (class_name (VIPS_FOREIGN_CLASS c')).
Proof.
  apply (@find_load_resolves_to_sniffer_unless_suffix_only_first
           Examples.one_file_fs
           [Examples.sniffing_x_load; Examples.suffix_csv_load]
           [Examples.suffix_csv_load] [] Examples.sniffing_x_load
           "fake.tif" "fake.tif" "").
  - reflexivity.
  - reflexivity.
  - reflexivity.
  - vm_compute. reflexivity.
  - reflexivity.
  - reflexivity.
  - intros d [<-|[]] _. vm_compute. reflexivity.
Defined.

(** The claim as the specification words it fails: "fake.tif" holds bytes
    that the sniffer of a registered loader accepts, and discovery
    resolves it to the suffix-only ".tif" loader of higher priority, which
    is iterated first. *)
Lemma find_load_prefers_earlier_suffix_only_loader :
  In Examples.sniffing_x_load [Examples.sniffing_x_load; Examples.suffix_tiff_load]
  /\ is_file_loader Examples.sniffing_x_load = true
  /\ sniff_matches Examples.sniffing_x_load "fake.tif" = true
  /\ suffix_only Examples.suffix_tiff_load = true
  /\ @vips_foreign_find_load Examples.one_file_fs
       [Examples.sniffing_x_load; Examples.suffix_tiff_load] "fake.tif"
     = Ok "VipsForeignLoadTiff"
  /\ ~ (exists c', In c' [Examples.sniffing_x_load; Examples.suffix_tiff_load] /\
          sniff_matches c' "fake.tif" = true /\
          @vips_foreign_find_load Examples.one_file_fs
            [Examples.sniffing_x_load; Examples.suffix_tiff_load] "fake.tif"
          = Ok (class_name (VIPS_FOREIGN_CLASS c'))).
Proof.
  split; [left; reflexivity|].
  split; [reflexivity|]. split; [reflexivity|]. split; [reflexivity|].
  split; [vm_compute; reflexivity|].
  intros (c' & Hin & Hm & Hres).
  destruct Hin as [<-|[<-|[]]].
  - vm_compute in Hres. discriminate.
  - vm_compute in Hm. discriminate.
Qed.

(** ** The suffix query *)

Section SuffixFacts.
Context {C : Type} `{ForeignSubclass C}.

Lemma count_cb_fold (ss : list string) (n : Z) :
  0 <= n -> n + Z.of_nat (List.length ss) <= INT_MAX ->
  fold_left (fun n (_ : string) => int_wrap (n + 1)) ss n =
  n + Z.of_nat (List.length ss).
Proof.
  revert n. induction ss as [|s ss IH]; intros n Hn Hmax.
  - simpl. lia.
  - cbn [fold_left]. cbn [List.length] in *.
    rewrite int_wrap_id by (unfold is_int, INT_MIN, INT_MAX in *; lia).
    rewrite IH by lia. lia.
Qed.

Lemma count_pass (l : list C) (n : Z) :
  0 <= n ->
  n + Z.of_nat (List.length (flat_map class_suffixes l)) <= INT_MAX ->
  snd (vips_slist_map2 l vips_foreign_get_suffixes_count_cb n) =
  n + Z.of_nat (List.length (flat_map class_suffixes l)).
Proof.
  revert n. induction l as [|c l IH]; intros n Hn Hmax.
  - simpl. lia.
  - cbn [vips_slist_map2 flat_map] in *. rewrite length_app in Hmax.
    unfold vips_foreign_get_suffixes_count_cb at 1.
    unfold class_suffixes at 1. unfold class_suffixes at 1 in Hmax.
    destruct (suffs (VIPS_FOREIGN_CLASS c)) as [ss|].
    + rewrite count_cb_fold by lia. rewrite IH by lia.
      rewrite length_app. lia.
    + simpl in *. apply IH; lia.
Qed.

Lemma array_store_at (xs rest : list (option string)) (y v : option string) :
  array_store (xs ++ y :: rest) (List.length xs) v = xs ++ v :: rest.
Proof. induction xs as [|x xs IH]; simpl; [reflexivity|]. rewrite IH. reflexivity. Qed.

Lemma add_cb_fold (ss done : list string) (k : nat) :
  (List.length ss <= k)%nat ->
  fold_left (fun '(arr, p) s => (array_store arr p (Some s), S p)) ss
    (map Some done ++ repeat None k, List.length done) =
  (map Some (done ++ ss) ++ repeat None (k - List.length ss),
   List.length (done ++ ss)).
Proof.
  revert done k. induction ss as [|s ss IH]; intros done k Hk.
  - simpl. rewrite app_nil_r, Nat.sub_0_r. reflexivity.
  - destruct k as [|k]; [simpl in Hk; lia|].
    cbn [fold_left repeat].
    rewrite <- (length_map Some done) at 1. rewrite array_store_at.
    replace (map Some done ++ Some s :: repeat None k)
      with (map Some (done ++ [s]) ++ repeat (@None string) k)
      by (rewrite map_app, <- app_assoc; reflexivity).
    replace (S (List.length done)) with (List.length (done ++ [s]))
      by (rewrite length_app; simpl; lia).
    rewrite IH by (simpl in Hk; lia).
    rewrite <- app_assoc. reflexivity.
Qed.

Lemma add_pass (l : list C) (done : list string) (k : nat) :
  (List.length (flat_map class_suffixes l) <= k)%nat ->
  snd (vips_slist_map2 l vips_foreign_get_suffixes_add_cb
         (map Some done ++ repeat None k, List.length done)) =
  (map Some (done ++ flat_map class_suffixes l)
     ++ repeat None (k - List.length (flat_map class_suffixes l)),
   List.length (done ++ flat_map class_suffixes l)).
Proof.
  revert done k. induction l as [|c l IH]; intros done k Hk.
  - simpl. rewrite app_nil_r, Nat.sub_0_r. reflexivity.
  - cbn [vips_slist_map2 flat_map] in *. rewrite length_app in Hk.
    unfold vips_foreign_get_suffixes_add_cb at 1.
    unfold class_suffixes at 1 3 5. unfold class_suffixes at 1 in Hk.
    destruct (suffs (VIPS_FOREIGN_CLASS c)) as [ss|].
    + rewrite add_cb_fold by lia. rewrite IH by lia.
      rewrite <- !app_assoc.
      repeat (f_equal; try (rewrite ?length_app; lia)).
    + simpl in *. apply IH. lia.
Qed.

Lemma strv_terminated (xs : list string) (k : nat) :
  strv (map Some xs ++ repeat None k) = xs.
Proof.
  induction xs as [|x xs IH]; simpl.
  - destruct k; reflexivity.
  - rewrite IH. reflexivity.
Qed.

Lemma flat_map_suffixes_length (l l' : list C) :
  Permutation l l' ->
  List.length (flat_map class_suffixes l) = List.length (flat_map class_suffixes l').
Proof.
  intro Hp. apply Permutation_length, Permutation_flat_map. exact Hp.
Qed.

(** C8, as the code has it.  With fewer than [INT_MAX] suffix entries
    among the iterated savers, the suffix query returns the suffix lists
    of the iterated savers (the registered ones that are not blocked), one
    after the other in iteration order; so a string is in the result
    exactly when some such saver lists it, and it is there once for each
    listing. *)
Theorem get_suffixes_concatenates_saver_suffix_lists (classes : list C) :
  Z.of_nat (List.length
              (flat_map class_suffixes (filter file_add_class_keeps classes)))
    < INT_MAX ->
  vips_foreign_get_suffixes classes =
    flat_map class_suffixes (vips_foreign_map_files classes)
  /\ forall s, In s (vips_foreign_get_suffixes classes) <->
       exists c, In c classes /\ file_add_class_keeps c = true /\
                 In s (class_suffixes c).
Proof.
  intro Hmax.
  rewrite (flat_map_suffixes_length _ _
             (Permutation_sym (vips_foreign_map_files_perm classes))) in Hmax.
  assert (Heq : vips_foreign_get_suffixes classes =
                flat_map class_suffixes (vips_foreign_map_files classes)).
  { unfold vips_foreign_get_suffixes, vips_foreign_map.
    rewrite count_pass by lia. 
    set (n := List.length (flat_map class_suffixes (vips_foreign_map_files classes))) in *.
    unfold g_new0.
    replace (Z.to_nat (0 + Z.of_nat n + 1)) with (S n) by lia.
    pose proof (add_pass (vips_foreign_map_files classes) [] (S n)) as Hadd.
    cbn [map app List.length] in Hadd. fold n in Hadd.
    destruct (snd (vips_slist_map2 _ vips_foreign_get_suffixes_add_cb _))
      as [arr p] eqn:Hsnd.
    specialize (Hadd ltac:(lia)). injection Hadd as -> _.
    apply strv_terminated. }
  split; [exact Heq|].
  intro s. rewrite Heq, in_flat_map. split.
  - intros (c & Hc & Hs). exists c.
    apply vips_foreign_map_files_In in Hc. tauto.
  - intros (c & Hc & Hk & Hs). exists c. split; [|exact Hs].
    apply vips_foreign_map_files_In. tauto.
Qed.

End SuffixFacts.

Lemma get_suffixes_concatenates_witness :
  vips_foreign_get_suffixes [Examples.ten_class; Examples.tiff_save] =
    flat_map class_suffixes
      (vips_foreign_map_files [Examples.ten_class; Examples.tiff_save])
  /\ forall s, In s (vips_foreign_get_suffixes [Examples.ten_class; Examples.tiff_save]) <->
       exists c, In c [Examples.ten_class; Examples.tiff_save] /\
                 file_add_class_keeps c = true /\ In s (class_suffixes c).
Proof.
  apply (@get_suffixes_concatenates_saver_suffix_lists _ _
           [Examples.ten_class; Examples.tiff_save]).
  vm_compute. reflexivity.
Defined.

(** The claim as the specification words it fails: the file saver and the
    buffer saver of one format share their suffix list, and the query
    returns every suffix of the list twice. *)
Lemma get_suffixes_repeats_shared_suffixes :
  vips_foreign_get_suffixes [Examples.tiff_save; Examples.tiff_save_buffer] =
    [".tif"; ".tiff"; ".tif"; ".tiff"]
  /\ ~ NoDup (vips_foreign_get_suffixes [Examples.tiff_save; Examples.tiff_save_buffer]).
Proof.
  split; [vm_compute; reflexivity|].
  intro Hnd. vm_compute in Hnd.
  inversion Hnd as [|? ? Hnotin _]; subst.
  apply Hnotin. right. left. reflexivity.
Qed.

(** ** The load pipeline *)

Lemma has_flag_testbit (mask : Z) (k : Z) :
  0 <= k -> has_flag mask (2 ^ k) = Z.testbit mask k.
Proof.
  intro Hk. unfold has_flag.
  assert (Hland : Z.land mask (2 ^ k) = if Z.testbit mask k then 2 ^ k else 0).
  { apply Z.bits_inj'. intros n Hn. rewrite Z.land_spec, Z.pow2_bits_eqb by lia.
    destruct (Z.eqb_spec k n) as [->|Hne].
    - rewrite andb_true_r. destruct (Z.testbit mask n) eqn:Hb.
      + rewrite Z.pow2_bits_true by lia. reflexivity.
      + rewrite Z.bits_0. reflexivity.
    - rewrite andb_false_r. destruct (Z.testbit mask k).
      + rewrite Z.pow2_bits_false by lia. reflexivity.
      + rewrite Z.bits_0. reflexivity. }
  rewrite Hland. destruct (Z.testbit mask k).
  - assert (0 < 2 ^ k) by (apply Z.pow_pos_nonneg; lia).
    destruct (Z.eqb_spec (2 ^ k) 0); [lia|reflexivity].
  - reflexivity.
Qed.

Section LoadFacts.
Context `{LoadEnv}.

(** C4.  The image constructor that [vips_foreign_load_temp] calls is the
    one the decision order names: memory if the memory flag is set or disc
    was forced off; else a direct image if the partial bit (bit 0) of the
    flags is set; else a direct image if the sequential bit (bit 2) is set
    and the requested access is not random; else a temporary file if the
    image size exceeds the disc threshold; else memory. *)
Theorem load_temp_follows_decision_order (load : VipsForeignLoad) :
  fst (vips_foreign_load_temp load) =
  backing_store_image
    (backing_store_decision
       (memory load)
       (negb (disc load))
       (Z.testbit (flags load) 0)
       (Z.testbit (flags load) 2)
       (negb (VipsAccess_beq (access load) VIPS_ACCESS_RANDOM))
       (VIPS_IMAGE_SIZEOF_IMAGE (out load) >? vips_get_disc_threshold)).
Proof.
  rewrite <- (has_flag_testbit (flags load) 0), <- (has_flag_testbit (flags load) 2)
    by lia.
  change (2 ^ 0) with VIPS_FOREIGN_PARTIAL.
  change (2 ^ 2) with VIPS_FOREIGN_SEQUENTIAL.
  unfold vips_foreign_load_temp, backing_store_decision, backing_store_image.
  destruct load as [o r e m d f a].
  destruct d, m; cbn [disc memory flags access out set_memory negb orb fst];
    try reflexivity;
    generalize (has_flag f VIPS_FOREIGN_PARTIAL) as partial;
    generalize (has_flag f VIPS_FOREIGN_SEQUENTIAL) as sequential;
    generalize (VipsAccess_beq a VIPS_ACCESS_RANDOM) as random;
    generalize (VIPS_IMAGE_SIZEOF_IMAGE o >? vips_get_disc_threshold) as big;
    intros big random sequential partial;
    destruct partial, sequential, random, big; reflexivity.
Qed.

Lemma vips_foreign_load_temp_keeps_error (load : VipsForeignLoad) :
  error (snd (vips_foreign_load_temp load)) = error load.
Proof.
  unfold vips_foreign_load_temp.
  destruct load as [o r e m d f a]; simpl.
  destruct d, m; simpl; try reflexivity;
    repeat (match goal with |- context [if ?b then _ else _] => destruct b end;
            simpl; try reflexivity).
Qed.

Lemma vips_foreign_load_iscompat_false (decoded declared : VipsImage) :
  header_mismatch decoded declared ->
  vips_foreign_load_iscompat decoded declared = false.
Proof.
  unfold header_mismatch, vips_foreign_load_iscompat. intro Hm.
  destruct (Z.eqb_spec (Xsize decoded) (Xsize declared)); [|reflexivity].
  destruct (Z.eqb_spec (Ysize decoded) (Ysize declared)); [|reflexivity].
  destruct (Z.eqb_spec (Bands decoded) (Bands declared)); [|reflexivity].
  destruct (VipsCoding_beq (Coding decoded) (Coding declared)) eqn:Hc;
    [|reflexivity].
  destruct (VipsBandFormat_beq (BandFmt decoded) (BandFmt declared)) eqn:Hf;
    [|reflexivity].
  exfalso.
  assert (Coding decoded = Coding declared)
    by (destruct (Coding decoded), (Coding declared); (reflexivity || discriminate)).
  assert (BandFmt decoded = BandFmt declared)
    by (destruct (BandFmt decoded), (BandFmt declared); (reflexivity || discriminate)).
  tauto.
Qed.

(** Once the error flag is set a start request fails at once and leaves
    the state, with its record of handler calls, as it was. *)
Lemma vips_foreign_load_start_after_error (out_image : VipsImage) (st : LoadState) :
  error (fst st) = true ->
  vips_foreign_load_start out_image st = (None, st).
Proof.
  destruct st as [load log]. simpl. intros ->. reflexivity.
Qed.

Lemma start_requests_after_error (n : nat) (out_image : VipsImage) (st : LoadState) :
  error (fst st) = true ->
  start_requests n out_image st = (repeat None n, st).
Proof.
  intro He. induction n as [|n IH]; [reflexivity|].
  cbn [start_requests repeat].
  rewrite vips_foreign_load_start_after_error by exact He.
  rewrite IH. reflexivity.
Qed.

(** C2.  A lazy decode attempt (no error yet, no decoded image yet, the
    backing image allocated) in which the handler's [load] returns an
    error or decodes an image that disagrees with the header-declared one
    in width, height, bands, coding or band format: the start request
    fails, the handler has been called once, the operation is invalidated
    and the error flag is set; and any number of further start requests on
    that state all fail and leave the state, handler calls included,
    unchanged. *)
Theorem failed_decode_is_permanent (out_image : VipsImage)
    (load load1 : VipsForeignLoad) (log : list event) (r : VipsImage) :
  error load = false ->
  real load = None ->
  vips_foreign_load_temp load = (Some r, load1) ->
  fst (class_load (set_real load1 (Some r))) <> 0
  \/ header_mismatch (snd (class_load (set_real load1 (Some r)))) out_image ->
  exists st',
    vips_foreign_load_start out_image (load, log) = (None, st')
    /\ error (fst st') = true
    /\ snd st' = log ++ [handler_load_called; operation_invalidated]
    /\ forall n, start_requests n out_image st' = (repeat None n, st').
Proof.
  intros Herr Hreal Htemp Hfail.
  unfold vips_foreign_load_start. rewrite Herr, Hreal, Htemp.
  destruct (class_load (set_real load1 (Some r))) as [status r'] eqn:Hload.
  simpl in Hfail.
  assert (Hcond : negb (status =? 0)
                  || negb (vips_image_pio_input r' =? 0)
                  || negb (vips_foreign_load_iscompat r' out_image) = true).
  { destruct Hfail as [Hs|Hm].
    - destruct (Z.eqb_spec status 0); [contradiction|reflexivity].
    - rewrite (vips_foreign_load_iscompat_false _ _ Hm).
      rewrite !orb_true_r. reflexivity. }
  rewrite Hcond. eexists. split; [reflexivity|].
  split; [reflexivity|]. split.
  - simpl. rewrite <- app_assoc. reflexivity.
  - intro n. apply start_requests_after_error. reflexivity.
Qed.

End LoadFacts.

Lemma failed_decode_is_permanent_witness :
  exists st',
    @vips_foreign_load_start Examples.mismatching_load_env
      Examples.header_image (Examples.fresh_load, []) = (None, st')
    /\ error (fst st') = true
    /\ snd st' = [] ++ [handler_load_called; operation_invalidated]
    /\ forall n,
         @start_requests Examples.mismatching_load_env n Examples.header_image st'
         = (repeat None n, st').
Proof.
  apply (@failed_decode_is_permanent Examples.mismatching_load_env
           Examples.header_image Examples.fresh_load Examples.fresh_load []
           Examples.empty_image).
  - reflexivity.
  - reflexivity.
  - reflexivity.
  - right. right. right. left. simpl. discriminate.
Defined.

(** ** The saveable normaliser *)

Lemma VipsCoding_beq_eq (a b : VipsCoding) :
  VipsCoding_beq a b = true <-> a = b.
Proof. destruct a, b; simpl; split; (reflexivity || discriminate). Qed.

Lemma VipsBandFormat_beq_eq (a b : VipsBandFormat) :
  VipsBandFormat_beq a b = true <-> a = b.
Proof. destruct a, b; simpl; split; (reflexivity || discriminate). Qed.

Lemma needs_shift_by_width (format : format_table) (in_ : VipsImage) :
  needs_shift format in_ =
  (8 <? band_format_bits (BandFmt in_))
  && (band_format_bits (format (BandFmt in_)) =? 8).
Proof.
  unfold needs_shift.
  destruct (BandFmt in_); destruct (format _); reflexivity.
Qed.

Section NormalizerFacts.
Context `{ImageOps}.

(** C3.  The normaliser returns its input and applies no operation when
    the input is packed Lab or radiance coded and the coding mask accepts
    that coding, or when the input is uncoded, the saveable mask is ANY
    and the format table maps the input's band format to itself. *)
Theorem convert_saveable_is_identity_when_acceptable
    (in_ : VipsImage) (saveable : Z) (format : format_table) (coding : Z)
    (background : VipsArrayDouble) :
  (Coding in_ = VIPS_CODING_LABQ /\ has_flag coding VIPS_FOREIGN_CODING_LABQ = true)
  \/ (Coding in_ = VIPS_CODING_RAD /\ has_flag coding VIPS_FOREIGN_CODING_RAD = true)
  \/ (Coding in_ = VIPS_CODING_NONE /\ saveable = VIPS_FOREIGN_SAVEABLE_ANY
      /\ format (BandFmt in_) = BandFmt in_) ->
  vips__foreign_convert_saveable in_ saveable format coding background =
  Some (in_, []).
Proof.
  unfold vips__foreign_convert_saveable, ret.
  intros [[Hc Hm]|[[Hc Hm]|(Hc & Hs & Hf)]].
  - rewrite Hc, Hm. reflexivity.
  - rewrite Hc, Hm. simpl. reflexivity.
  - rewrite Hc, Hs, Hf. simpl.
    assert (Hb : VipsBandFormat_beq (BandFmt in_) (BandFmt in_) = true)
      by (apply VipsBandFormat_beq_eq; reflexivity).
    rewrite Hb. reflexivity.
Qed.

(** The cast step on an uncoded image: [vips_cast] to the band format
    the table gives, with the shift option on exactly when the band
    format of the image is wider than 8 bits and the table's format is an
    8-bit one. *)
Lemma cast_step_shift_flag (format : format_table) (in_ : VipsImage) :
  Coding in_ = VIPS_CODING_NONE ->
  cast_step format in_ =
  call (vips_cast (format (BandFmt in_))
          ((8 <? band_format_bits (BandFmt in_))
           && (band_format_bits (format (BandFmt in_)) =? 8)))
       in_.
Proof.
  intro Hc. unfold cast_step. rewrite Hc. simpl.
  rewrite needs_shift_by_width. reflexivity.
Qed.

(** C6.  A run of the normaliser that does not leave at an early exit
    and succeeds: the image [in3] that the stages before the cast hand
    on, when it is uncoded, is cast by [vips_cast] to the band format the
    table gives for its own, with the shift option on exactly when its
    band format is wider than 8 bits and the table's format is an 8-bit
    one; the cast is among the operations applied, after those of the
    earlier stages, and its result is what the re-coding stage gets.  For
    every observation [sample] of images that [vips_cast] with the shift
    option on rescales by right shift, the sample of the cast image is
    then the sample of [in3] shifted right by the excess of its width
    over 8 bits.  A coded [in3] is not cast. *)
Theorem convert_saveable_casts_with_shift_when_narrowing_to_8bit
    (in_ out_ : VipsImage) (saveable : Z) (format : format_table) (coding : Z)
    (background : VipsArrayDouble) (ops : list (Op VipsArrayDouble))
    (sample : VipsImage -> Z) :
  (forall im im' f,
     run_op (vips_cast f true) im = Some im' ->
     sample im' = shift_rescale_sample (BandFmt im) f (sample im)) ->
  skips_normalisation in_ saveable format coding = false ->
  vips__foreign_convert_saveable in_ saveable format coding background
    = Some (out_, ops) ->
  exists in3 pre,
    stages_before_cast in_ saveable background = Some (in3, pre)
    /\ (Coding in3 = VIPS_CODING_NONE ->
        let shift :=
          (8 <? band_format_bits (BandFmt in3))
          && (band_format_bits (format (BandFmt in3)) =? 8) in
        exists in4 post,
          run_op (vips_cast (format (BandFmt in3)) shift) in3 = Some in4
          /\ recode_step coding in4 = Some (out_, post)
          /\ ops = pre ++ [vips_cast (format (BandFmt in3)) shift] ++ post
          /\ (shift = true ->
              sample in4 =
              Z.shiftr (sample in3) (band_format_bits (BandFmt in3) - 8)))
    /\ (Coding in3 <> VIPS_CODING_NONE ->
        exists post,
          recode_step coding in3 = Some (out_, post) /\ ops = pre ++ post).
Proof.
  intros Hsample Hskip Hconv.
  unfold skips_normalisation, coding_accepted in Hskip.
  apply orb_false_iff in Hskip. destruct Hskip as [Hcoded Hany].
  unfold vips__foreign_convert_saveable in Hconv.
  rewrite Hcoded, Hany in Hconv.
  unfold stages_before_cast.
  destruct (vips_foreign_apply_saveable in_ saveable) as [[in1 o1]|];
    [|discriminate].
  cbn [bind] in Hconv |- *.
  destruct (flatten_alpha_step saveable background in1) as [[in2 o2]|];
    [|discriminate].
  cbn [bind] in Hconv |- *.
  destruct (drop_excess_bands_step saveable in2) as [[in3 o3]|];
    [|discriminate].
  cbn [bind] in Hconv |- *.
  exists in3, (o1 ++ o2 ++ o3).
  split; [rewrite app_assoc; reflexivity|].
  split.
  - intro Hc. cbv zeta.
    rewrite (cast_step_shift_flag format in3 Hc) in Hconv.
    set (shift := (8 <? band_format_bits (BandFmt in3))
                  && (band_format_bits (format (BandFmt in3)) =? 8)) in *.
    unfold call in Hconv.
    destruct (run_op (vips_cast (format (BandFmt in3)) shift) in3)
      as [in4|] eqn:Hrun; [|discriminate].
    cbn [bind] in Hconv.
    destruct (recode_step coding in4) as [[out' post]|] eqn:Hrecode;
      [|discriminate].
    injection Hconv as <- <-.
    exists in4, post.
    split; [reflexivity|]. split; [exact Hrecode|].
    split; [rewrite <- !app_assoc; reflexivity|].
    intro Hshift. rewrite Hshift in Hrun.
    rewrite (Hsample in3 in4 _ Hrun). unfold shift_rescale_sample.
    subst shift. apply andb_true_iff in Hshift. destruct Hshift as [_ Hto].
    apply Z.eqb_eq in Hto. rewrite Hto. reflexivity.
  - intro Hc. unfold cast_step in Hconv.
    destruct (VipsCoding_beq (Coding in3) VIPS_CODING_NONE) eqn:Hb.
    { apply VipsCoding_beq_eq in Hb. contradiction. }
    unfold ret in Hconv. cbn [bind] in Hconv.
    destruct (recode_step coding in3) as [[out' post]|] eqn:Hrecode;
      [|discriminate].
    injection Hconv as <- <-.
    exists post. split; [reflexivity|].
    rewrite ?app_nil_r, <- ?app_assoc. reflexivity.
Qed.

(** With no alpha in the saveable mask the trimming step does leave an
    uncoded image of unrecognised interpretation alone. *)
Lemma drop_excess_bands_keeps_unrecognised_without_alpha
    (saveable : Z) (in_ : VipsImage) :
  Coding in_ = VIPS_CODING_NONE ->
  unrecognised_interpretation (vips_image_guess_interpretation in_) ->
  saveable <> VIPS_FOREIGN_SAVEABLE_ANY ->
  has_flag saveable VIPS_FOREIGN_SAVEABLE_ALPHA = false ->
  drop_excess_bands_step saveable in_ = Some (in_, []).
Proof.
  unfold unrecognised_interpretation, drop_excess_bands_step.
  intros -> -> Hany ->. simpl.
  destruct (Z.eqb_spec saveable VIPS_FOREIGN_SAVEABLE_ANY); [contradiction|].
  reflexivity.
Qed.

(** With alpha in the mask, the limit of such an image becomes one band. *)
Lemma drop_excess_bands_cuts_unrecognised_with_alpha
    (saveable : Z) (in_ : VipsImage) :
  Coding in_ = VIPS_CODING_NONE ->
  unrecognised_interpretation (vips_image_guess_interpretation in_) ->
  saveable <> VIPS_FOREIGN_SAVEABLE_ANY ->
  has_flag saveable VIPS_FOREIGN_SAVEABLE_ALPHA = true ->
  1 < Bands in_ ->
  drop_excess_bands_step saveable in_ = call (vips_extract_band 0 1) in_.
Proof.
  unfold unrecognised_interpretation, drop_excess_bands_step.
  intros -> -> Hany -> Hb. simpl.
  destruct (Z.eqb_spec saveable VIPS_FOREIGN_SAVEABLE_ANY); [contradiction|].
  destruct (Z.gtb_spec (Bands in_) 1); [reflexivity|lia].
Qed.

End NormalizerFacts.

Lemma convert_saveable_is_identity_witness :
  @vips__foreign_convert_saveable Examples.header_ops Examples.rgb8_image
    VIPS_FOREIGN_SAVEABLE_ANY vips_foreign_save_format_table
    VIPS_FOREIGN_CODING_NONE [255; 255; 255]
  = Some (Examples.rgb8_image, []).
Proof.
  apply (@convert_saveable_is_identity_when_acceptable Examples.header_ops).
  right. right. split; [reflexivity|]. split; reflexivity.
Defined.

(** The operations of the one-sample library keep the law of the shift
    option. *)
Lemma sample_ops_cast_shifts (im im' : VipsImage) (f : VipsBandFormat) :
  @run_op Scenarios.sample_ops (vips_cast f true) im = Some im' ->
  Scenarios.sample_of im' =
  shift_rescale_sample (BandFmt im) f (Scenarios.sample_of im).
Proof.
  intro Hrun. injection Hrun as <-.
  unfold Scenarios.sample_of, Scenarios.rescale_first, Examples.image.
  cbn [meta].
  destruct (meta im) as [|[k [d|s|v]] t]; try reflexivity;
    unfold shift_rescale_sample; rewrite Z.shiftr_0_l; reflexivity.
Qed.

Lemma convert_saveable_casts_with_shift_witness :
  exists in3 pre,
    @stages_before_cast Scenarios.sample_ops Scenarios.rgb16_sample_image
      VIPS_FOREIGN_SAVEABLE_RGB [0] = Some (in3, pre)
    /\ (Coding in3 = VIPS_CODING_NONE ->
        let shift :=
          (8 <? band_format_bits (BandFmt in3))
          && (band_format_bits (bandfmt_jpeg (BandFmt in3)) =? 8) in
        exists in4 post,
          @run_op Scenarios.sample_ops
            (vips_cast (bandfmt_jpeg (BandFmt in3)) shift) in3 = Some in4
          /\ @recode_step Scenarios.sample_ops VIPS_FOREIGN_CODING_NONE in4
             = Some (Scenarios.rgb8_sample_image, post)
          /\ [vips_colourspace VIPS_INTERPRETATION_RGB16;
              vips_cast VIPS_FORMAT_UCHAR true]
             = pre ++ [vips_cast (bandfmt_jpeg (BandFmt in3)) shift] ++ post
          /\ (shift = true ->
              Scenarios.sample_of in4 =
              Z.shiftr (Scenarios.sample_of in3)
                (band_format_bits (BandFmt in3) - 8)))
    /\ (Coding in3 <> VIPS_CODING_NONE ->
        exists post,
          @recode_step Scenarios.sample_ops VIPS_FOREIGN_CODING_NONE in3
            = Some (Scenarios.rgb8_sample_image, post)
          /\ [vips_colourspace VIPS_INTERPRETATION_RGB16;
              @vips_cast (list Z) VIPS_FORMAT_UCHAR true] = pre ++ post).
Proof.
  apply (@convert_saveable_casts_with_shift_when_narrowing_to_8bit
           Scenarios.sample_ops Scenarios.rgb16_sample_image
           Scenarios.rgb8_sample_image VIPS_FOREIGN_SAVEABLE_RGB bandfmt_jpeg
           VIPS_FOREIGN_CODING_NONE [0]
           [vips_colourspace VIPS_INTERPRETATION_RGB16;
            vips_cast VIPS_FORMAT_UCHAR true]
           Scenarios.sample_of).
  - exact sample_ops_cast_shifts.
  - reflexivity.
  - vm_compute. reflexivity.
Defined.

(** The 16-bit image whose sample is 0x1234, normalised for a saver of
    8-bit RGB: the sample of the result is 0x12, not 0x34. *)
Example ushort_sample_is_shifted_not_truncated :
  @vips__foreign_convert_saveable Scenarios.sample_ops
    Scenarios.rgb16_sample_image VIPS_FOREIGN_SAVEABLE_RGB bandfmt_jpeg
    VIPS_FOREIGN_CODING_NONE [0]
  = Some (Scenarios.rgb8_sample_image,
          [vips_colourspace VIPS_INTERPRETATION_RGB16;
           vips_cast VIPS_FORMAT_UCHAR true])
  /\ Scenarios.sample_of Scenarios.rgb16_sample_image = 0x1234
  /\ Scenarios.sample_of Scenarios.rgb8_sample_image = 0x12.
Proof. vm_compute. repeat split. Qed.

(** A 16-bit image against the all-uchar table of jpeg-in-tiff: the cast
    is asked to shift. *)
Example rgb16_to_jpeg_is_shifted :
  @cast_step Examples.header_ops bandfmt_jpeg Examples.rgb16_image =
  Some (Examples.image 640 480 3 VIPS_FORMAT_UCHAR VIPS_CODING_NONE
          VIPS_INTERPRETATION_RGB16 [],
        [vips_cast VIPS_FORMAT_UCHAR true]).
Proof. reflexivity. Qed.

(** The sample 0x1234 of such a 16-bit image is rescaled to 0x12. *)
Example shift_rescale_keeps_high_byte :
  needs_shift bandfmt_jpeg Examples.rgb16_image = true
  /\ shift_rescale_sample VIPS_FORMAT_USHORT
       (bandfmt_jpeg VIPS_FORMAT_USHORT) 0x1234 = 0x12.
Proof. split; reflexivity. Qed.

(** A five-band image taken for RGB, alpha support off: the trimming step
    keeps the first three bands. *)
Example five_band_rgb_is_trimmed_to_three :
  @drop_excess_bands_step Examples.header_ops VIPS_FOREIGN_SAVEABLE_RGB
    Examples.rgb_five_band_image
  = Some (Examples.image 640 480 3 VIPS_FORMAT_UCHAR VIPS_CODING_NONE
            VIPS_INTERPRETATION_sRGB [],
          [vips_extract_band 0 3]).
Proof. reflexivity. Qed.

(** C10.  The trimming step is meant to pass an uncoded image of
    unrecognised interpretation through with all its bands when the
    saveable mask is not ANY.  A two-band histogram and a mono/RGB saver
    with alpha: the limit of 0 bands that stands for "no limit" is raised
    to 1 by the alpha rule, and the step extracts the first band alone;
    so does the whole normaliser. *)
Theorem trimming_cuts_unrecognised_interpretation_to_one_band :
  Coding Examples.histogram2_image = VIPS_CODING_NONE
  /\ unrecognised_interpretation
       (@vips_image_guess_interpretation Examples.header_ops
          Examples.histogram2_image)
  /\ Examples.mono_rgb_alpha <> VIPS_FOREIGN_SAVEABLE_ANY
  /\ Bands Examples.histogram2_image = 2
  /\ @drop_excess_bands_step Examples.header_ops Examples.mono_rgb_alpha
       Examples.histogram2_image
     = Some (Examples.image 256 1 1 VIPS_FORMAT_UCHAR VIPS_CODING_NONE
               VIPS_INTERPRETATION_HISTOGRAM [],
             [vips_extract_band 0 1])
  /\ @vips__foreign_convert_saveable Examples.header_ops
       Examples.histogram2_image Examples.mono_rgb_alpha
       vips_foreign_save_format_table VIPS_FOREIGN_CODING_NONE [0]
     = Some (Examples.image 256 1 1 VIPS_FORMAT_UCHAR VIPS_CODING_NONE
               VIPS_INTERPRETATION_HISTOGRAM [],
             [vips_extract_band 0 1; vips_cast VIPS_FORMAT_UCHAR false]).
Proof.
  split; [reflexivity|]. split; [reflexivity|].
  split; [vm_compute; discriminate|]. split; [reflexivity|].
  split; vm_compute; reflexivity.
Qed.

(** ** The metadata policy *)

Lemma set_meta_meta (im : VipsImage) : set_meta im (meta im) = im.
Proof. destruct im; reflexivity. Qed.

Lemma set_meta_set_meta (im : VipsImage) (m m' : list (string * GValue)) :
  set_meta (set_meta im m) m' = set_meta im m'.
Proof. reflexivity. Qed.

Lemma meta_lookup_app_absent (pre tail : list (string * GValue)) (k : string) :
  meta_lookup pre k = None ->
  meta_lookup (pre ++ tail) k = meta_lookup tail k.
Proof.
  induction pre as [|[k' v'] pre IH]; simpl; [reflexivity|].
  destruct (String.eqb k' k); [discriminate|exact IH].
Qed.

Lemma meta_remove_app_absent (pre tail : list (string * GValue)) (k : string) :
  meta_lookup pre k = None ->
  meta_remove (pre ++ tail) k = pre ++ meta_remove tail k.
Proof.
  induction pre as [|[k' v'] pre IH]; simpl; [reflexivity|].
  destruct (String.eqb k' k); [discriminate|].
  intro Hn. rewrite IH by exact Hn. reflexivity.
Qed.

Lemma meta_lookup_In (m : list (string * GValue)) (k : string) (v : GValue) :
  meta_lookup m k = Some v -> In k (map fst m).
Proof.
  induction m as [|[k' v'] m IH]; simpl; [discriminate|].
  destruct (String.eqb_spec k' k) as [->|Hne]; [left; reflexivity|].
  intro Hl. right. apply IH. exact Hl.
Qed.

Lemma meta_lookup_absent (m : list (string * GValue)) (k : string) :
  ~ In k (map fst m) -> meta_lookup m k = None.
Proof.
  intro Hn. destruct (meta_lookup m k) as [v|] eqn:Hl; [|reflexivity].
  exfalso. apply Hn. eapply meta_lookup_In. exact Hl.
Qed.

Lemma meta_lookup_filter (P : string -> bool) (m : list (string * GValue))
    (k : string) :
  meta_lookup (filter (fun kv => P (fst kv)) m) k =
  if P k then meta_lookup m k else None.
Proof.
  induction m as [|[k' v'] m IH]; simpl.
  - destruct (P k); reflexivity.
  - destruct (P k') eqn:Hk'; simpl.
    + destruct (String.eqb_spec k' k) as [->|Hne].
      * rewrite Hk'. reflexivity.
      * exact IH.
    + destruct (String.eqb_spec k' k) as [->|Hne].
      * rewrite IH, Hk'. reflexivity.
      * exact IH.
Qed.

Lemma meta_remove_keys_incl (m : list (string * GValue)) (k x : string) :
  In x (map fst (meta_remove m k)) -> In x (map fst m).
Proof.
  induction m as [|[k' v'] m IH]; simpl; [tauto|].
  destruct (String.eqb k' k); simpl; [tauto|].
  intros [Hx|Hx]; [left; exact Hx|right; apply IH; exact Hx].
Qed.

Lemma meta_remove_NoDup (m : list (string * GValue)) (k : string) :
  NoDup (map fst m) ->
  NoDup (map fst (meta_remove m k)) /\ meta_lookup (meta_remove m k) k = None.
Proof.
  induction m as [|[k' v'] m IH]; simpl; intro Hnd.
  - split; [constructor|reflexivity].
  - inversion Hnd as [|? ? Hnotin Hnd']; subst.
    destruct (String.eqb_spec k' k) as [->|Hne].
    + split; [exact Hnd'|]. apply meta_lookup_absent. exact Hnotin.
    + destruct (IH Hnd') as [IH1 IH2]. simpl. split.
      * constructor; [|exact IH1].
        intro Hin. apply Hnotin. eapply meta_remove_keys_incl. exact Hin.
      * destruct (String.eqb_spec k' k); [contradiction|exact IH2].
Qed.

Lemma meta_lookup_remove_other (m : list (string * GValue)) (k x : string) :
  x <> k -> meta_lookup (meta_remove m k) x = meta_lookup m x.
Proof.
  intro Hne. induction m as [|[k' v'] m IH]; simpl; [reflexivity|].
  destruct (String.eqb_spec k' k) as [->|Hk]; simpl.
  - destruct (String.eqb_spec k x); [congruence|reflexivity].
  - destruct (String.eqb k' x); [reflexivity|exact IH].
Qed.

Lemma filter_keys_NoDup (P : string -> bool) (m : list (string * GValue)) :
  NoDup (map fst m) -> NoDup (map fst (filter (fun kv => P (fst kv)) m)).
Proof.
  induction m as [|[k v] m IH]; simpl; intro Hnd; [constructor|].
  inversion Hnd as [|? ? Hnotin Hnd']; subst.
  destruct (P k); simpl; [|apply IH; exact Hnd'].
  constructor; [|apply IH; exact Hnd'].
  intro Hin. apply Hnotin. apply in_map_iff in Hin.
  destruct Hin as ([k' v'] & Hk & Hin). apply filter_In in Hin.
  apply in_map_iff. exists (k', v'). tauto.
Qed.

(** Setting a field keeps the other fields and a duplicate-free key list. *)
Lemma vips_image_set_lookup_other (im : VipsImage) (k x : string) (v : GValue) :
  x <> k -> meta_lookup (meta (vips_image_set im k v)) x = meta_lookup (meta im) x.
Proof.
  intro Hne. unfold vips_image_set. simpl.
  destruct (meta_lookup (meta_remove (meta im) k) x) as [w|] eqn:Hl.
  - rewrite <- (meta_lookup_remove_other (meta im) k x Hne), Hl.
    revert Hl. generalize (meta_remove (meta im) k) as m.
    induction m as [|[k' v'] m IH]; simpl; [discriminate|].
    destruct (String.eqb k' x); [tauto|exact IH].
  - rewrite meta_lookup_app_absent by exact Hl. simpl.
    destruct (String.eqb_spec k x); [congruence|].
    rewrite <- Hl. apply meta_lookup_remove_other. exact Hne.
Qed.

Lemma vips_image_set_NoDup (im : VipsImage) (k : string) (v : GValue) :
  NoDup (map fst (meta im)) -> NoDup (map fst (meta (vips_image_set im k v))).
Proof.
  intro Hnd. unfold vips_image_set. simpl. rewrite map_app. simpl.
  destruct (meta_remove_NoDup (meta im) k Hnd) as [Hnd' Hl].
  apply NoDup_app.
  - exact Hnd'.
  - repeat constructor. simpl. tauto.
  - intros x Hx [<-|[]].
    apply in_map_iff in Hx. destruct Hx as ([k' v'] & Hk & Hin). simpl in Hk. subst k'.
    assert (Hsome : In k (map fst (meta_remove (meta im) k)))
      by (apply in_map_iff; exists (k, v'); tauto).
    clear Hin. revert Hl Hsome. generalize (meta_remove (meta im) k) as m.
    induction m as [|[k' w] m IH]; simpl; [tauto|].
    destruct (String.eqb_spec k' k); [discriminate|].
    intros Hl [Hk|Hin]; [congruence|]. apply IH; assumption.
Qed.

Section MetadataFacts.
Context `{MetaEnv}.

(** The header fields are not metadata: the walk passes over them. *)
Lemma walk_skips_non_metadata (keep : Z) (fields : list string) (im : VipsImage) :
  forallb (fun f => negb (is_metadata_field f)) fields = true ->
  vips_image_map_fields fields (vips_foreign_save_remove_metadata keep) im =
  (None, im).
Proof.
  induction fields as [|f fields IH]; simpl; [reflexivity|].
  intro Hall. apply andb_true_iff in Hall. destruct Hall as [Hf Hall].
  unfold vips_foreign_save_remove_metadata at 1. rewrite Hf. apply IH. exact Hall.
Qed.

Lemma vips_image_map_fields_app (R : Type) (f1 f2 : list string)
    (fn : VipsImage -> string -> option R * VipsImage) (im : VipsImage) :
  vips_image_map_fields (f1 ++ f2) fn im =
  match vips_image_map_fields f1 fn im with
  | (Some r, im') => (Some r, im')
  | (None, im') => vips_image_map_fields f2 fn im'
  end.
Proof.
  revert im. induction f1 as [|f f1 IH]; intro im; simpl; [reflexivity|].
  destruct (fn im f) as [[r|] im']; [reflexivity|apply IH].
Qed.

(** The walk over the metadata removes the fields that [keep] does not
    retain, keeps the others in their order, and never fails. *)
Lemma walk_filters_metadata (keep : Z) (im : VipsImage)
    (tail pre : list (string * GValue)) :
  Forall (fun kv => walk_retains keep (fst kv) = true) pre ->
  vips_image_map_fields (map fst tail) (vips_foreign_save_remove_metadata keep)
    (set_meta im (pre ++ tail)) =
  (None, set_meta im (pre ++ filter (fun kv => walk_retains keep (fst kv)) tail)).
Proof.
  revert pre. induction tail as [|[k v] tail IH]; intros pre Hpre.
  - reflexivity.
  - cbn [map fst vips_image_map_fields filter].
    unfold vips_foreign_save_remove_metadata at 1.
    assert (Hstep : pre ++ (k, v) :: tail = (pre ++ [(k, v)]) ++ tail)
      by (rewrite <- app_assoc; reflexivity).
    assert (Hw : walk_retains keep k =
                 negb (is_metadata_field k) || keep_retains keep k)
      by reflexivity.
    destruct (is_metadata_field k) eqn:Hmeta; cbn [negb orb] in *.
    + destruct (keep_retains keep k) eqn:Hkeep; rewrite Hw.
      * rewrite Hstep, IH.
        -- rewrite <- app_assoc. reflexivity.
        -- apply Forall_app. split; [exact Hpre|].
           constructor; [exact Hw|constructor].
      * assert (Habs : meta_lookup pre k = None).
        { apply meta_lookup_absent. intro Hin. apply in_map_iff in Hin.
          destruct Hin as ([k' v'] & Hk & Hin). simpl in Hk. subst k'.
          rewrite Forall_forall in Hpre. specialize (Hpre _ Hin).
          simpl in Hpre. congruence. }
        unfold vips_image_remove. cbn [meta set_meta].
        rewrite meta_lookup_app_absent by exact Habs. simpl.
        rewrite String.eqb_refl. simpl.
        rewrite meta_remove_app_absent by exact Habs. simpl.
        rewrite String.eqb_refl.
        change (set_meta (set_meta im (pre ++ (k, v) :: tail)) (pre ++ tail))
          with (set_meta im (pre ++ tail)).
        apply IH. exact Hpre.
    + rewrite Hw. rewrite Hstep, IH.
      * rewrite <- app_assoc. reflexivity.
      * apply Forall_app. split; [exact Hpre|].
        constructor; [exact Hw|constructor].
Qed.

Lemma vips_image_map_remove_metadata (keep : Z) (im : VipsImage) :
  vips_image_map (vips_foreign_save_remove_metadata keep) im =
  (None, set_meta im (filter (fun kv => walk_retains keep (fst kv)) (meta im))).
Proof.
  unfold vips_image_map. rewrite vips_image_map_fields_app.
  rewrite walk_skips_non_metadata by (vm_compute; reflexivity).
  rewrite <- (set_meta_meta im) at 2.
  apply (walk_filters_metadata keep im (meta im) []). constructor.
Qed.

Lemma walk_retains_icc (keep : Z) :
  has_flag keep VIPS_FOREIGN_KEEP_ICC = true ->
  walk_retains keep VIPS_META_ICC_NAME = true.
Proof.
  intro Hk. unfold walk_retains, keep_retains. rewrite Hk.
  change (String.eqb VIPS_META_ICC_NAME VIPS_META_ICC_NAME) with true.
  cbn [andb]. rewrite !orb_true_r. reflexivity.
Qed.

(** The image as the ICC check finds it: the metadata after the optional
    EXIF rebuild and the walk. *)
Lemma update_metadata_before_icc_check (in_ in1 : VipsImage) (keep : Z) :
  (if has_flag keep VIPS_FOREIGN_KEEP_EXIF then vips__exif_update in_ else (0, in_))
    = (0, in1) ->
  exists in2,
    (if negb (keep =? VIPS_FOREIGN_KEEP_ALL)
     then vips_image_map (vips_foreign_save_remove_metadata keep) in1
     else (None, in1)) = (None, in2)
    /\ (has_flag keep VIPS_FOREIGN_KEEP_ICC = true ->
        meta_lookup (meta in2) VIPS_META_ICC_NAME =
        meta_lookup (meta in_) VIPS_META_ICC_NAME)
    /\ (NoDup (map fst (meta in_)) -> NoDup (map fst (meta in2)))
    /\ Bands in2 = Bands in_ /\ BandFmt in2 = BandFmt in_ /\ Type_ in2 = Type_ in_.
Proof.
  intro Hexif.
  assert (H1 : meta_lookup (meta in1) VIPS_META_ICC_NAME =
               meta_lookup (meta in_) VIPS_META_ICC_NAME
               /\ (NoDup (map fst (meta in_)) -> NoDup (map fst (meta in1)))
               /\ Bands in1 = Bands in_ /\ BandFmt in1 = BandFmt in_
               /\ Type_ in1 = Type_ in_).
  { destruct (has_flag keep VIPS_FOREIGN_KEEP_EXIF).
    - unfold vips__exif_update in Hexif.
      destruct (exif_rebuild in_) as [data|]; [|discriminate].
      injection Hexif as <-. split.
      + apply vips_image_set_lookup_other. discriminate.
      + split; [apply vips_image_set_NoDup|]. repeat split.
    - injection Hexif as <-. repeat split. tauto. }
  destruct H1 as (Hl & Hnd & Hb & Hf & Ht).
  destruct (negb (keep =? VIPS_FOREIGN_KEEP_ALL)).
  - rewrite vips_image_map_remove_metadata. eexists. split; [reflexivity|].
    cbn [meta set_meta Bands BandFmt Type_]. split.
    + intro Hk. rewrite meta_lookup_filter, (walk_retains_icc keep Hk). exact Hl.
    + split; [|tauto]. intro Hn. apply filter_keys_NoDup, Hnd, Hn.
  - exists in1. split; [reflexivity|]. split; [intros _; exact Hl|].
    split; [exact Hnd|tauto].
Qed.

(** C7, as the code has it.  ICC retention requested, the image carries an
    ICC profile blob that is not compatible with it, and the EXIF rebuild,
    which runs first when EXIF retention is requested too, does not fail:
    the metadata update returns success and the image no longer has the
    profile field. *)
Theorem incompatible_icc_profile_is_dropped (in_ : VipsImage) (keep : Z)
    (data : list Byte.byte) :
  has_flag keep VIPS_FOREIGN_KEEP_ICC = true ->
  NoDup (map fst (meta in_)) ->
  vips_image_get_blob in_ VIPS_META_ICC_NAME = Some data ->
  vips_icc_is_compatible_profile in_ data = false ->
  (has_flag keep VIPS_FOREIGN_KEEP_EXIF = true -> exif_rebuild in_ <> None) ->
  exists out_image,
    vips__foreign_update_metadata in_ keep = (0, out_image)
    /\ vips_image_get_typeof out_image VIPS_META_ICC_NAME = false.
Proof.
  intros Hicc Hnd Hblob Hcompat Hexif.
  assert (Hstage1 : exists in1,
    (if has_flag keep VIPS_FOREIGN_KEEP_EXIF then vips__exif_update in_ else (0, in_))
      = (0, in1)).
  { destruct (has_flag keep VIPS_FOREIGN_KEEP_EXIF); [|eexists; reflexivity].
    unfold vips__exif_update.
    destruct (exif_rebuild in_); [eexists; reflexivity|].
    exfalso. apply Hexif; reflexivity. }
  destruct Hstage1 as [in1 H1].
  destruct (update_metadata_before_icc_check in_ in1 keep H1)
    as (in2 & H2 & Hl & Hnd2 & Hb & Hf & Ht).
  specialize (Hl Hicc). specialize (Hnd2 Hnd).
  unfold vips__foreign_update_metadata. rewrite H1. cbn [Z.eqb negb].
  rewrite H2, Hicc.
  unfold vips_image_get_blob in Hblob.
  unfold vips_image_get_typeof, vips_image_get_blob, vips_image_remove.
  rewrite Hl.
  destruct (meta_lookup (meta in_) VIPS_META_ICC_NAME) as [[d| |]|];
    try discriminate.
  injection Hblob as ->. cbn [andb].
  assert (Hc2 : vips_icc_is_compatible_profile in2 data = false).
  { unfold vips_icc_is_compatible_profile in *. rewrite Hb, Hf, Ht. exact Hcompat. }
  rewrite Hc2. cbn [negb].
  eexists. split; [reflexivity|].
  cbn [meta set_meta].
  destruct (meta_remove_NoDup (meta in2) VIPS_META_ICC_NAME Hnd2) as [_ Hgone].
  rewrite Hgone. reflexivity.
Qed.


End MetadataFacts.

Lemma incompatible_icc_profile_is_dropped_witness :
  exists out_image,
    @vips__foreign_update_metadata Examples.meta_env
      Examples.rgb_with_cmyk_profile Examples.keep_exif_icc = (0, out_image)
    /\ vips_image_get_typeof out_image VIPS_META_ICC_NAME = false.
Proof.
  apply (@incompatible_icc_profile_is_dropped Examples.meta_env
           Examples.rgb_with_cmyk_profile Examples.keep_exif_icc
           Examples.cmyk_profile).
  - reflexivity.
  - simpl. repeat constructor; simpl; intuition discriminate.
  - reflexivity.
  - reflexivity.
  - intros _. simpl. discriminate.
Defined.

(** The claim as the specification words it fails: ICC retention is
    requested together with EXIF retention, the image carries an
    incompatible profile, the EXIF rebuild fails, and the metadata update
    returns failure with the profile still on the image. *)
Lemma update_metadata_fails_before_icc_check :
  has_flag Examples.keep_exif_icc VIPS_FOREIGN_KEEP_ICC = true
  /\ vips_image_get_blob Examples.rgb_with_cmyk_profile VIPS_META_ICC_NAME
     = Some Examples.cmyk_profile
  /\ @vips_icc_is_compatible_profile Examples.failing_exif_env
       Examples.rgb_with_cmyk_profile Examples.cmyk_profile = false
  /\ @vips__foreign_update_metadata Examples.failing_exif_env
       Examples.rgb_with_cmyk_profile Examples.keep_exif_icc
     = (-1, Examples.rgb_with_cmyk_profile)
  /\ vips_image_get_typeof Examples.rgb_with_cmyk_profile VIPS_META_ICC_NAME = true.
Proof. repeat split. Qed.

(** ** The save build *)



Section SaveFacts.
Context `{ImageOps} `{MetaEnv}.


Lemma save_build_keep_fields (save : VipsForeignSave) :
  in_ (save_build_keep save) = in_ save
  /\ background (save_build_keep save) = background save
  /\ page_height (save_build_keep save) = page_height save.
Proof.
  unfold save_build_keep, save_build_strip.
  destruct (argument_isset save "strip" && negb (argument_isset save "keep"));
    match goal with |- context [if ?b then _ else _] => destruct b end;
    repeat split.
Qed.




End SaveFacts.



(** ** More on the registry and the finders *)

Section SearchFacts.
Context {C : Type} `{ForeignSubclass C}.

(** A search with a callback that keeps no state stops at the first item
    the callback accepts. *)
Lemma vips_slist_map2_stops_at_first (R : Type) (f : C -> option R) (l : list C) :
  match fst (vips_slist_map2 l (fun c (b : unit) => (f c, b)) tt) with
  | Some r =>
      exists pre c post, l = pre ++ c :: post /\ f c = Some r
                         /\ forall d, In d pre -> f d = None
  | None => forall d, In d l -> f d = None
  end.
Proof.
  induction l as [|x l IH]; simpl.
  - intros d [].
  - destruct (f x) as [r|] eqn:Hx; simpl.
    + exists [], x, l. repeat split; [exact Hx|intros d []].
    + destruct (fst (vips_slist_map2 l _ tt)) as [r|].
      * destruct IH as (pre & c & post & Hl & Hc & Hpre).
        exists (x :: pre), c, post. rewrite Hl. repeat split; [exact Hc|].
        intros d [<-|Hd]; [exact Hx|apply Hpre; exact Hd].
      * intros d [<-|Hd]; [exact Hx|apply IH; exact Hd].
Qed.

Lemma descending_app_tail (pre post : list C) (c : C) :
  descending class_priority (pre ++ c :: post) ->
  Forall (fun d => class_priority d <= class_priority c) post.
Proof.
  unfold descending. induction pre as [|x pre IH]; simpl; intro Hs.
  - inversion Hs; assumption.
  - inversion Hs; subst. apply IH. assumption.
Qed.

Lemma with_key_incl (p : Z) (l : list C) (d : C) :
  In d (with_key class_priority p l) -> In d l.
Proof. unfold with_key. intro Hd. apply filter_In in Hd. tauto. Qed.

(** X2.  When every difference of two priorities fits an [int], the list
    [vips_foreign_map] iterates is in descending priority order and holds,
    for each priority, the classes of that priority that are not blocked
    and not "rawload", in their registration order. *)
Theorem map_order_is_stable_descending_without_overflow (classes : list C) :
  priorities_fit_int classes ->
  descending class_priority (vips_foreign_map_files classes)
  /\ forall p,
       with_key class_priority p (vips_foreign_map_files classes) =
       with_key class_priority p (filter file_add_class_keeps classes).
Proof. intro Hfit. apply vips_foreign_map_files_stable_descending. exact Hfit. Qed.

(** X1.  Whatever the priorities are, the list [vips_foreign_map] iterates
    is a rearrangement of the registered classes that are neither blocked
    nor "rawload": none of them is lost or presented twice, and no other
    class is presented. *)
Theorem map_presents_each_unblocked_class_once (classes : list C) :
  Permutation (vips_foreign_map_files classes)
              (filter file_add_class_keeps classes)
  /\ forall c, In c (vips_foreign_map_files classes) ->
       has_flag (operation_flags (VIPS_FOREIGN_CLASS c)) VIPS_OPERATION_BLOCKED = false
       /\ vips_isprefix "rawload" (nickname (VIPS_FOREIGN_CLASS c)) = false.
Proof.
  split; [apply vips_foreign_map_files_perm|].
  intros c Hc. apply vips_foreign_map_files_In in Hc. destruct Hc as [_ Hk].
  unfold file_add_class_keeps in Hk. apply andb_true_iff in Hk.
  destruct Hk as [Hb Hr]. split.
  - destruct (has_flag _ _); [discriminate|reflexivity].
  - destruct (vips_isprefix _ _); [discriminate|reflexivity].
Qed.

(** The class a search stops at is the choice by priority. *)
Lemma search_stop_is_chosen_by_priority (accepts : C -> bool)
    (classes pre post : list C) (c : C) :
  priorities_fit_int classes ->
  vips_foreign_map_files classes = pre ++ c :: post ->
  accepts c = true ->
  (forall d, In d pre -> accepts d = false) ->
  chosen_by_priority accepts classes c.
Proof.
  intros Hfit Hfiles Hc Hpre.
  destruct (vips_foreign_map_files_stable_descending classes Hfit) as [Hdesc Hstable].
  assert (Hin : In c (vips_foreign_map_files classes))
    by (rewrite Hfiles; apply in_or_app; right; left; reflexivity).
  apply vips_foreign_map_files_In in Hin. destruct Hin as [Hin Hkeep].
  unfold chosen_by_priority. repeat split; try assumption.
  - intros d Hd Hk Hacc.
    assert (Hdl : In d (vips_foreign_map_files classes))
      by (apply vips_foreign_map_files_In; tauto).
    rewrite Hfiles in Hdl, Hdesc. apply in_app_or in Hdl.
    destruct Hdl as [Hdl|[<-|Hdl]].
    + rewrite (Hpre d Hdl) in Hacc. discriminate.
    + lia.
    + pose proof (descending_app_tail pre post c Hdesc) as Hall.
      rewrite Forall_forall in Hall. apply Hall. exact Hdl.
  - exists (with_key class_priority (class_priority c) pre),
           (with_key class_priority (class_priority c) post).
    split.
    + rewrite <- Hstable, Hfiles. unfold with_key. rewrite filter_app. simpl.
      rewrite Z.eqb_refl. reflexivity.
    + intros d Hd. apply Hpre. eapply with_key_incl. exact Hd.
Qed.

End SearchFacts.

Lemma map_order_witness :
  descending class_priority
    (vips_foreign_map_files [Examples.five_class; Examples.ten_class])
  /\ forall p,
       with_key class_priority p
         (vips_foreign_map_files [Examples.five_class; Examples.ten_class]) =
       with_key class_priority p
         (filter file_add_class_keeps [Examples.five_class; Examples.ten_class]).
Proof.
  apply (@map_order_is_stable_descending_without_overflow _ _
           [Examples.five_class; Examples.ten_class]).
  intros a b [<-|[<-|[]]] [<-|[<-|[]]]; vm_compute; split; discriminate.
Defined.

Section FindLoadFacts.
Context `{FileSystem}.

Lemma find_load_sub_accepted (c : VipsForeignLoadClass) (filename : string) :
  vips_foreign_find_load_sub c filename =
  if accepted (fun c => vips_foreign_find_load_sub c filename) c
  then Some c else None.
Proof.
  unfold accepted.
  destruct (vips_foreign_find_load_sub c filename) as [r|] eqn:Hsub; [|reflexivity].
  rewrite (vips_foreign_find_load_sub_some c r filename Hsub). reflexivity.
Qed.

(** What it takes for a loader to be accepted: it is a file loader, and
    its sniffer accepts the file or, when it has no sniffer, its suffix
    list matches the file name. *)
Lemma find_load_sub_accepts (c : VipsForeignLoadClass) (filename : string) :
  vips_foreign_find_load_sub c filename = Some c ->
  is_file_loader c = true
  /\ (sniff_matches c filename = true
      \/ (suffix_only c = true /\ exists ss,
            suffs (VIPS_FOREIGN_CLASS c) = Some ss
            /\ vips_filename_suffix_match filename ss = true)).
Proof.
  unfold vips_foreign_find_load_sub, is_file_loader, sniff_matches, suffix_only.
  destruct (_ || _); [discriminate|]. intro Hsub. split; [reflexivity|].
  destruct (is_a c) as [sniff|].
  - left. destruct (sniff filename); [reflexivity|discriminate].
  - right. split; [reflexivity|].
    destruct (suffs _) as [ss|]; [|discriminate].
    exists ss. split; [reflexivity|].
    destruct (vips_filename_suffix_match filename ss); [reflexivity|discriminate].
Qed.

(** X3.  When [vips_foreign_find_load] returns an operation name, the
    file exists and is not a directory, and the name is that of a
    registered loader that is not blocked, not "rawload" and not a buffer
    or source loader, and that accepts the file: by its sniffer or, only
    when it has none, by its suffix list. *)
Theorem find_load_result_is_an_accepting_file_loader
    (classes : list VipsForeignLoadClass) (name operation : string) :
  vips_foreign_find_load classes name = Ok operation ->
  let filename := fst (vips__filename_split8 name) in
  vips_existsf filename = true
  /\ vips_isdirf filename = false
  /\ exists c, In c classes
       /\ operation = class_name (VIPS_FOREIGN_CLASS c)
       /\ file_add_class_keeps c = true
       /\ is_file_loader c = true
       /\ (sniff_matches c filename = true
           \/ (suffix_only c = true /\ exists ss,
                 suffs (VIPS_FOREIGN_CLASS c) = Some ss
                 /\ vips_filename_suffix_match filename ss = true)).
Proof.
  unfold vips_foreign_find_load, vips_foreign_map.
  destruct (vips__filename_split8 name) as [filename opts]. simpl.
  destruct (vips_existsf filename); simpl; [|discriminate].
  destruct (vips_isdirf filename); simpl; [discriminate|].
  pose proof (vips_slist_map2_stops_at_first _
                (fun c => vips_foreign_find_load_sub c filename)
                (vips_foreign_map_files classes)) as Hstop.
  destruct (fst (vips_slist_map2 _ _ tt)) as [r|]; [|discriminate].
  intro Hok. injection Hok as <-.
  destruct Hstop as (pre & c & post & Hl & Hc & _).
  pose proof (vips_foreign_find_load_sub_some c r filename Hc) as ->.
  split; [reflexivity|]. split; [reflexivity|].
  exists c.
  assert (Hin : In c (vips_foreign_map_files classes))
    by (rewrite Hl; apply in_or_app; right; left; reflexivity).
  apply vips_foreign_map_files_In in Hin. destruct Hin as [Hin Hk].
  destruct (find_load_sub_accepts c filename Hc) as [Hfile Hacc].
  repeat split; assumption.
Qed.

(** X4.  For a file that exists and is not a directory, discovery fails
    with "not a known file format" exactly when no registered loader that
    is neither blocked nor "rawload" accepts the file. *)
Theorem find_load_unknown_format_iff
    (classes : list VipsForeignLoadClass) (name : string) :
  let filename := fst (vips__filename_split8 name) in
  vips_existsf filename = true ->
  vips_isdirf filename = false ->
  (vips_foreign_find_load classes name = Err not_a_known_file_format
   <-> forall c, In c classes -> file_add_class_keeps c = true ->
         vips_foreign_find_load_sub c filename = None).
Proof.
  unfold vips_foreign_find_load, vips_foreign_map.
  destruct (vips__filename_split8 name) as [filename opts]. simpl.
  intros -> ->. simpl.
  pose proof (vips_slist_map2_stops_at_first _
                (fun c => vips_foreign_find_load_sub c filename)
                (vips_foreign_map_files classes)) as Hstop.
  destruct (fst (vips_slist_map2 _ _ tt)) as [r|].
  - destruct Hstop as (pre & c & post & Hl & Hc & _).
    split; [discriminate|]. intro Hnone. exfalso.
    assert (Hin : In c (vips_foreign_map_files classes))
      by (rewrite Hl; apply in_or_app; right; left; reflexivity).
    apply vips_foreign_map_files_In in Hin. destruct Hin as [Hin Hk].
    rewrite (Hnone c Hin Hk) in Hc. discriminate.
  - split; [|reflexivity]. intros _ c Hin Hk. apply Hstop.
    apply vips_foreign_map_files_In. tauto.
Qed.

(** X5.  When every difference of two priorities fits an [int], the
    loader [vips_foreign_find_load] resolves to is the choice by priority:
    no accepting loader has a higher priority, and among the accepting
    loaders of its priority it is the one registered first. *)
Theorem find_load_resolves_to_choice_by_priority
    (classes : list VipsForeignLoadClass) (name operation : string) :
  priorities_fit_int classes ->
  vips_foreign_find_load classes name = Ok operation ->
  exists c,
    operation = class_name (VIPS_FOREIGN_CLASS c)
    /\ chosen_by_priority
         (accepted (fun c =>
            vips_foreign_find_load_sub c (fst (vips__filename_split8 name))))
         classes c.
Proof.
  intro Hfit. unfold vips_foreign_find_load, vips_foreign_map.
  destruct (vips__filename_split8 name) as [filename opts]. simpl.
  destruct (vips_existsf filename); simpl; [|discriminate].
  destruct (vips_isdirf filename); simpl; [discriminate|].
  pose proof (vips_slist_map2_stops_at_first _
                (fun c => vips_foreign_find_load_sub c filename)
                (vips_foreign_map_files classes)) as Hstop.
  destruct (fst (vips_slist_map2 _ _ tt)) as [r|]; [|discriminate].
  intro Hok. injection Hok as <-.
  destruct Hstop as (pre & c & post & Hl & Hc & Hpre).
  pose proof (vips_foreign_find_load_sub_some c r filename Hc) as ->.
  exists c. split; [reflexivity|].
  apply (search_stop_is_chosen_by_priority _ classes pre post c Hfit Hl).
  - unfold accepted. rewrite Hc. reflexivity.
  - intros d Hd. unfold accepted. rewrite (Hpre d Hd). reflexivity.
Qed.

End FindLoadFacts.

Lemma find_load_unknown_format_witness :
  @vips_foreign_find_load Examples.one_file_fs [Examples.suffix_csv_load] "fake.tif"
    = Err not_a_known_file_format
  <-> forall c, In c [Examples.suffix_csv_load] -> file_add_class_keeps c = true ->
        @vips_foreign_find_load_sub Examples.one_file_fs c "fake.tif" = None.
Proof.
  apply (@find_load_unknown_format_iff Examples.one_file_fs
           [Examples.suffix_csv_load] "fake.tif"); reflexivity.
Defined.

Lemma find_load_choice_witness :
  exists c,
    "VipsForeignLoadTiff" = class_name (VIPS_FOREIGN_CLASS c)
    /\ chosen_by_priority
         (accepted (fun c =>
            @vips_foreign_find_load_sub Examples.one_file_fs c
              (fst (@vips__filename_split8 Examples.one_file_fs "fake.tif"))))
         [Examples.sniffing_x_load; Examples.suffix_tiff_load] c.
Proof.
  apply (@find_load_resolves_to_choice_by_priority Examples.one_file_fs
           [Examples.sniffing_x_load; Examples.suffix_tiff_load] "fake.tif").
  - intros a b [<-|[<-|[]]] [<-|[<-|[]]]; vm_compute; split; discriminate.
  - vm_compute. reflexivity.
Defined.

(** ** Buffer and source loaders *)

(** X6.  [vips_foreign_find_load_buffer] returns the name of a registered,
    unblocked loader whose nickname ends in "_buffer" and whose
    [is_a_buffer] accepts the bytes; it returns [NULL] exactly when there
    is no such loader.  File loaders and buffer loaders without an
    [is_a_buffer] method are never picked. *)
Theorem find_load_buffer_picks_accepting_buffer_loader
    (classes : list VipsForeignLoadMethods) (data : list Byte.byte) :
  match vips_foreign_find_load_buffer classes data with
  | Some operation =>
      exists c sniff, In c classes
        /\ operation = class_name (VIPS_FOREIGN_CLASS c)
        /\ file_add_class_keeps c = true
        /\ g_str_has_suffix (nickname (VIPS_FOREIGN_CLASS c)) "_buffer" = true
        /\ is_a_buffer c = Some sniff /\ sniff data = true
  | None =>
      forall c sniff, In c classes -> file_add_class_keeps c = true ->
        g_str_has_suffix (nickname (VIPS_FOREIGN_CLASS c)) "_buffer" = true ->
        is_a_buffer c = Some sniff -> sniff data = false
  end.
Proof.
  unfold vips_foreign_find_load_buffer, vips_foreign_map.
  pose proof (vips_slist_map2_stops_at_first _
                (fun c => vips_foreign_find_load_buffer_sub c data)
                (vips_foreign_map_files classes)) as Hstop.
  destruct (fst (vips_slist_map2 _ _ tt)) as [r|].
  - destruct Hstop as (pre & c & post & Hl & Hc & _).
    assert (Hin : In c (vips_foreign_map_files classes))
      by (rewrite Hl; apply in_or_app; right; left; reflexivity).
    apply vips_foreign_map_files_In in Hin. destruct Hin as [Hin Hk].
    unfold vips_foreign_find_load_buffer_sub in Hc.
    destruct (g_str_has_suffix _ "_buffer") eqn:Hnick; simpl in Hc; [|discriminate].
    destruct (is_a_buffer c) as [sniff|] eqn:Hsniff; [|discriminate].
    destruct (sniff data) eqn:Hacc; [|discriminate].
    injection Hc as <-. exists c, sniff. repeat split; assumption.
  - intros c sniff Hin Hk Hnick Hsniff.
    assert (Hc : vips_foreign_find_load_buffer_sub c data = None)
      by (apply Hstop; apply vips_foreign_map_files_In; tauto).
    unfold vips_foreign_find_load_buffer_sub in Hc.
    rewrite Hnick, Hsniff in Hc. simpl in Hc.
    destruct (sniff data); [discriminate|reflexivity].
Qed.

Lemma vips_source_rewind_same_data (s1 s2 : VipsSource) :
  source_data s1 = source_data s2 ->
  vips_source_rewind s1 = vips_source_rewind s2.
Proof. unfold vips_source_rewind. intros ->. reflexivity. Qed.

Lemma find_load_source_search (source : VipsSource)
    (l : list VipsForeignLoadMethods) (a : VipsSource) :
  (forall item sniff s, In item l -> is_a_source item = Some sniff ->
     source_data (snd (sniff s)) = source_data s) ->
  source_data a = source_data source ->
  fst (vips_slist_map2 l vips_foreign_find_load_source_sub a) =
  find (accepts_rewound source) l.
Proof.
  revert a. induction l as [|item l IH]; intros a Hread Ha; [reflexivity|].
  cbn [vips_slist_map2 find].
  unfold vips_foreign_find_load_source_sub at 1. unfold accepts_rewound at 1.
  destruct (g_str_has_suffix _ "_source"); cbn [negb andb].
  - destruct (is_a_source item) as [sniff|] eqn:Hsniff.
    + rewrite (vips_source_rewind_same_data a source Ha).
      pose proof (Hread item sniff (vips_source_rewind source)
                    (or_introl eq_refl) Hsniff) as Hdata.
      destruct (sniff (vips_source_rewind source)) as [ok s'] eqn:Hrun.
      cbn [fst snd] in *. destruct ok; [reflexivity|].
      apply IH.
      * intros i f s Hi. apply Hread. right. exact Hi.
      * rewrite Hdata. reflexivity.
    + apply IH; [|exact Ha]. intros i f s Hi. apply Hread. right. exact Hi.
  - apply IH; [|exact Ha]. intros i f s Hi. apply Hread. right. exact Hi.
Qed.

(** X7.  Sniffers that only read (they may move the read position, the
    bytes stay): because the source is rewound before every sniffer,
    [vips_foreign_find_load_source] resolves to the first source loader in
    iteration order whose sniffer accepts the source read from position
    zero, whatever the sniffers tried before it consumed and wherever the
    read position was at the start. *)
Theorem find_load_source_sniffs_from_position_zero
    (classes : list VipsForeignLoadMethods) (source : VipsSource) :
  sniffers_only_read classes ->
  fst (vips_foreign_find_load_source classes source) =
  match find (accepts_rewound source) (vips_foreign_map_files classes) with
  | Some c => Some (class_name (VIPS_FOREIGN_CLASS c))
  | None => None
  end.
Proof.
  intro Hread. unfold vips_foreign_find_load_source, vips_foreign_map.
  pose proof (find_load_source_search source (vips_foreign_map_files classes)
                source) as Hsearch.
  destruct (vips_slist_map2 _ _ source) as [found s'].
  cbn [fst] in *. rewrite Hsearch; [reflexivity| |reflexivity].
  intros item sniff s Hin. apply Hread.
  apply vips_foreign_map_files_In in Hin. tauto.
Qed.

(** ** Savers *)

Lemma buffer_nickname_is_not_target (nick : string) :
  g_str_has_suffix nick "_buffer" = true ->
  g_str_has_suffix nick "_target" = false.
Proof.
  unfold g_str_has_suffix. cbn [String.length].
  destruct (7 <=? String.length nick)%nat; cbn [andb]; [|reflexivity].
  destruct (String.eqb_spec (substring (String.length nick - 7) 7 nick) "_buffer")
    as [->|]; [reflexivity|discriminate].
Qed.

Section FindSaveFacts.
Context `{FileSystem} `{SaverNames}.

(** X8.  [vips_foreign_find_save] returns the name of a registered,
    unblocked saver that has a suffix list, whose nickname ends neither in
    "_buffer" nor in "_target", and one of whose suffixes is a
    case-insensitive postfix of the file name; it returns [NULL] exactly
    when there is no such saver. *)
Theorem find_save_picks_file_saver_by_suffix
    (classes : list VipsForeignSaveClass) (name : string) :
  let filename := fst (vips__filename_split8 name) in
  match vips_foreign_find_save classes name with
  | Some operation =>
      exists c ss p, In c classes
        /\ operation = class_name (VIPS_FOREIGN_CLASS c)
        /\ file_add_class_keeps c = true
        /\ g_str_has_suffix (nickname (VIPS_FOREIGN_CLASS c)) "_buffer" = false
        /\ g_str_has_suffix (nickname (VIPS_FOREIGN_CLASS c)) "_target" = false
        /\ suffs (VIPS_FOREIGN_CLASS c) = Some ss
        /\ In p ss /\ vips_iscasepostfix filename p = true
  | None =>
      forall c ss p, In c classes -> file_add_class_keeps c = true ->
        g_str_has_suffix (nickname (VIPS_FOREIGN_CLASS c)) "_buffer" = false ->
        g_str_has_suffix (nickname (VIPS_FOREIGN_CLASS c)) "_target" = false ->
        suffs (VIPS_FOREIGN_CLASS c) = Some ss -> In p ss ->
        vips_iscasepostfix filename p = false
  end.
Proof.
  unfold vips_foreign_find_save, vips_foreign_map.
  destruct (vips__filename_split8 name) as [filename opts]. cbn [fst].
  pose proof (vips_slist_map2_stops_at_first _
                (fun c => vips_foreign_find_save_sub c filename)
                (vips_foreign_map_files classes)) as Hstop.
  destruct (fst (vips_slist_map2 _ _ tt)) as [r|].
  - destruct Hstop as (pre & c & post & Hl & Hc & _).
    assert (Hin : In c (vips_foreign_map_files classes))
      by (rewrite Hl; apply in_or_app; right; left; reflexivity).
    apply vips_foreign_map_files_In in Hin. destruct Hin as [Hin Hk].
    unfold vips_foreign_find_save_sub in Hc.
    destruct (suffs (VIPS_FOREIGN_CLASS c)) as [ss|] eqn:Hss; [|discriminate].
    destruct (g_str_has_suffix _ "_buffer") eqn:Hb; simpl in Hc; [discriminate|].
    destruct (g_str_has_suffix _ "_target") eqn:Ht; simpl in Hc; [discriminate|].
    destruct (existsb _ ss) eqn:Hex; [|discriminate].
    injection Hc as <-. apply existsb_exists in Hex. destruct Hex as (p & Hp & Hpost).
    exists c, ss, p. repeat split; assumption.
  - intros c ss p Hin Hk Hb Ht Hss Hp.
    assert (Hc : vips_foreign_find_save_sub c filename = None)
      by (apply Hstop; apply vips_foreign_map_files_In; tauto).
    unfold vips_foreign_find_save_sub in Hc. rewrite Hss, Hb, Ht in Hc. simpl in Hc.
    destruct (existsb _ ss) eqn:Hex; [discriminate|].
    destruct (vips_iscasepostfix filename p) eqn:Hpost; [|reflexivity].
    assert (Htrue : existsb (fun p => vips_iscasepostfix filename p) ss = true)
      by (apply existsb_exists; exists p; tauto).
    congruence.
Qed.

(** X9.  The three saver finders look at disjoint sets of classes: a
    class that the file finder accepts for some name is accepted by
    neither the buffer nor the target finder for any suffix, and a class
    that the buffer finder accepts is not accepted by the target finder. *)
Theorem saver_finders_accept_disjoint_classes (c : VipsForeignSaveClass)
    (filename suffix suffix' : string) :
  (vips_foreign_find_save_sub c filename <> None ->
   vips_foreign_find_save_buffer_sub c suffix = None
   /\ vips_foreign_find_save_target_sub c suffix = None)
  /\ (vips_foreign_find_save_buffer_sub c suffix <> None ->
      vips_foreign_find_save_target_sub c suffix' = None).
Proof.
  unfold vips_foreign_find_save_sub, vips_foreign_find_save_buffer_sub,
    vips_foreign_find_save_target_sub.
  destruct (suffs (VIPS_FOREIGN_CLASS c)) as [ss|]; [|split; intro Hn; congruence].
  destruct (g_str_has_suffix _ "_buffer") eqn:Hb.
  - pose proof (buffer_nickname_is_not_target _ Hb) as Ht. rewrite Ht.
    simpl. rewrite !andb_false_r. split; [congruence|reflexivity].
  - simpl. rewrite !andb_false_r. simpl.
    destruct (g_str_has_suffix _ "_target"); simpl.
    + split; congruence.
    + rewrite !andb_false_r. split; [split; reflexivity|congruence].
Qed.

(** X10.  When every difference of two priorities fits an [int], the
    saver [vips_foreign_find_save] resolves to is the choice by priority
    among the file savers whose suffix list matches. *)
Theorem find_save_resolves_to_choice_by_priority
    (classes : list VipsForeignSaveClass) (name operation : string) :
  priorities_fit_int classes ->
  vips_foreign_find_save classes name = Some operation ->
  exists c,
    operation = class_name (VIPS_FOREIGN_CLASS c)
    /\ chosen_by_priority
         (accepted (fun c =>
            vips_foreign_find_save_sub c (fst (vips__filename_split8 name))))
         classes c.
Proof.
  intro Hfit. unfold vips_foreign_find_save, vips_foreign_map.
  destruct (vips__filename_split8 name) as [filename opts]. cbn [fst].
  pose proof (vips_slist_map2_stops_at_first _
                (fun c => vips_foreign_find_save_sub c filename)
                (vips_foreign_map_files classes)) as Hstop.
  destruct (fst (vips_slist_map2 _ _ tt)) as [r|]; [|discriminate].
  intro Hok. injection Hok as <-.
  destruct Hstop as (pre & c & post & Hl & Hc & Hpre).
  assert (Hr : r = c).
  { unfold vips_foreign_find_save_sub in Hc.
    destruct (suffs _); [|discriminate].
    destruct (_ || _); [discriminate|].
    destruct (existsb _ _); congruence. }
  subst r. exists c. split; [reflexivity|].
  apply (search_stop_is_chosen_by_priority _ classes pre post c Hfit Hl).
  - unfold accepted. rewrite Hc. reflexivity.
  - intros d Hd. unfold accepted. rewrite (Hpre d Hd). reflexivity.
Qed.

End FindSaveFacts.

(** ** More on the start function *)

Section StartFacts.
Context `{LoadEnv}.

Lemma vips_foreign_load_temp_keeps_real (load : VipsForeignLoad) :
  real (snd (vips_foreign_load_temp load)) = real load.
Proof.
  unfold vips_foreign_load_temp.
  destruct load as [o r e m d f a]; simpl.
  destruct d, m; simpl; try reflexivity;
    repeat (match goal with |- context [if ?b then _ else _] => destruct b end;
            simpl; try reflexivity).
Qed.

(** One start request: the handler is called at most once, and only on
    an object that has not settled; a settled object stays settled and its
    record of events stays as it is. *)
Lemma start_request_calls (out_image : VipsImage) (st : LoadState) :
  let st' := snd (vips_foreign_load_start out_image st) in
  (settled (fst st) -> st' = st)
  /\ (handler_calls (snd st') = handler_calls (snd st)
      \/ (handler_calls (snd st') = S (handler_calls (snd st))
          /\ settled (fst st'))).
Proof.
  destruct st as [load log]. unfold vips_foreign_load_start, settled. cbn [fst snd].
  destruct (error load) eqn:Herr.
  - cbn [snd fst]. split; [reflexivity|left; reflexivity].
  - destruct (real load) as [r|] eqn:Hreal.
    + cbn [snd fst]. split; [reflexivity|left; reflexivity].
    + split; [intros [Hc|Hc]; congruence|].
      destruct (vips_foreign_load_temp load) as [[r|] load1] eqn:Htemp.
      2:{ left. reflexivity. }
      destruct (class_load (set_real load1 (Some r))) as [status r'].
      assert (Hcount : forall extra,
                handler_calls ((log ++ [handler_load_called]) ++ extra) =
                S (handler_calls log + handler_calls extra)).
      { intro extra. unfold handler_calls.
        rewrite !filter_app, !length_app. simpl. lia. }
      destruct (negb (status =? 0) || _ || _).
      * right. cbn [snd fst]. split.
        -- rewrite Hcount.
           change (handler_calls [operation_invalidated]) with 0%nat. lia.
        -- left. reflexivity.
      * assert (Hplain : handler_calls (log ++ [handler_load_called]) =
                         S (handler_calls log)).
        { rewrite <- (app_nil_r (log ++ [handler_load_called])), Hcount.
          change (handler_calls []) with 0%nat. lia. }
        destruct (negb (vips_image_pipelinev _ _ =? 0)); right; cbn [snd fst];
          (split; [exact Hplain|right; simpl; discriminate]).
Qed.

Lemma start_requests_snoc_state (n : nat) (out_image : VipsImage) (st : LoadState) :
  snd (start_requests (S n) out_image st) =
  snd (start_requests n out_image (snd (vips_foreign_load_start out_image st))).
Proof.
  cbn [start_requests].
  destruct (vips_foreign_load_start out_image st) as [r st']. cbn [snd].
  destruct (start_requests n out_image st') as [rs st'']. reflexivity.
Qed.

Lemma start_requests_settled (n : nat) (out_image : VipsImage) (st : LoadState) :
  settled (fst st) -> snd (start_requests n out_image st) = st.
Proof.
  intro Hs. induction n as [|n IH]; [reflexivity|].
  rewrite start_requests_snoc_state.
  destruct (start_request_calls out_image st) as [Hfix _].
  rewrite (Hfix Hs). exact IH.
Qed.

(** X11.  Over any number of start requests on a load object, from any
    state, the handler's [load] method is called at most once; on an
    object that has already failed or already holds its decoded image it
    is not called at all. *)
Theorem handler_load_is_called_at_most_once (n : nat) (out_image : VipsImage)
    (st : LoadState) :
  let st' := snd (start_requests n out_image st) in
  (handler_calls (snd st') <= S (handler_calls (snd st)))%nat
  /\ (settled (fst st) -> handler_calls (snd st') = handler_calls (snd st)).
Proof.
  cbn zeta. split.
  - revert st. induction n as [|n IH]; intro st; [simpl; lia|].
    rewrite start_requests_snoc_state.
    destruct (start_request_calls out_image st) as [_ [Hsame|[Hone Hset]]].
    + specialize (IH (snd (vips_foreign_load_start out_image st))). lia.
    + rewrite (start_requests_settled n out_image _ Hset). lia.
  - intro Hs. rewrite (start_requests_settled n out_image st Hs). reflexivity.
Qed.

Lemma start_request_region (out_image : VipsImage) (st : LoadState) :
  checked out_image (fst st) ->
  let (res, st') := vips_foreign_load_start out_image st in
  checked out_image (fst st')
  /\ (forall r, real (fst st) = Some r -> real (fst st') = Some r)
  /\ forall region, res = Some region ->
       exists r, real (fst st') = Some r
                 /\ vips_foreign_load_iscompat r out_image = true
                 /\ vips_region_new r = Some region.
Proof.
  destruct st as [load log]. unfold vips_foreign_load_start, checked. cbn [fst snd].
  intro Hchk.
  destruct (error load) eqn:Herr.
  - cbn [fst]. split; [intros x _; left; exact Herr|].
    split; [intros x Hx; congruence|discriminate].
  - destruct (real load) as [r|] eqn:Hreal.
    + cbn [fst].
      assert (Hc : vips_foreign_load_iscompat r out_image = true)
        by (destruct (Hchk r eq_refl) as [He|Hc]; [discriminate|exact Hc]).
      split; [intros x Hx; right; assert (x = r) by congruence; subst x; exact Hc|].
      split; [intros x Hx; congruence|].
      intros region Hreg. exists r. repeat split; congruence.
    + pose proof (vips_foreign_load_temp_keeps_real load) as Hkeep.
      pose proof (vips_foreign_load_temp_keeps_error load) as Hkeep_err.
      destruct (vips_foreign_load_temp load) as [[r|] load1] eqn:Htemp;
        cbn [snd] in Hkeep, Hkeep_err.
      2:{ cbn [fst]. split.
          - intros r Hr. congruence.
          - split; [intros r Hr; discriminate|discriminate]. }
      destruct (class_load (set_real load1 (Some r))) as [status r'].
      destruct (negb (status =? 0)) eqn:Hst; cbn [orb].
      { cbn [fst]. split; [intros x _; left; reflexivity|].
        split; [intros x Hx; discriminate|discriminate]. }
      destruct (negb (vips_image_pio_input r' =? 0)) eqn:Hpio; cbn [orb].
      { cbn [fst]. split; [intros x _; left; reflexivity|].
        split; [intros x Hx; discriminate|discriminate]. }
      destruct (vips_foreign_load_iscompat r' out_image) eqn:Hcompat; cbn [negb].
      2:{ cbn [fst]. split; [intros x _; left; reflexivity|].
          split; [intros x Hx; discriminate|discriminate]. }
      assert (Hnew : forall x, real (set_real (set_real load1 (Some r)) (Some r')) = Some x ->
                     vips_foreign_load_iscompat x out_image = true).
      { intros x Hx. simpl in Hx. injection Hx as <-. exact Hcompat. }
      destruct (negb (vips_image_pipelinev _ _ =? 0)); cbn [fst].
      * split; [intros x Hx; right; apply Hnew; exact Hx|].
        split; [intros x Hx; discriminate|discriminate].
      * split; [intros x Hx; right; apply Hnew; exact Hx|].
        split; [intros x Hx; discriminate|].
        intros region Hreg. exists r'. repeat split; assumption.
Qed.

(** X12.  Start requests on a load object that begins without a decoded
    image: every region a request returns is a region on the decoded image
    the object holds at the end, and that image agrees with the
    header-declared image in width, height, bands, coding and band
    format. *)
Theorem regions_are_on_an_image_matching_the_header (n : nat)
    (out_image : VipsImage) (st : LoadState) :
  real (fst st) = None ->
  let (results, st') := start_requests n out_image st in
  forall region, In (Some region) results ->
    exists r, real (fst st') = Some r
              /\ vips_foreign_load_iscompat r out_image = true
              /\ vips_region_new r = Some region.
Proof.
  intro Hnone.
  assert (Hchk : checked out_image (fst st))
    by (intros r Hr; congruence).
  clear Hnone. revert st Hchk.
  induction n as [|n IH]; intros st Hchk; [intros region []|].
  cbn [start_requests].
  pose proof (start_request_region out_image st Hchk) as Hstep.
  destruct (vips_foreign_load_start out_image st) as [res st1].
  destruct Hstep as (Hchk1 & Hkeep & Hreg).
  specialize (IH st1 Hchk1).
  assert (Hstable : forall r, real (fst st1) = Some r ->
            real (fst (snd (start_requests n out_image st1))) = Some r).
  { clear IH Hreg Hkeep. revert st1 Hchk1.
    induction n as [|m IHm]; intros st1 Hchk1 r Hr; [exact Hr|].
    rewrite start_requests_snoc_state.
    pose proof (start_request_region out_image st1 Hchk1) as Hs.
    destruct (vips_foreign_load_start out_image st1) as [res1 st2].
    destruct Hs as (Hchk2 & Hkeep2 & _). cbn [snd].
    apply IHm; [exact Hchk2|apply Hkeep2; exact Hr]. }
  destruct (start_requests n out_image st1) as [rs st2]. cbn [snd] in Hstable.
  intros region [Hhead|Htail].
  - destruct (Hreg region Hhead) as (r & Hr & Hc & Hnew).
    exists r. repeat split; [apply Hstable; exact Hr|exact Hc|exact Hnew].
  - apply IH. exact Htail.
Qed.

(** X13.  A start in which decoding succeeds and the decoded image
    matches, but linking the pipeline fails: the request fails, yet the
    object is not marked failed and keeps the decoded image, so every
    later request returns a region on it without calling the handler
    again. *)
Theorem failed_pipeline_link_is_not_remembered (out_image : VipsImage)
    (load load1 : VipsForeignLoad) (log : list event) (r : VipsImage) :
  error load = false ->
  real load = None ->
  vips_foreign_load_temp load = (Some r, load1) ->
  let decoded := snd (class_load (set_real load1 (Some r))) in
  fst (class_load (set_real load1 (Some r))) = 0 ->
  vips_image_pio_input decoded = 0 ->
  vips_foreign_load_iscompat decoded out_image = true ->
  vips_image_pipelinev (out load1) decoded <> 0 ->
  exists st',
    vips_foreign_load_start out_image (load, log) = (None, st')
    /\ error (fst st') = false
    /\ real (fst st') = Some decoded
    /\ snd st' = log ++ [handler_load_called]
    /\ forall n, start_requests n out_image st' =
                 (repeat (vips_region_new decoded) n, st').
Proof.
  intros Herr Hreal Htemp decoded Hstatus Hpio Hcompat Hlink.
  pose proof (vips_foreign_load_temp_keeps_error load) as Hkeep.
  rewrite Htemp in Hkeep. cbn [snd] in Hkeep.
  unfold vips_foreign_load_start. rewrite Herr, Hreal, Htemp.
  subst decoded.
  destruct (class_load (set_real load1 (Some r))) as [status r'].
  cbn [fst snd] in *. subst status. rewrite Hpio, Hcompat.
  cbn [Z.eqb negb orb out set_real].
  destruct (Z.eqb_spec (vips_image_pipelinev (out load1) r') 0) as [Hz|_];
    [contradiction|]. cbn [negb].
  eexists. split; [reflexivity|]. cbn [fst snd].
  split; [simpl; rewrite Hkeep; exact Herr|].
  split; [reflexivity|]. split; [reflexivity|].
  induction n as [|n IH]; [reflexivity|].
  cbn [start_requests repeat].
  unfold vips_foreign_load_start at 1. cbn [error real set_real].
  rewrite Hkeep, Herr. rewrite IH. reflexivity.
Qed.

End StartFacts.

(** ** The load build *)

Section BuildFacts.
Import LoadBuild.
Context `{BuildEnv}.

Lemma build_flags_eq (fclass : VipsForeignLoadVtable)
    (object : VipsForeignLoadObject) :
  build_flags fclass object =
  if has_flag (declared_flags fclass object) VIPS_FOREIGN_PARTIAL
     && has_flag (declared_flags fclass object) VIPS_FOREIGN_SEQUENTIAL
  then Z.lxor (declared_flags fclass object) VIPS_FOREIGN_PARTIAL
  else declared_flags fclass object.
Proof.
  unfold build_flags, declared_flags.
  destruct (get_flags fclass); [rewrite Z.lor_0_l|]; reflexivity.
Qed.

(** What the stages after [build_prepare] leave alone. *)
Lemma build_later_stages_keep (fclass : VipsForeignLoadVtable)
    (object : VipsForeignLoadObject) :
  let prepared := build_prepare fclass object in
  let built := snd (fst (vips_foreign_load_build fclass object)) in
  flags (load built) = flags (load prepared)
  /\ memory (load built) = memory (load prepared)
  /\ disc (load built) = disc (load prepared)
  /\ access (load built) = access (load prepared)
  /\ nocache built = nocache prepared
  /\ revalidate built = revalidate prepared.
Proof.
  cbn zeta. unfold vips_foreign_load_build.
  destruct (negb (parent_build _ =? 0)); [repeat split|].
  unfold build_header, build_new_out.
  destruct (header fclass) as [method|].
  - destruct (method _) as [hs out'].
    destruct (negb (hs =? 0)); [repeat split|].
    destruct (build_attach _ _) as [as_ attached].
    destruct (negb (as_ =? 0)); [repeat split|].
    unfold build_mark_sequential. destruct (nonrandom _); repeat split.
  - cbn [Z.eqb negb].
    destruct (build_attach _ _) as [as_ attached].
    destruct (negb (as_ =? 0)); [repeat split|].
    unfold build_mark_sequential. destruct (nonrandom _); repeat split.
Qed.

Lemma build_prepare_fields (fclass : VipsForeignLoadVtable)
    (object : VipsForeignLoadObject) :
  let prepared := build_prepare fclass object in
  flags (load prepared) = build_flags fclass object
  /\ memory (load prepared) = memory (load object)
  /\ disc (load prepared) = disc (load object)
  /\ access (load prepared) = access (load object)
  /\ nocache prepared =
     (has_flag (build_flags fclass object) VIPS_FOREIGN_SEQUENTIAL && nonrandom object)
     || nocache object.
Proof.
  cbn zeta. unfold build_prepare, nonrandom.
  cbn [load with_load set_flags flags access].
  destruct (has_flag (build_flags fclass object) VIPS_FOREIGN_SEQUENTIAL
            && negb (VipsAccess_beq (access (load object)) VIPS_ACCESS_RANDOM));
    cbn [orb];
    match goal with |- context [if ?b then _ else _] => destruct b end;
    repeat split.
Qed.

(** The flags the build stores, against the flags the class declares. *)
Lemma build_stored_flags
    (fclass : VipsForeignLoadVtable) (object : VipsForeignLoadObject) :
  let declared := declared_flags fclass object in
  let stored := flags (load (snd (fst (vips_foreign_load_build fclass object)))) in
  has_flag stored VIPS_FOREIGN_PARTIAL && has_flag stored VIPS_FOREIGN_SEQUENTIAL
    = false
  /\ (forall n, 1 <= n -> Z.testbit stored n = Z.testbit declared n)
  /\ (has_flag declared VIPS_FOREIGN_PARTIAL && has_flag declared VIPS_FOREIGN_SEQUENTIAL
        = false -> stored = declared).
Proof.
  cbn zeta.
  destruct (build_later_stages_keep fclass object) as (-> & _).
  destruct (build_prepare_fields fclass object) as (-> & _).
  rewrite build_flags_eq.
  set (declared := declared_flags fclass object).
  change VIPS_FOREIGN_PARTIAL with (2 ^ 0).
  change VIPS_FOREIGN_SEQUENTIAL with (2 ^ 2).
  destruct (has_flag declared (2 ^ 0) && has_flag declared (2 ^ 2)) eqn:Hboth.
  - apply andb_true_iff in Hboth. destruct Hboth as [Hp Hs].
    rewrite has_flag_testbit in Hp by lia.
    split; [|split].
    + rewrite (has_flag_testbit (Z.lxor declared (2 ^ 0)) 0) by lia.
      rewrite Z.lxor_spec, Hp, Z.pow2_bits_true by lia. reflexivity.
    + intros n Hn. rewrite Z.lxor_spec, Z.pow2_bits_false by lia.
      apply xorb_false_r.
    + discriminate.
  - split; [exact Hboth|]. split; [reflexivity|reflexivity].
Qed.

(** X14.  Whatever the class declares, the flags the build stores on the
    load object never have both PARTIAL and SEQUENTIAL: when both are
    declared the PARTIAL bit is dropped and every other bit, SEQUENTIAL
    included, is kept; otherwise the declared flags are stored as they
    are. *)
Theorem load_build_makes_partial_and_sequential_exclusive
    (fclass : VipsForeignLoadVtable) (object : VipsForeignLoadObject) :
  let declared := declared_flags fclass object in
  let stored := flags (load (snd (fst (vips_foreign_load_build fclass object)))) in
  has_flag stored VIPS_FOREIGN_PARTIAL && has_flag stored VIPS_FOREIGN_SEQUENTIAL
    = false
  /\ (forall n, 1 <= n -> Z.testbit stored n = Z.testbit declared n)
  /\ (has_flag declared VIPS_FOREIGN_PARTIAL && has_flag declared VIPS_FOREIGN_SEQUENTIAL
        = false -> stored = declared).
Proof. exact (build_stored_flags fclass object). Qed.

Lemma built_sequential_flag (fclass : VipsForeignLoadVtable)
    (object : VipsForeignLoadObject) :
  let built := snd (fst (vips_foreign_load_build fclass object)) in
  has_flag (declared_flags fclass object) VIPS_FOREIGN_SEQUENTIAL = true ->
  has_flag (flags (load built)) VIPS_FOREIGN_SEQUENTIAL = true
  /\ has_flag (flags (load built)) VIPS_FOREIGN_PARTIAL = false
  /\ flags (load built) = build_flags fclass object.
Proof.
  cbn zeta. intro Hseq.
  destruct (build_stored_flags fclass object)
    as (Hexcl & Hbits & _). cbn zeta in *.
  assert (Hseq' : has_flag (flags (load (snd (fst (vips_foreign_load_build fclass object)))))
                    VIPS_FOREIGN_SEQUENTIAL = true).
  { change VIPS_FOREIGN_SEQUENTIAL with (2 ^ 2) in *.
    rewrite has_flag_testbit in * by lia. rewrite Hbits by lia. exact Hseq. }
  split; [exact Hseq'|]. split.
  - rewrite Hseq', andb_true_r in Hexcl. exact Hexcl.
  - destruct (build_later_stages_keep fclass object) as (-> & _).
    destruct (build_prepare_fields fclass object) as (-> & _). reflexivity.
Qed.

(** X15.  A loader that declares SEQUENTIAL, asked for non-random access,
    with the memory flag clear and disc not forced off: the start function
    opens the image of the built object directly ([vips_image_new]), and
    the operation flags of the built object include NOCACHE. *)
Theorem sequential_direct_read_is_not_cached `{LoadEnv}
    (fclass : VipsForeignLoadVtable) (object : VipsForeignLoadObject)
    (parent_flags : Z) :
  let built := snd (fst (vips_foreign_load_build fclass object)) in
  has_flag (declared_flags fclass object) VIPS_FOREIGN_SEQUENTIAL = true ->
  access (load object) <> VIPS_ACCESS_RANDOM ->
  memory (load object) = false ->
  disc (load object) = true ->
  fst (vips_foreign_load_temp (load built)) = vips_image_new
  /\ has_flag (vips_foreign_load_operation_get_flags parent_flags built)
       VIPS_OPERATION_NOCACHE = true.
Proof.
  cbn zeta. intros Hseq Haccess Hmem Hdisc.
  destruct (built_sequential_flag fclass object Hseq) as (Hseq' & Hpart & Hflags).
  destruct (build_later_stages_keep fclass object) as (_ & Hm & Hd & Ha & Hnc & _).
  destruct (build_prepare_fields fclass object) as (_ & Hm' & Hd' & Ha' & Hnc').
  cbn zeta in *.
  set (built := snd (fst (vips_foreign_load_build fclass object))) in *.
  assert (Hnr : negb (VipsAccess_beq (access (load object)) VIPS_ACCESS_RANDOM) = true).
  { destruct (access (load object)); try reflexivity. contradiction. }
  split.
  - unfold vips_foreign_load_temp. rewrite Hd, Hd', Hdisc. cbn [negb].
    rewrite Hm, Hm', Hmem, Hpart, Hseq', Ha, Ha', Hnr. reflexivity.
  - unfold vips_foreign_load_operation_get_flags.
    rewrite Hnc, Hnc'. rewrite <- Hflags, Hseq'. unfold nonrandom. rewrite Hnr.
    cbn [andb orb].
    change VIPS_OPERATION_NOCACHE with (2 ^ 2).
    rewrite has_flag_testbit by lia.
    destruct (revalidate built).
    + change VIPS_OPERATION_REVALIDATE with (2 ^ 6).
      rewrite !Z.lor_spec, Z.pow2_bits_true by lia.
      rewrite orb_true_r. reflexivity.
    + rewrite Z.lor_spec, Z.pow2_bits_true by lia. apply orb_true_r.
Qed.

(** X16.  A loader that declares SEQUENTIAL but is asked for random
    access, with the memory flag clear and disc not forced off: the start
    function decodes into a temporary file or into memory, by size, never
    directly; and the build leaves the "nocache" field as it was. *)
Theorem sequential_loader_in_random_mode_is_decoded_whole `{LoadEnv}
    (fclass : VipsForeignLoadVtable) (object : VipsForeignLoadObject) :
  let built := snd (fst (vips_foreign_load_build fclass object)) in
  has_flag (declared_flags fclass object) VIPS_FOREIGN_SEQUENTIAL = true ->
  access (load object) = VIPS_ACCESS_RANDOM ->
  memory (load object) = false ->
  disc (load object) = true ->
  fst (vips_foreign_load_temp (load built)) =
    (if VIPS_IMAGE_SIZEOF_IMAGE (out (load built)) >? vips_get_disc_threshold
     then vips_image_new_temp_file "%s.v"
     else vips_image_new_memory)
  /\ nocache built = nocache object.
Proof.
  cbn zeta. intros Hseq Haccess Hmem Hdisc.
  destruct (built_sequential_flag fclass object Hseq) as (Hseq' & Hpart & Hflags).
  destruct (build_later_stages_keep fclass object) as (_ & Hm & Hd & Ha & Hnc & _).
  destruct (build_prepare_fields fclass object) as (_ & Hm' & Hd' & Ha' & Hnc').
  cbn zeta in *.
  set (built := snd (fst (vips_foreign_load_build fclass object))) in *.
  split.
  - unfold vips_foreign_load_temp. rewrite Hd, Hd', Hdisc. cbn [negb].
    rewrite Hm, Hm', Hmem, Hpart, Hseq', Ha, Ha', Haccess.
    cbn [VipsAccess_beq negb andb].
    destruct (_ >? _); reflexivity.
  - rewrite Hnc, Hnc'. unfold nonrandom. rewrite Haccess.
    cbn [VipsAccess_beq negb]. rewrite andb_false_r. reflexivity.
Qed.

(** X17.  The outcome of the build: its status is 0 or -1; the start and
    generate functions are attached to the output image exactly when the
    build succeeds and the class has a [load] method; a build that
    succeeds has run the header method, if there is one, with status 0;
    and after a successful build with non-random access the output image
    carries the sequential marker with value 1 as its last metadata
    entry. *)
Theorem load_build_outcome (fclass : VipsForeignLoadVtable)
    (object : VipsForeignLoadObject) :
  let '(status, built, attached) := vips_foreign_load_build fclass object in
  (status = 0 \/ status = -1)
  /\ (attached = true <-> status = 0 /\ load_defined fclass = true)
  /\ (status = 0 -> forall method, header fclass = Some method ->
        fst (method (build_new_out fclass (build_prepare fclass object))) = 0)
  /\ (status = 0 -> access (load object) <> VIPS_ACCESS_RANDOM ->
      exists m, meta (out (load built)) = m ++ [(VIPS_META_SEQUENTIAL, GInt 1)]).
Proof.
  unfold vips_foreign_load_build.
  destruct (build_prepare_fields fclass object) as (_ & _ & _ & Ha & _).
  cbn zeta in Ha.
  destruct (negb (parent_build _ =? 0)).
  { split; [right; reflexivity|].
    split; [split; [discriminate|intros [Hs _]; discriminate]|].
    split; intro Hs; discriminate. }
  set (object2 := build_new_out fclass (build_prepare fclass object)).
  assert (Ha2 : access (load object2) = access (load object))
    by (rewrite <- Ha; reflexivity).
  unfold build_header.
  assert (Hmark : forall o, access (load o) = access (load object) ->
            access (load object) <> VIPS_ACCESS_RANDOM ->
            exists m, meta (out (load (build_mark_sequential o))) =
                      m ++ [(VIPS_META_SEQUENTIAL, GInt 1)]).
  { intros o Ho Hnr. unfold build_mark_sequential, nonrandom. rewrite Ho.
    destruct (access (load object)); [contradiction| |];
      cbn [VipsAccess_beq negb with_load load set_out out vips_image_set meta set_meta];
      eexists; reflexivity. }
  assert (Hattach : forall o,
            let (as_, attached) := build_attach fclass o in
            (as_ = 0 \/ as_ = -1)
            /\ (attached = true <-> as_ = 0 /\ load_defined fclass = true)).
  { intro o. unfold build_attach. destruct (load_defined fclass).
    - destruct (negb (_ =? 0)); [split; [right; reflexivity|];
                                 split; [discriminate|intros [Hs _]; discriminate]|].
      destruct (negb (_ =? 0)); [split; [right; reflexivity|];
                                 split; [discriminate|intros [Hs _]; discriminate]|].
      split; [left; reflexivity|tauto].
    - split; [left; reflexivity|].
      split; [discriminate|intros [_ Hd]; discriminate]. }
  destruct (header fclass) as [method|].
  - destruct (method object2) as [hstatus out'] eqn:Hrun.
    destruct (Z.eqb_spec hstatus 0) as [->|Hh]; cbn [negb].
    2:{ split; [right; reflexivity|].
        split; [split; [discriminate|intros [Hs _]; discriminate]|].
        split; intro Hs; discriminate. }
    specialize (Hattach (with_load object2 (set_out (load object2) out'))).
    destruct (build_attach _ _) as [as_ attached].
    destruct Hattach as [Has Hatt].
    destruct (Z.eqb_spec as_ 0) as [->|Hne]; cbn [negb].
    + split; [left; reflexivity|]. split; [exact Hatt|].
      split.
      * intros _ m0 Hm0. injection Hm0 as <-. rewrite Hrun. reflexivity.
      * intros _ Hnr. apply Hmark; [exact Ha2|exact Hnr].
    + split; [right; reflexivity|].
      split; [split; [discriminate|intros [Hs _]; discriminate]|].
      split; intro Hs; discriminate.
  - cbn [Z.eqb negb].
    specialize (Hattach object2).
    destruct (build_attach _ _) as [as_ attached].
    destruct Hattach as [Has Hatt].
    destruct (Z.eqb_spec as_ 0) as [->|Hne]; cbn [negb].
    + split; [left; reflexivity|]. split; [exact Hatt|].
      split; [intros _ m0 Hm0; discriminate|].
      intros _ Hnr. apply Hmark; [exact Ha2|exact Hnr].
    + split; [right; reflexivity|].
      split; [split; [discriminate|intros [Hs _]; discriminate]|].
      split; intro Hs; discriminate.
Qed.

End BuildFacts.

(** ** More on the saveable normaliser *)

Section PipelineFacts.
Context `{ImageOps}.

Lemma bind_some (A B : Type) (c : Conv A) (k : A -> Conv B) (b : B)
    (ops : list (Op VipsArrayDouble)) :
  bind c k = Some (b, ops) ->
  exists a ops1 ops2, c = Some (a, ops1) /\ k a = Some (b, ops2)
                      /\ ops = ops1 ++ ops2.
Proof.
  unfold bind. destruct c as [[a ops1]|]; [|discriminate].
  destruct (k a) as [[b' ops2]|] eqn:Hk; [|discriminate].
  intro Heq. injection Heq as <- <-. exists a, ops1, ops2. tauto.
Qed.

Lemma call_some (op : Op VipsArrayDouble) (im im' : VipsImage)
    (ops : list (Op VipsArrayDouble)) :
  call op im = Some (im', ops) -> ops = [op].
Proof.
  unfold call. destruct (run_op op im); [|discriminate].
  intro Heq. injection Heq as _ <-. reflexivity.
Qed.

Lemma ret_some (A : Type) (a b : A) (ops : list (Op VipsArrayDouble)) :
  ret a = Some (b, ops) -> ops = [].
Proof. unfold ret. intro Heq. injection Heq as _ <-. reflexivity. Qed.

(** The colour-model stage applies colour operations only. *)
Lemma apply_saveable_ops (in_ out_ : VipsImage) (saveable : Z)
    (ops : list (Op VipsArrayDouble)) :
  vips_foreign_apply_saveable in_ saveable = Some (out_, ops) ->
  forallb (@is_colour_op VipsArrayDouble) ops = true.
Proof.
  unfold vips_foreign_apply_saveable.
  destruct (saveable =? VIPS_FOREIGN_SAVEABLE_ANY).
  { intro Hr. rewrite (ret_some _ _ _ _ Hr). reflexivity. }
  intro Hb. apply bind_some in Hb. destruct Hb as (in1 & o1 & r1 & H1 & Hb & ->).
  apply bind_some in Hb. destruct Hb as (in2 & o2 & r2 & H2 & Hb & ->).
  assert (Ho1 : forallb (@is_colour_op VipsArrayDouble) o1 = true).
  { destruct (VipsCoding_beq (Coding in_) VIPS_CODING_LABQ).
    - rewrite (call_some _ _ _ _ H1). reflexivity.
    - rewrite (ret_some _ _ _ _ H1). reflexivity. }
  assert (Ho2 : forallb (@is_colour_op VipsArrayDouble) o2 = true).
  { destruct (VipsCoding_beq (Coding in1) VIPS_CODING_RAD).
    - rewrite (call_some _ _ _ _ H2). reflexivity.
    - rewrite (ret_some _ _ _ _ H2). reflexivity. }
  rewrite !forallb_app, Ho1, Ho2. cbn [andb].
  destruct (has_flag saveable VIPS_FOREIGN_SAVEABLE_MONO && (Bands in2 <? 3)).
  { rewrite (ret_some _ _ _ _ Hb). reflexivity. }
  destruct (is_cmyk_looking in2 && has_flag saveable VIPS_FOREIGN_SAVEABLE_CMYK).
  { rewrite (ret_some _ _ _ _ Hb). reflexivity. }
  apply bind_some in Hb. destruct Hb as (in3 & o3 & r3 & H3 & Hb & ->).
  assert (Ho3 : forallb (@is_colour_op VipsArrayDouble) o3 = true).
  { destruct (is_cmyk_looking in2).
    - rewrite (call_some _ _ _ _ H3). reflexivity.
    - rewrite (ret_some _ _ _ _ H3). reflexivity. }
  rewrite forallb_app, Ho3. cbn [andb].
  destruct (has_flag saveable VIPS_FOREIGN_SAVEABLE_RGB).
  { rewrite (call_some _ _ _ _ Hb). reflexivity. }
  destruct (has_flag saveable VIPS_FOREIGN_SAVEABLE_CMYK).
  { rewrite (call_some _ _ _ _ Hb). reflexivity. }
  destruct (has_flag saveable VIPS_FOREIGN_SAVEABLE_MONO).
  { rewrite (call_some _ _ _ _ Hb). reflexivity. }
  discriminate.
Qed.

(** The operations of a successful normalisation, stage by stage. *)
Lemma convert_saveable_stage_ops
    (in_ out_ : VipsImage) (saveable : Z) (format : format_table) (coding : Z)
    (background : VipsArrayDouble) (ops : list (Op VipsArrayDouble)) :
  vips__foreign_convert_saveable in_ saveable format coding background
    = Some (out_, ops) ->
  exists colour flatten extract cast recode,
    ops = colour ++ flatten ++ extract ++ cast ++ recode
    /\ forallb (@is_colour_op VipsArrayDouble) colour = true
    /\ (flatten = []
        \/ (flatten = [vips_flatten background]
            /\ has_flag saveable VIPS_FOREIGN_SAVEABLE_ALPHA = false))
    /\ (extract = []
        \/ exists n, extract = [vips_extract_band 0 n] /\ 0 < n
                     /\ saveable <> VIPS_FOREIGN_SAVEABLE_ANY)
    /\ (cast = []
        \/ exists im shift, cast = [vips_cast (format (BandFmt im)) shift])
    /\ (recode = [] \/ recode = [vips_Lab2LabQ] \/ recode = [vips_float2rad]
        \/ recode = [vips_image_decode]).
Proof.
  unfold vips__foreign_convert_saveable.
  assert (Hnone : forall x, ret in_ = Some (x, ops) ->
            exists colour flatten extract cast recode : list (Op VipsArrayDouble),
              ops = colour ++ flatten ++ extract ++ cast ++ recode
              /\ forallb (@is_colour_op VipsArrayDouble) colour = true
              /\ (flatten = []
                  \/ (flatten = [vips_flatten background]
                      /\ has_flag saveable VIPS_FOREIGN_SAVEABLE_ALPHA = false))
              /\ (extract = []
                  \/ exists n, extract = [vips_extract_band 0 n] /\ 0 < n
                               /\ saveable <> VIPS_FOREIGN_SAVEABLE_ANY)
              /\ (cast = []
        \/ exists im shift, cast = [vips_cast (format (BandFmt im)) shift])
              /\ (recode = [] \/ recode = [vips_Lab2LabQ] \/ recode = [vips_float2rad]
                  \/ recode = [vips_image_decode])).
  { intros x Hr. rewrite (ret_some _ _ _ _ Hr).
    exists [], [], [], [], []. repeat split; auto. }
  destruct (_ || _); [apply Hnone|].
  destruct (_ && _ && _); [apply Hnone|]. clear Hnone.
  intro Hb. apply bind_some in Hb. destruct Hb as (in1 & o1 & r1 & H1 & Hb & ->).
  apply bind_some in Hb. destruct Hb as (in2 & o2 & r2 & H2 & Hb & ->).
  apply bind_some in Hb. destruct Hb as (in3 & o3 & r3 & H3 & Hb & ->).
  apply bind_some in Hb. destruct Hb as (in4 & o4 & r4 & H4 & H5 & ->).
  exists o1, o2, o3, o4, r4. split; [reflexivity|].
  split; [eapply apply_saveable_ops; exact H1|].
  split.
  { unfold flatten_alpha_step in H2.
    destruct (has_flag saveable VIPS_FOREIGN_SAVEABLE_ALPHA).
    - rewrite andb_false_r in H2. left. eapply ret_some. exact H2.
    - destruct (_ && _ && _).
      + right. split; [eapply call_some; exact H2|reflexivity].
      + left. eapply ret_some. exact H2. }
  split.
  { unfold drop_excess_bands_step in H3.
    destruct (VipsCoding_beq (Coding in2) VIPS_CODING_NONE);
      [|left; eapply ret_some; exact H3].
    destruct (Z.eqb_spec saveable VIPS_FOREIGN_SAVEABLE_ANY) as [Hany|Hany].
    - destruct (Z.gtb_spec (Bands in2) (Bands in2)) as [Hgt|_]; [lia|].
      rewrite andb_false_r in H3. left. eapply ret_some. exact H3.
    - match type of H3 with
      | (if (?m >? 0) && _ then _ else _) = _ =>
          destruct (Z.gtb_spec m 0) as [Hpos|_]; cbn [andb] in H3;
            [destruct (Bands in2 >? m);
               [right; exists m; split; [eapply call_some; exact H3|tauto]
               |left; eapply ret_some; exact H3]
            |left; eapply ret_some; exact H3]
      end. }
  split.
  { unfold cast_step in H4.
    destruct (VipsCoding_beq (Coding in3) VIPS_CODING_NONE).
    - right. exists in3. eexists. eapply call_some. exact H4.
    - left. eapply ret_some. exact H4. }
  unfold recode_step in H5.
  destruct (_ || _); [left; eapply ret_some; exact H5|].
  destruct (has_flag coding VIPS_FOREIGN_CODING_LABQ);
    [right; left; eapply call_some; exact H5|].
  destruct (has_flag coding VIPS_FOREIGN_CODING_RAD);
    [right; right; left; eapply call_some; exact H5|].
  destruct (has_flag coding VIPS_FOREIGN_CODING_NONE);
    [right; right; right; eapply call_some; exact H5|].
  left. eapply ret_some. exact H5.
Qed.

(** X18.  The operations a successful normalisation has applied come in
    the order of its stages: colour operations first, then at most one
    flatten (against the given background, and only when the mask has no
    alpha), then at most one band extraction (from band 0, of a positive
    number of bands, and never for the ANY mask), then at most one cast
    (to the format the table gives for the format of some image), then at
    most one re-coding operation. *)
Theorem convert_saveable_applies_operations_in_stage_order
    (in_ out_ : VipsImage) (saveable : Z) (format : format_table) (coding : Z)
    (background : VipsArrayDouble) (ops : list (Op VipsArrayDouble)) :
  vips__foreign_convert_saveable in_ saveable format coding background
    = Some (out_, ops) ->
  exists colour flatten extract cast recode,
    ops = colour ++ flatten ++ extract ++ cast ++ recode
    /\ forallb (@is_colour_op VipsArrayDouble) colour = true
    /\ (flatten = []
        \/ (flatten = [vips_flatten background]
            /\ has_flag saveable VIPS_FOREIGN_SAVEABLE_ALPHA = false))
    /\ (extract = []
        \/ exists n, extract = [vips_extract_band 0 n] /\ 0 < n
                     /\ saveable <> VIPS_FOREIGN_SAVEABLE_ANY)
    /\ (cast = []
        \/ exists im shift, cast = [vips_cast (format (BandFmt im)) shift])
    /\ (recode = [] \/ recode = [vips_Lab2LabQ] \/ recode = [vips_float2rad]
        \/ recode = [vips_image_decode]).
Proof.
  exact (convert_saveable_stage_ops in_ out_ saveable format coding
           background ops).
Qed.

(** X19.  A saver that declares alpha never has alpha flattened away, and
    a saver with the ANY mask never has bands dropped: the operations of a
    successful normalisation contain no flatten in the first case and no
    band extraction in the second. *)
Theorem convert_saveable_respects_alpha_and_any
    (in_ out_ : VipsImage) (saveable : Z) (format : format_table) (coding : Z)
    (background : VipsArrayDouble) (ops : list (Op VipsArrayDouble)) :
  vips__foreign_convert_saveable in_ saveable format coding background
    = Some (out_, ops) ->
  (has_flag saveable VIPS_FOREIGN_SAVEABLE_ALPHA = true ->
   forall bg, ~ In (vips_flatten bg) ops)
  /\ (saveable = VIPS_FOREIGN_SAVEABLE_ANY ->
      forall band n, ~ In (vips_extract_band band n) ops).
Proof.
  intro Hconv.
  destruct (convert_saveable_stage_ops
              in_ out_ saveable format coding background ops Hconv)
    as (colour & fl & ex & ca & re & -> & Hcol & Hfl & Hex & Hca & Hre).
  assert (Hcolour : forall op, In op colour ->
            @is_colour_op VipsArrayDouble op = true).
  { apply forallb_forall. exact Hcol. }
  split.
  - intros Halpha bg Hin.
    repeat (apply in_app_or in Hin; destruct Hin as [Hin|Hin]).
    + apply Hcolour in Hin. discriminate.
    + destruct Hfl as [->|[-> Hno]]; [destruct Hin|congruence].
    + destruct Hex as [->|(n & -> & _)]; [destruct Hin|].
      destruct Hin as [Hin|[]]; discriminate.
    + destruct Hca as [->|(im & s & ->)]; [destruct Hin|].
      destruct Hin as [Hin|[]]; discriminate.
    + destruct Hre as [-> | [-> | [-> | ->]]]; [destruct Hin| | |];
        destruct Hin as [Hin|[]]; discriminate.
  - intros Hany band n Hin.
    repeat (apply in_app_or in Hin; destruct Hin as [Hin|Hin]).
    + apply Hcolour in Hin. discriminate.
    + destruct Hfl as [->|[-> Hno]]; [destruct Hin|].
      destruct Hin as [Hin|[]]; discriminate.
    + destruct Hex as [->|(m & -> & _ & Hne)]; [destruct Hin|contradiction].
    + destruct Hca as [->|(im & s & ->)]; [destruct Hin|].
      destruct Hin as [Hin|[]]; discriminate.
    + destruct Hre as [-> | [-> | [-> | ->]]]; [destruct Hin| | |];
        destruct Hin as [Hin|[]]; discriminate.
Qed.

(** X20.  A saveable mask that is not ANY and names none of mono, RGB and
    CMYK: unless the image is in a coding the saver accepts as it is,
    normalisation fails ("saver does not support any output type"),
    whatever the image operations do. *)
Theorem convert_saveable_fails_without_colour_model
    (in_ : VipsImage) (saveable : Z) (format : format_table) (coding : Z)
    (background : VipsArrayDouble) :
  coding_accepted in_ coding = false ->
  saveable <> VIPS_FOREIGN_SAVEABLE_ANY ->
  names_colour_model saveable = false ->
  vips__foreign_convert_saveable in_ saveable format coding background = None.
Proof.
  unfold coding_accepted, names_colour_model. intros Hcoding Hany Hmodel.
  apply orb_false_iff in Hmodel. destruct Hmodel as [Hmodel Hcmyk].
  apply orb_false_iff in Hmodel. destruct Hmodel as [Hmono Hrgb].
  unfold vips__foreign_convert_saveable. rewrite Hcoding.
  destruct (Z.eqb_spec saveable VIPS_FOREIGN_SAVEABLE_ANY) as [|_]; [contradiction|].
  rewrite andb_false_r. cbn [andb].
  assert (Hfail : vips_foreign_apply_saveable in_ saveable = None).
  { unfold vips_foreign_apply_saveable.
    destruct (Z.eqb_spec saveable VIPS_FOREIGN_SAVEABLE_ANY) as [|_]; [contradiction|].
    rewrite Hmono, Hrgb, Hcmyk. cbn [andb]. unfold bind.
    destruct (if VipsCoding_beq (Coding in_) VIPS_CODING_LABQ then _ else _)
      as [[in1 o1]|]; [|reflexivity].
    destruct (if VipsCoding_beq (Coding in1) VIPS_CODING_RAD then _ else _)
      as [[in2 o2]|]; [|reflexivity].
    rewrite andb_false_r.
    destruct (if is_cmyk_looking in2 then _ else _) as [[in3 o3]|]; reflexivity. }
  unfold bind at 1. rewrite Hfail. reflexivity.
Qed.

(** X21.  When every image operation succeeds, normalisation fails for no
    other reason: with the ANY mask, or a mask that names mono, RGB or
    CMYK, it returns an image. *)
Theorem convert_saveable_succeeds_when_operations_do
    (in_ : VipsImage) (saveable : Z) (format : format_table) (coding : Z)
    (background : VipsArrayDouble) :
  (forall op im, run_op op im <> None) ->
  saveable = VIPS_FOREIGN_SAVEABLE_ANY \/ names_colour_model saveable = true ->
  exists out_ ops,
    vips__foreign_convert_saveable in_ saveable format coding background
      = Some (out_, ops).
Proof.
  intros Htotal Hmask.
  assert (Hcall : forall op im, exists im', call op im = Some (im', [op])).
  { intros op im. unfold call. destruct (run_op op im) as [im'|] eqn:Hrun.
    - exists im'. reflexivity.
    - exfalso. exact (Htotal op im Hrun). }
  assert (Hstep : forall (c : Conv VipsImage) (k : VipsImage -> Conv VipsImage),
            (exists a o, c = Some (a, o)) ->
            (forall a, exists b o, k a = Some (b, o)) ->
            exists b o, bind c k = Some (b, o)).
  { intros c k (a & o & ->) Hk. destruct (Hk a) as (b & o' & Hb).
    unfold bind. rewrite Hb. eexists _, _. reflexivity. }
  assert (Hret : forall im : VipsImage, exists a o, ret im = Some (a, o)).
  { intro im. eexists _, _. reflexivity. }
  assert (Hcall' : forall op im, exists a o, call op im = Some (a, o)).
  { intros op im. destruct (Hcall op im) as (im' & Hc). eexists _, _. exact Hc. }
  unfold vips__foreign_convert_saveable.
  destruct (_ || _); [apply Hret|].
  destruct (_ && _ && _); [apply Hret|].
  apply Hstep.
  { unfold vips_foreign_apply_saveable.
    destruct (Z.eqb_spec saveable VIPS_FOREIGN_SAVEABLE_ANY) as [Hany|Hany];
      [apply Hret|].
    destruct Hmask as [Hmask|Hmask]; [contradiction|].
    apply Hstep; [destruct (VipsCoding_beq _ _); [apply Hcall'|apply Hret]|].
    intro in1.
    apply Hstep; [destruct (VipsCoding_beq _ _); [apply Hcall'|apply Hret]|].
    intro in2.
    destruct (_ && (Bands in2 <? 3)); [apply Hret|].
    destruct (is_cmyk_looking in2 && _); [apply Hret|].
    apply Hstep; [destruct (is_cmyk_looking in2); [apply Hcall'|apply Hret]|].
    intro in3. unfold names_colour_model in Hmask.
    destruct (has_flag saveable VIPS_FOREIGN_SAVEABLE_RGB); [apply Hcall'|].
    destruct (has_flag saveable VIPS_FOREIGN_SAVEABLE_CMYK); [apply Hcall'|].
    destruct (has_flag saveable VIPS_FOREIGN_SAVEABLE_MONO); [apply Hcall'|].
    discriminate. }
  intro in1. apply Hstep.
  { unfold flatten_alpha_step. destruct (_ && _ && _); [apply Hcall'|apply Hret]. }
  intro in2. apply Hstep.
  { unfold drop_excess_bands_step.
    destruct (VipsCoding_beq _ _); [|apply Hret].
    match goal with |- context [if ?b then call _ _ else _] => destruct b end;
      [apply Hcall'|apply Hret]. }
  intro in3. apply Hstep.
  { unfold cast_step. destruct (VipsCoding_beq _ _); [apply Hcall'|apply Hret]. }
  intro in4. unfold recode_step.
  destruct (_ || _); [apply Hret|].
  destruct (has_flag coding VIPS_FOREIGN_CODING_LABQ); [apply Hcall'|].
  destruct (has_flag coding VIPS_FOREIGN_CODING_RAD); [apply Hcall'|].
  destruct (has_flag coding VIPS_FOREIGN_CODING_NONE); [apply Hcall'|apply Hret].
Qed.

End PipelineFacts.

(** ** More on the metadata policy and the save build *)

Section MetadataStages.
Context `{MetaEnv}.

(** The walk and the ICC check, on the image the EXIF rebuild left: the
    walk leaves the image (mask "all") or filters its metadata; the ICC
    check leaves the image or removes the profile. *)
Lemma update_metadata_after_exif (in1 : VipsImage) (keep : Z) :
  exists in2,
    ((keep = VIPS_FOREIGN_KEEP_ALL /\ in2 = in1)
     \/ in2 = set_meta in1
                (filter (fun kv => walk_retains keep (fst kv)) (meta in1)))
    /\ let tail :=
         let (walk, in2) :=
           if negb (keep =? VIPS_FOREIGN_KEEP_ALL)
           then vips_image_map (vips_foreign_save_remove_metadata keep) in1
           else (None, in1) in
         match walk with
         | Some _ => (-1, in2)
         | None =>
             if has_flag keep VIPS_FOREIGN_KEEP_ICC
                && vips_image_get_typeof in2 VIPS_META_ICC_NAME
             then
               match vips_image_get_blob in2 VIPS_META_ICC_NAME with
               | Some data =>
                   if negb (vips_icc_is_compatible_profile in2 data)
                   then
                     let (removed, in3) :=
                       vips_image_remove in2 VIPS_META_ICC_NAME in
                     if negb removed then (-1, in3) else (0, in3)
                   else (0, in2)
               | None => (0, in2)
               end
             else (0, in2)
         end in
       tail = (0, in2)
       \/ (has_flag keep VIPS_FOREIGN_KEEP_ICC = true
           /\ tail = (0, set_meta in2 (meta_remove (meta in2) VIPS_META_ICC_NAME))).
Proof.
  assert (Hicc : forall in2 : VipsImage,
    let tail :=
      if has_flag keep VIPS_FOREIGN_KEEP_ICC
         && vips_image_get_typeof in2 VIPS_META_ICC_NAME
      then
        match vips_image_get_blob in2 VIPS_META_ICC_NAME with
        | Some data =>
            if negb (vips_icc_is_compatible_profile in2 data)
            then
              let (removed, in3) := vips_image_remove in2 VIPS_META_ICC_NAME in
              if negb removed then (-1, in3) else (0, in3)
            else (0, in2)
        | None => (0, in2)
        end
      else (0, in2) in
    tail = (0, in2)
    \/ (has_flag keep VIPS_FOREIGN_KEEP_ICC = true
        /\ tail = (0, set_meta in2 (meta_remove (meta in2) VIPS_META_ICC_NAME)))).
  { intro in2. cbv zeta.
    destruct (has_flag keep VIPS_FOREIGN_KEEP_ICC) eqn:Hk; cbn [andb];
      [|left; reflexivity].
    unfold vips_image_get_typeof, vips_image_get_blob, vips_image_remove,
      vips_icc_is_compatible_profile.
    destruct (meta_lookup (meta in2) VIPS_META_ICC_NAME) as [[d|s|i]|];
      try (left; reflexivity).
    destruct (icc_profile_fits _ _ _ d); cbn [negb];
      [left; reflexivity|right; split; reflexivity]. }
  destruct (Z.eqb_spec keep VIPS_FOREIGN_KEEP_ALL) as [Hall|Hall]; cbn [negb].
  - exists in1. split; [left; tauto|]. exact (Hicc in1).
  - rewrite vips_image_map_remove_metadata.
    eexists. split; [right; reflexivity|]. apply Hicc.
Qed.

(** The three stages of the update: the EXIF rebuild, which fails, leaves
    the image or sets its EXIF block; then the walk and the ICC check. *)
Lemma update_metadata_stages (in_ : VipsImage) (keep : Z) :
  vips__foreign_update_metadata in_ keep = (-1, in_)
  \/ exists in1 in2,
       (in1 = in_
        \/ (has_flag keep VIPS_FOREIGN_KEEP_EXIF = true
            /\ exists data,
                 in1 = vips_image_set in_ VIPS_META_EXIF_NAME (GBlob data)))
       /\ ((keep = VIPS_FOREIGN_KEEP_ALL /\ in2 = in1)
           \/ in2 = set_meta in1
                      (filter (fun kv => walk_retains keep (fst kv)) (meta in1)))
       /\ (vips__foreign_update_metadata in_ keep = (0, in2)
           \/ (has_flag keep VIPS_FOREIGN_KEEP_ICC = true
               /\ vips__foreign_update_metadata in_ keep
                  = (0, set_meta in2
                          (meta_remove (meta in2) VIPS_META_ICC_NAME)))).
Proof.
  unfold vips__foreign_update_metadata.
  destruct (has_flag keep VIPS_FOREIGN_KEEP_EXIF) eqn:Hexif.
  - unfold vips__exif_update. destruct (exif_rebuild in_) as [data|].
    + right. cbn [Z.eqb negb].
      destruct (update_metadata_after_exif
                  (vips_image_set in_ VIPS_META_EXIF_NAME (GBlob data)) keep)
        as (in2 & Hwalk & Htail).
      exists (vips_image_set in_ VIPS_META_EXIF_NAME (GBlob data)), in2.
      split; [right; split; [reflexivity|exists data; reflexivity]|].
      split; [exact Hwalk|exact Htail].
    + left. reflexivity.
  - right. cbn [Z.eqb negb].
    destruct (update_metadata_after_exif in_ keep) as (in2 & Hwalk & Htail).
    exists in_, in2. split; [left; reflexivity|].
    split; [exact Hwalk|exact Htail].
Qed.

(** The update leaves the header fields alone. *)
Lemma update_metadata_header (in_ : VipsImage) (keep : Z) :
  let out_image := snd (vips__foreign_update_metadata in_ keep) in
  Xsize out_image = Xsize in_ /\ Ysize out_image = Ysize in_
  /\ Bands out_image = Bands in_ /\ BandFmt out_image = BandFmt in_
  /\ Coding out_image = Coding in_ /\ Type_ out_image = Type_ in_.
Proof.
  cbv zeta.
  destruct (update_metadata_stages in_ keep)
    as [->|(in1 & in2 & H1 & H2 & Hres)].
  { cbn [snd]. repeat split; reflexivity. }
  assert (Hh1 : Xsize in1 = Xsize in_ /\ Ysize in1 = Ysize in_
                /\ Bands in1 = Bands in_ /\ BandFmt in1 = BandFmt in_
                /\ Coding in1 = Coding in_ /\ Type_ in1 = Type_ in_).
  { destruct H1 as [->|(_ & data & ->)]; repeat split; reflexivity. }
  assert (Hh2 : Xsize in2 = Xsize in1 /\ Ysize in2 = Ysize in1
                /\ Bands in2 = Bands in1 /\ BandFmt in2 = BandFmt in1
                /\ Coding in2 = Coding in1 /\ Type_ in2 = Type_ in1).
  { destruct H2 as [[_ ->]| ->]; repeat split; reflexivity. }
  destruct Hh1 as (A1 & A2 & A3 & A4 & A5 & A6).
  destruct Hh2 as (B1 & B2 & B3 & B4 & B5 & B6).
  destruct Hres as [->|(Hicc & ->)]; cbn [snd];
    cbn [Xsize Ysize Bands BandFmt Coding Type_ meta set_meta];
    repeat split; congruence.
Qed.

(** X22.  Whatever its outcome, the metadata update leaves the header
    fields of the image alone, and every field the walk retains under the
    keep mask (so every field that is not metadata-like) keeps its value;
    the two exceptions are the EXIF block when the mask asks for EXIF
    (it is rebuilt) and the ICC profile when the mask asks for ICC (an
    incompatible one is dropped). *)
Theorem update_metadata_leaves_header_and_retained_fields
    (in_ : VipsImage) (keep : Z) :
  let out_image := snd (vips__foreign_update_metadata in_ keep) in
  Xsize out_image = Xsize in_ /\ Ysize out_image = Ysize in_
  /\ Bands out_image = Bands in_ /\ BandFmt out_image = BandFmt in_
  /\ Coding out_image = Coding in_ /\ Type_ out_image = Type_ in_
  /\ (forall field,
        walk_retains keep field = true ->
        (field = VIPS_META_EXIF_NAME ->
         has_flag keep VIPS_FOREIGN_KEEP_EXIF = false) ->
        (field = VIPS_META_ICC_NAME ->
         has_flag keep VIPS_FOREIGN_KEEP_ICC = false) ->
        meta_lookup (meta out_image) field = meta_lookup (meta in_) field)
  /\ (forall field,
        is_metadata_field field = false ->
        meta_lookup (meta out_image) field = meta_lookup (meta in_) field).
Proof.
  cbv zeta.
  assert (Hmain :
    let out_image := snd (vips__foreign_update_metadata in_ keep) in
    Xsize out_image = Xsize in_ /\ Ysize out_image = Ysize in_
    /\ Bands out_image = Bands in_ /\ BandFmt out_image = BandFmt in_
    /\ Coding out_image = Coding in_ /\ Type_ out_image = Type_ in_
    /\ (forall field,
          walk_retains keep field = true ->
          (field = VIPS_META_EXIF_NAME ->
           has_flag keep VIPS_FOREIGN_KEEP_EXIF = false) ->
          (field = VIPS_META_ICC_NAME ->
           has_flag keep VIPS_FOREIGN_KEEP_ICC = false) ->
          meta_lookup (meta out_image) field = meta_lookup (meta in_) field)).
  { cbv zeta.
    destruct (update_metadata_stages in_ keep)
      as [->|(in1 & in2 & H1 & H2 & Hres)].
    { cbn [snd]. repeat split; reflexivity. }
    assert (Hh1 : Xsize in1 = Xsize in_ /\ Ysize in1 = Ysize in_
                  /\ Bands in1 = Bands in_ /\ BandFmt in1 = BandFmt in_
                  /\ Coding in1 = Coding in_ /\ Type_ in1 = Type_ in_).
    { destruct H1 as [->|(_ & data & ->)]; repeat split; reflexivity. }
    assert (Hh2 : Xsize in2 = Xsize in1 /\ Ysize in2 = Ysize in1
                  /\ Bands in2 = Bands in1 /\ BandFmt in2 = BandFmt in1
                  /\ Coding in2 = Coding in1 /\ Type_ in2 = Type_ in1).
    { destruct H2 as [[_ ->]| ->]; repeat split; reflexivity. }
    assert (Hl1 : forall field,
              (field = VIPS_META_EXIF_NAME ->
               has_flag keep VIPS_FOREIGN_KEEP_EXIF = false) ->
              meta_lookup (meta in1) field = meta_lookup (meta in_) field).
    { intros field Hexif. destruct H1 as [->|(Hk & data & ->)]; [reflexivity|].
      apply vips_image_set_lookup_other. intros ->.
      rewrite (Hexif eq_refl) in Hk. discriminate. }
    assert (Hl2 : forall field, walk_retains keep field = true ->
              meta_lookup (meta in2) field = meta_lookup (meta in1) field).
    { intros field Hret. destruct H2 as [[_ ->]| ->]; [reflexivity|].
      cbn [meta set_meta]. rewrite meta_lookup_filter, Hret. reflexivity. }
    destruct Hh1 as (A1 & A2 & A3 & A4 & A5 & A6).
    destruct Hh2 as (B1 & B2 & B3 & B4 & B5 & B6).
    destruct Hres as [->|(Hicc & ->)]; cbn [snd].
    - repeat split; try congruence.
      intros field Hret Hexif _. rewrite (Hl2 field Hret). exact (Hl1 field Hexif).
    - cbn [Xsize Ysize Bands BandFmt Coding Type_ meta set_meta].
      repeat split; try congruence.
      intros field Hret Hexif Hprofile.
      rewrite meta_lookup_remove_other.
      + rewrite (Hl2 field Hret). exact (Hl1 field Hexif).
      + intros ->. rewrite (Hprofile eq_refl) in Hicc. discriminate. }
  cbv zeta in Hmain.
  destruct Hmain as (A1 & A2 & A3 & A4 & A5 & A6 & Hfields).
  repeat split; try assumption.
  intros field Hplain. apply Hfields.
  - unfold walk_retains. rewrite Hplain. reflexivity.
  - intros ->. vm_compute in Hplain. discriminate.
  - intros ->. vm_compute in Hplain. discriminate.
Qed.

(** The fields a successful update leaves on the image are fields the
    walk retains. *)
Lemma update_metadata_output_is_retained (in_ out_image : VipsImage) (keep : Z)
    (field : string) :
  vips__foreign_update_metadata in_ keep = (0, out_image) ->
  is_metadata_field field = true ->
  keep_retains keep field = false ->
  meta_lookup (meta out_image) field = None.
Proof.
  intros Hupdate Hmeta Hkeep.
  assert (Hret : walk_retains keep field = false).
  { unfold walk_retains. rewrite Hmeta, Hkeep. reflexivity. }
  assert (Hother : has_flag keep VIPS_FOREIGN_KEEP_OTHER = false).
  { unfold keep_retains in Hkeep. apply orb_false_iff in Hkeep. tauto. }
  destruct (update_metadata_stages in_ keep)
    as [Hfail|(in1 & in2 & H1 & H2 & Hres)].
  { rewrite Hfail in Hupdate. discriminate. }
  assert (Hl2 : meta_lookup (meta in2) field = None).
  { destruct H2 as [[Hall _]| ->].
    - subst keep. vm_compute in Hother. discriminate.
    - cbn [meta set_meta]. rewrite meta_lookup_filter, Hret. reflexivity. }
  destruct Hres as [Hres|(Hicc & Hres)]; rewrite Hres in Hupdate;
    injection Hupdate as <-.
  - exact Hl2.
  - cbn [meta set_meta].
    destruct (string_dec field VIPS_META_ICC_NAME) as [->|Hne].
    + unfold keep_retains in Hkeep. rewrite Hicc in Hkeep.
      change (String.eqb VIPS_META_ICC_NAME VIPS_META_ICC_NAME) with true in Hkeep.
      cbn [andb] in Hkeep. rewrite !orb_true_r in Hkeep.
      cbn [orb] in Hkeep. discriminate.
    + rewrite meta_lookup_remove_other by exact Hne. exact Hl2.
Qed.

(** X23.  After a successful update no metadata-like field is left on the
    image unless the keep mask retains it: a field with one of the
    metadata prefixes or suffixes whose category the mask does not name
    (and "other" unset) is absent. *)
Theorem update_metadata_removes_what_keep_does_not_retain
    (in_ out_image : VipsImage) (keep : Z) :
  vips__foreign_update_metadata in_ keep = (0, out_image) ->
  forall field,
    is_metadata_field field = true ->
    keep_retains keep field = false ->
    vips_image_get_typeof out_image field = false.
Proof.
  intros Hupdate field Hmeta Hkeep. unfold vips_image_get_typeof.
  rewrite (update_metadata_output_is_retained in_ out_image keep field
             Hupdate Hmeta Hkeep).
  reflexivity.
Qed.

End MetadataStages.

Section SaveBuildFacts.
Context `{ImageOps} `{MetaEnv}.

(** The outcome of the save build, stage by stage. *)
Lemma save_build_stages (parent_build : VipsForeignSave -> Z)
    (class : VipsForeignSaveClass) (save : VipsForeignSave) (im : VipsImage) :
  in_ save = Some im ->
  vips_foreign_save_build parent_build class save = (-1, save_build_keep save)
  \/ exists ready0 ops x ready1,
       vips__foreign_convert_saveable im (saveable class)
         (save_format_table class) (coding class) (background save)
         = Some (ready0, ops)
       /\ run_op vips_copy ready0 = Some x
       /\ vips__foreign_update_metadata x (keep (save_build_keep save))
          = (0, ready1)
       /\ let ready2 :=
            if negb (page_height save =? 0)
            then vips_image_set ready1 VIPS_META_PAGE_HEIGHT
                   (GInt (page_height save))
            else ready1 in
          vips_foreign_save_build parent_build class save
          = (parent_build (set_ready (save_build_keep save) (Some ready2)),
             set_ready (save_build_keep save) (Some ready2)).
Proof.
  intro Hin. unfold vips_foreign_save_build.
  destruct (save_build_keep_fields save) as (Hi & Hb & Hp).
  rewrite Hi, Hin, Hb, Hp.
  destruct (vips__foreign_convert_saveable _ _ _ _ _) as [[ready0 ops]|];
    [|left; reflexivity].
  destruct (run_op vips_copy ready0) as [x|] eqn:Hcopy; [|left; reflexivity].
  destruct (vips__foreign_update_metadata x _) as [status ready1] eqn:Hupdate.
  destruct (Z.eqb_spec status 0) as [->|Hne]; cbn [negb]; [|left; reflexivity].
  right. exists ready0, ops, x, ready1. repeat split; assumption.
Qed.

(** X24.  The save build on an object with an input image.  When the
    conversion, the copy or the metadata update fails, the build returns
    -1 whatever the parent class would return, and leaves the object as
    the keep rules left it, with [ready] as it was.  When the three
    succeed, the build sets [ready] and changes nothing else, and returns
    what the parent class returns on the object with that [ready]; the
    new [ready] has the header fields of the copy of the normalised
    input, and its metadata is that of the metadata update, followed, for
    a non-zero page height, by the page height in place of any page
    height it had. *)
Theorem save_build_sets_ready_only_on_success
    (parent_build : VipsForeignSave -> Z)
    (class : VipsForeignSaveClass) (save : VipsForeignSave) (im : VipsImage) :
  in_ save = Some im ->
  let kept := save_build_keep save in
  let result := vips_foreign_save_build parent_build class save in
  let converted :=
    vips__foreign_convert_saveable im (saveable class)
      (save_format_table class) (coding class) (background save) in
  ((converted = None
    \/ (exists ready0 ops,
          converted = Some (ready0, ops) /\ run_op vips_copy ready0 = None)
    \/ (exists ready0 ops x,
          converted = Some (ready0, ops)
          /\ run_op vips_copy ready0 = Some x
          /\ fst (vips__foreign_update_metadata x (keep kept)) <> 0)) ->
   result = (-1, kept) /\ ready (snd result) = ready save)
  /\ (forall ready0 ops x ready1,
        converted = Some (ready0, ops) ->
        run_op vips_copy ready0 = Some x ->
        vips__foreign_update_metadata x (keep kept) = (0, ready1) ->
        exists r,
          snd result = set_ready kept (Some r)
          /\ fst result = parent_build (snd result)
          /\ meta r =
             (if page_height save =? 0 then meta ready1
              else meta_remove (meta ready1) VIPS_META_PAGE_HEIGHT
                   ++ [(VIPS_META_PAGE_HEIGHT, GInt (page_height save))])
          /\ Xsize r = Xsize x /\ Ysize r = Ysize x /\ Bands r = Bands x
          /\ BandFmt r = BandFmt x /\ Coding r = Coding x
          /\ Type_ r = Type_ x).
Proof.
  intro Hin. cbv zeta.
  assert (Hready : ready (save_build_keep save) = ready save).
  { unfold save_build_keep, save_build_strip.
    destruct (argument_isset save "strip" && negb (argument_isset save "keep"));
      match goal with |- context [if ?b then _ else _] => destruct b end;
      reflexivity. }
  destruct (save_build_keep_fields save) as (Hi & Hb & Hp).
  unfold vips_foreign_save_build. rewrite Hi, Hin, Hb, Hp.
  split.
  - intros [Hnone|[(ready0 & ops & Hconv & Hcopy)
                  |(ready0 & ops & x & Hconv & Hcopy & Hupdate)]].
    + rewrite Hnone. split; [reflexivity|exact Hready].
    + rewrite Hconv, Hcopy. split; [reflexivity|exact Hready].
    + rewrite Hconv, Hcopy.
      destruct (vips__foreign_update_metadata x (keep (save_build_keep save)))
        as [status ready1].
      cbn [fst] in Hupdate.
      destruct (Z.eqb_spec status 0) as [Hz|_]; [contradiction|].
      cbn [negb]. split; [reflexivity|exact Hready].
  - intros ready0 ops x ready1 Hconv Hcopy Hupdate.
    rewrite Hconv, Hcopy, Hupdate. cbn [Z.eqb negb fst snd].
    assert (Hhead := update_metadata_header x (keep (save_build_keep save))).
    cbv zeta in Hhead. rewrite Hupdate in Hhead. cbn [snd] in Hhead.
    destruct Hhead as (A1 & A2 & A3 & A4 & A5 & A6).
    eexists. split; [reflexivity|]. split; [reflexivity|].
    destruct (Z.eqb_spec (page_height save) 0) as [Hzero|Hnz]; cbn [negb].
    + repeat split; assumption.
    + cbn [Xsize Ysize Bands BandFmt Coding Type_ vips_image_set set_meta meta].
      repeat split; assumption.
Qed.

(** X25.  The deprecated "strip" argument still strips: on a fresh save
    object with "strip" set and true, and neither "keep" nor "profile"
    set, the [ready] image of a build carries no metadata-like field at
    all. *)
Theorem strip_leaves_no_metadata_on_ready
    (parent_build : VipsForeignSave -> Z)
    (class : VipsForeignSaveClass) (save : VipsForeignSave) (r : VipsImage) :
  ready save = None ->
  argument_isset save "strip" = true ->
  strip save = true ->
  argument_isset save "keep" = false ->
  argument_isset save "profile" = false ->
  ready (snd (vips_foreign_save_build parent_build class save)) = Some r ->
  forall field,
    is_metadata_field field = true ->
    vips_image_get_typeof r field = false.
Proof.
  intros Hfresh Hset Hstrip Hkeep Hprofile Hready field Hmeta.
  assert (Hmask : keep (save_build_keep save) = VIPS_FOREIGN_KEEP_NONE).
  { unfold save_build_keep, save_build_strip. rewrite Hset, Hkeep, Hstrip.
    cbn [negb andb keep set_keep argument_isset]. rewrite Hprofile.
    rewrite andb_false_r. reflexivity. }
  assert (Hsame : ready (save_build_keep save) = ready save).
  { unfold save_build_keep, save_build_strip.
    destruct (argument_isset save "strip" && negb (argument_isset save "keep"));
      match goal with |- context [if ?b then _ else _] => destruct b end;
      reflexivity. }
  destruct (in_ save) as [im|] eqn:Hin.
  - destruct (save_build_stages parent_build class save im Hin)
      as [Hres|(ready0 & ops & x & ready1 & Hconv & Hcopy & Hupdate & Hres)].
    + rewrite Hres in Hready. cbn [snd] in Hready. congruence.
    + cbv zeta in Hres. rewrite Hres in Hready.
      cbn [snd ready set_ready] in Hready. injection Hready as <-.
      rewrite Hmask in Hupdate.
      assert (Hgone : meta_lookup (meta ready1) field = None).
      { apply (update_metadata_output_is_retained x ready1
                 VIPS_FOREIGN_KEEP_NONE field Hupdate Hmeta).
        unfold keep_retains, has_flag, VIPS_FOREIGN_KEEP_NONE.
        rewrite !Z.land_0_l. cbn [Z.eqb negb]. rewrite !andb_false_r.
        reflexivity. }
      unfold vips_image_get_typeof.
      destruct (negb (page_height save =? 0)).
      * rewrite vips_image_set_lookup_other; [rewrite Hgone; reflexivity|].
        intros ->. vm_compute in Hmeta. discriminate.
      * rewrite Hgone. reflexivity.
  - unfold vips_foreign_save_build in Hready.
    destruct (save_build_keep_fields save) as (Hi & _ & _).
    rewrite Hi, Hin in Hready. cbn [snd] in Hready. congruence.
Qed.

End SaveBuildFacts.

(** ** TIFF save *)

Section TiffFacts.
Import TiffSave.
Import PrimFloat.
Context `{ImageOps} `{MetaEnv} `{TiffEnv}.

(** Every cast of a successful normalisation is to a format of the
    table. *)
Lemma convert_saveable_casts_follow_table
    (in_ out_ : VipsImage) (saveable : Z) (format : format_table) (coding : Z)
    (background : VipsArrayDouble) (ops : list (Op VipsArrayDouble))
    (f : VipsBandFormat) (shift : bool) :
  vips__foreign_convert_saveable in_ saveable format coding background
    = Some (out_, ops) ->
  In (vips_cast f shift) ops ->
  exists im, f = format (BandFmt im).
Proof.
  intros Hconv Hin.
  destruct (convert_saveable_stage_ops
              in_ out_ saveable format coding background ops Hconv)
    as (colour & fl & ex & ca & re & -> & Hcol & Hfl & Hex & Hca & Hre).
  repeat (apply in_app_or in Hin; destruct Hin as [Hin|Hin]).
  - assert (Hc : @is_colour_op VipsArrayDouble (vips_cast f shift) = true).
    { revert Hin. apply forallb_forall. exact Hcol. }
    discriminate.
  - destruct Hfl as [->|[-> _]]; [destruct Hin|].
    destruct Hin as [Hin|[]]; discriminate.
  - destruct Hex as [->|(n & -> & _)]; [destruct Hin|].
    destruct Hin as [Hin|[]]; discriminate.
  - destruct Hca as [->|(im & s & ->)]; [destruct Hin|].
    destruct Hin as [Hin|[]]. injection Hin as <- _. exists im. reflexivity.
  - destruct Hre as [-> | [-> | [-> | ->]]]; [destruct Hin| | |];
      destruct Hin as [Hin|[]]; discriminate.
Qed.

(** The build, read back from its result. *)
Lemma tiff_build_inv (parent_build : VipsForeignSave -> Z)
    (class : VipsForeignSaveClass) (tiff tiff' : VipsForeignSaveTiff)
    (status : Z) (calls : list TiffWriteCall) :
  vips_foreign_save_tiff_build parent_build class tiff
    = Some (status, tiff', calls) ->
  let parent := vips_foreign_save_build parent_build class (parent_object tiff) in
  tiff' = set_parent_object tiff (snd parent)
  /\ ((status = -1 /\ calls = []
       /\ (fst parent <> 0
           \/ exists r, ready (snd parent) = Some r
                        /\ tiff_ready class tiff' r = None))
      \/ exists r image,
           fst parent = 0
           /\ ready (snd parent) = Some r
           /\ tiff_ready class tiff' r = Some image
           /\ calls = [tiff_write_call tiff' image]
           /\ ((status = 0
                /\ vips__tiff_write_target (tiff_write_call tiff' image) = 0
                /\ vips_target_end (tiff_write_call tiff' image) = 0)
               \/ (status = -1
                   /\ (vips__tiff_write_target (tiff_write_call tiff' image) <> 0
                       \/ vips_target_end (tiff_write_call tiff' image) <> 0)))).
Proof.
  unfold vips_foreign_save_tiff_build. cbv zeta.
  destruct (vips_foreign_save_build parent_build class (parent_object tiff))
    as [pstatus save].
  cbn [fst snd].
  destruct (Z.eqb_spec pstatus 0) as [->|Hp]; cbn [negb].
  - destruct (ready save) as [r|] eqn:Hr; [|discriminate].
    destruct (tiff_ready class (set_parent_object tiff save) r) as [image|] eqn:Hi.
    + destruct (Z.eqb_spec
                  (vips__tiff_write_target
                     (tiff_write_call (set_parent_object tiff save) image)) 0)
        as [Hw|Hw]; cbn [negb].
      * destruct (Z.eqb_spec
                    (vips_target_end
                       (tiff_write_call (set_parent_object tiff save) image)) 0)
          as [He|He]; cbn [negb];
          intro Heq; injection Heq as <- <- <-;
          (split; [reflexivity|]); right; exists r, image;
          repeat (split; [reflexivity || assumption|]).
        -- left. tauto.
        -- right. tauto.
      * intro Heq. injection Heq as <- <- <-.
        split; [reflexivity|]. right. exists r, image.
        repeat (split; [reflexivity || assumption|]).
        right. tauto.
    + intro Heq. injection Heq as <- <- <-.
      split; [reflexivity|]. left. split; [reflexivity|]. split; [reflexivity|].
      right. exists r. tauto.
  - intro Heq. injection Heq as <- <- <-.
    split; [reflexivity|]. left. tauto.
Qed.

(** The save build leaves the answers of [vips_object_argument_isset]
    and the background as they are. *)
Lemma save_build_keeps_arguments (parent_build : VipsForeignSave -> Z)
    (class : VipsForeignSaveClass) (save : VipsForeignSave) :
  let built := snd (vips_foreign_save_build parent_build class save) in
  argument_isset built = argument_isset save
  /\ background built = background save
  /\ page_height built = page_height save.
Proof.
  cbv zeta.
  assert (Hk : argument_isset (save_build_keep save) = argument_isset save
               /\ background (save_build_keep save) = background save
               /\ page_height (save_build_keep save) = page_height save).
  { unfold save_build_keep, save_build_strip.
    destruct (argument_isset save "strip" && negb (argument_isset save "keep"));
      match goal with |- context [if ?b then _ else _] => destruct b end;
      repeat split. }
  unfold vips_foreign_save_build.
  destruct (in_ (save_build_keep save)); [|exact Hk].
  destruct (vips__foreign_convert_saveable _ _ _ _ _) as [[ready0 ops]|];
    [|exact Hk].
  destruct (run_op vips_copy ready0); [|exact Hk].
  destruct (vips__foreign_update_metadata _ _) as [status ready1].
  destruct (negb (status =? 0)); exact Hk.
Qed.

(** X26.  With JPEG compression the image handed to the TIFF writer is
    not [ready] but [ready] normalised once more, for a saver of mono,
    RGB and CMYK without alpha and with the all-to-uchar table: every
    cast of that second normalisation is to uchar, whatever the band
    format of [ready]. *)
Theorem tiff_jpeg_compression_casts_to_uchar
    (parent_build : VipsForeignSave -> Z)
    (class : VipsForeignSaveClass) (tiff tiff' : VipsForeignSaveTiff)
    (status : Z) (calls : list TiffWriteCall) :
  compression tiff = VIPS_FOREIGN_TIFF_COMPRESSION_JPEG ->
  vips_foreign_save_tiff_build parent_build class tiff
    = Some (status, tiff', calls) ->
  forall w, In w calls ->
  exists r ops,
    ready (parent_object tiff') = Some r
    /\ vips__foreign_convert_saveable r tiff_jpeg_saveable bandfmt_jpeg
         (coding class) (background (parent_object tiff'))
       = Some (written_image w, ops)
    /\ has_flag tiff_jpeg_saveable VIPS_FOREIGN_SAVEABLE_ALPHA = false
    /\ forall f shift, In (vips_cast f shift) ops -> f = VIPS_FORMAT_UCHAR.
Proof.
  intros Hjpeg Hbuild w Hw.
  destruct (tiff_build_inv parent_build class tiff tiff' status calls Hbuild)
    as (Htiff & [(_ & -> & _)|(r & image & _ & Hr & Himage & -> & _)]);
    [destruct Hw|].
  destruct Hw as [<-|[]].
  assert (Hcomp : compression tiff' = VIPS_FOREIGN_TIFF_COMPRESSION_JPEG).
  { rewrite Htiff. exact Hjpeg. }
  unfold tiff_ready in Himage. rewrite Hcomp in Himage.
  cbn [VipsForeignTiffCompression_beq] in Himage.
  destruct (vips__foreign_convert_saveable r tiff_jpeg_saveable bandfmt_jpeg
              (coding class) (background (parent_object tiff')))
    as [[x ops]|] eqn:Hconv; [|discriminate].
  injection Himage as <-.
  exists r, ops.
  split; [rewrite Htiff; exact Hr|].
  split; [exact Hconv|].
  split; [vm_compute; reflexivity|].
  intros f shift Hin.
  destruct (convert_saveable_casts_follow_table r x tiff_jpeg_saveable
              bandfmt_jpeg (coding class) (background (parent_object tiff'))
              ops f shift Hconv Hin) as (im & ->).
  reflexivity.
Qed.


(** X28.  The TIFF build calls the writer at most once, and only after
    the save build above it has succeeded (and, for JPEG compression, the
    second normalisation); it returns 0 exactly when the writer and the
    end of the target both succeed, and -1 otherwise.  The writer gets
    the page height of the save object, and bit depth 1 when the
    deprecated "squash" is set, whatever "bitdepth" says. *)
Theorem tiff_build_writes_once_after_parent_build
    (parent_build : VipsForeignSave -> Z)
    (class : VipsForeignSaveClass) (tiff tiff' : VipsForeignSaveTiff)
    (status : Z) (calls : list TiffWriteCall) :
  vips_foreign_save_tiff_build parent_build class tiff
    = Some (status, tiff', calls) ->
  let parent := vips_foreign_save_build parent_build class (parent_object tiff) in
  parent_object tiff' = snd parent
  /\ (status = 0 \/ status = -1)
  /\ (fst parent <> 0 -> status = -1 /\ calls = [])
  /\ (calls = [] /\ status = -1
      \/ exists w,
           calls = [w]
           /\ fst parent = 0
           /\ (status = 0 <->
               vips__tiff_write_target w = 0 /\ vips_target_end w = 0)
           /\ written_bitdepth w = (if squash tiff then 1 else bitdepth tiff)
           /\ written_page_height w = page_height (parent_object tiff)).
Proof.
  intro Hbuild. cbv zeta.
  destruct (tiff_build_inv parent_build class tiff tiff' status calls Hbuild)
    as (Htiff & Hcases). cbv zeta in Hcases.
  destruct (save_build_keeps_arguments parent_build class (parent_object tiff))
    as (_ & _ & Hpage). cbv zeta in Hpage.
  split; [rewrite Htiff; reflexivity|].
  destruct Hcases as [(-> & -> & Hwhy)|(r & image & Hp & Hr & Himage & -> & Hst)].
  - split; [right; reflexivity|]. split; [tauto|]. left. tauto.
  - split; [destruct Hst as [(-> & _)|(-> & _)]; tauto|].
    split; [intro Hne; contradiction|].
    right. exists (tiff_write_call tiff' image).
    split; [reflexivity|]. split; [exact Hp|].
    split.
    + destruct Hst as [(-> & Hw & He)|(-> & Hfail)].
      * tauto.
      * split; [discriminate|]. intros [Hw He]. destruct Hfail; contradiction.
    + cbn [written_bitdepth written_page_height tiff_write_call].
      rewrite Htiff. cbn [squash bitdepth parent_object set_parent_object].
      split; [reflexivity|exact Hpage].
Qed.

End TiffFacts.

(** ** Operation flags and the header comparison *)

Section OperationFlagFacts.
Import LoadBuild.
Context `{BuildEnv}.

(** X29.  The operation flags of a load object are the flags of the
    parent class with at most two bits added: bit 2 (NOCACHE) when
    "nocache" is set and bit 6 (REVALIDATE) when "revalidate" is set;
    no flag of the parent class is ever cleared. *)
Theorem operation_get_flags_only_adds_cache_bits (parent_flags : Z)
    (object : VipsForeignLoadObject) :
  forall n : nat,
    Z.testbit (vips_foreign_load_operation_get_flags parent_flags object)
      (Z.of_nat n) =
    Z.testbit parent_flags (Z.of_nat n)
    || (nocache object && Nat.eqb n 2)
    || (revalidate object && Nat.eqb n 6).
Proof.
  intro n. unfold vips_foreign_load_operation_get_flags. cbv zeta.
  change VIPS_OPERATION_NOCACHE with (2 ^ 2).
  change VIPS_OPERATION_REVALIDATE with (2 ^ 6).
  assert (Hbit : forall k : nat,
            Z.testbit (2 ^ Z.of_nat k) (Z.of_nat n) = Nat.eqb n k).
  { intro k. rewrite Z.pow2_bits_eqb by lia.
    destruct (Nat.eqb_spec n k) as [->|Hne].
    - apply Z.eqb_refl.
    - apply Z.eqb_neq. lia. }
  assert (H2 := Hbit 2%nat). assert (H6 := Hbit 6%nat).
  change (Z.of_nat 2) with 2 in H2. change (Z.of_nat 6) with 6 in H6.
  destruct (nocache object), (revalidate object); cbn [andb];
    rewrite ?Z.lor_spec, ?H2, ?H6, ?orb_false_r; reflexivity.
Qed.

End OperationFlagFacts.

(** X30.  The comparison of the decoded image with the header-declared
    image holds exactly when the two agree in width, height, bands,
    coding and band format; the interpretation and the metadata play no
    part, and the comparison is symmetric. *)
Theorem load_iscompat_compares_five_header_fields (a b : VipsImage) :
  (vips_foreign_load_iscompat a b = true <->
   Xsize a = Xsize b /\ Ysize a = Ysize b /\ Bands a = Bands b
   /\ Coding a = Coding b /\ BandFmt a = BandFmt b)
  /\ vips_foreign_load_iscompat a b = vips_foreign_load_iscompat b a
  /\ (forall t m,
        vips_foreign_load_iscompat
          {| Xsize := Xsize a; Ysize := Ysize a; Bands := Bands a;
             BandFmt := BandFmt a; Coding := Coding a; Type_ := t; meta := m |}
          b
        = vips_foreign_load_iscompat a b).
Proof.
  assert (Hiff : forall x y,
            vips_foreign_load_iscompat x y = true <->
            Xsize x = Xsize y /\ Ysize x = Ysize y /\ Bands x = Bands y
            /\ Coding x = Coding y /\ BandFmt x = BandFmt y).
  { intros x y. unfold vips_foreign_load_iscompat.
    destruct (Z.eqb_spec (Xsize x) (Xsize y)) as [Hx|Hx]; cbn [negb orb];
      [|split; [discriminate|tauto]].
    destruct (Z.eqb_spec (Ysize x) (Ysize y)) as [Hy|Hy]; cbn [negb orb];
      [|split; [discriminate|tauto]].
    destruct (Z.eqb_spec (Bands x) (Bands y)) as [Hb|Hb]; cbn [negb orb];
      [|split; [discriminate|tauto]].
    destruct (VipsCoding_beq (Coding x) (Coding y)) eqn:Hc; cbn [negb orb].
    - apply internal_VipsCoding_dec_bl in Hc.
      destruct (VipsBandFormat_beq (BandFmt x) (BandFmt y)) eqn:Hf; cbn [negb].
      + apply internal_VipsBandFormat_dec_bl in Hf. tauto.
      + split; [discriminate|]. intros (_ & _ & _ & _ & Heq).
        apply internal_VipsBandFormat_dec_lb in Heq. congruence.
    - split; [discriminate|]. intros (_ & _ & _ & Heq & _).
      apply internal_VipsCoding_dec_lb in Heq. congruence. }
  split; [apply Hiff|]. split.
  - destruct (vips_foreign_load_iscompat a b) eqn:Hab;
      destruct (vips_foreign_load_iscompat b a) eqn:Hba; try reflexivity.
    + apply Hiff in Hab. rewrite <- Hba. symmetry. apply Hiff.
      destruct Hab as (A1 & A2 & A3 & A4 & A5). repeat split; congruence.
    + apply Hiff in Hba. rewrite <- Hab. apply Hiff.
      destruct Hba as (A1 & A2 & A3 & A4 & A5). repeat split; congruence.
  - intros t m. reflexivity.
Qed.

(** ** The properties above on the scenarios *)

Lemma find_load_source_witness :
  fst (vips_foreign_find_load_source [Scenarios.x_source_load]
         Scenarios.consumed_x_source) =
  match find (accepts_rewound Scenarios.consumed_x_source)
          (vips_foreign_map_files [Scenarios.x_source_load]) with
  | Some c => Some (class_name (VIPS_FOREIGN_CLASS c))
  | None => None
  end.
Proof.
  apply (find_load_source_sniffs_from_position_zero
           [Scenarios.x_source_load] Scenarios.consumed_x_source).
  intros item sniff source [<-|[]] Hsniff.
  injection Hsniff as <-. reflexivity.
Defined.

Lemma find_save_choice_witness :
  exists c,
    "VipsForeignSaveTiffFile" = class_name (VIPS_FOREIGN_CLASS c)
    /\ chosen_by_priority
         (accepted (fun c =>
            @vips_foreign_find_save_sub Scenarios.lower_case_names c
              (fst (@vips__filename_split8 Examples.one_file_fs "out.tif"))))
         [Examples.any_saver] c.
Proof.
  apply (@find_save_resolves_to_choice_by_priority Examples.one_file_fs
           Scenarios.lower_case_names [Examples.any_saver] "out.tif").
  - intros a b [<-|[]] [<-|[]]; vm_compute; split; discriminate.
  - vm_compute. reflexivity.
Defined.

Lemma regions_match_header_witness :
  let (results, st') :=
    @start_requests Scenarios.matching_load_env 2 Examples.header_image
      (Examples.fresh_load, []) in
  forall region, In (Some region) results ->
    exists r, real (fst st') = Some r
              /\ vips_foreign_load_iscompat r Examples.header_image = true
              /\ @vips_region_new Scenarios.matching_load_env r = Some region.
Proof.
  apply (@regions_are_on_an_image_matching_the_header
           Scenarios.matching_load_env 2 Examples.header_image
           (Examples.fresh_load, [])).
  reflexivity.
Defined.

Lemma failed_pipeline_link_witness :
  exists st',
    @vips_foreign_load_start Scenarios.unlinkable_load_env
      Examples.header_image (Examples.fresh_load, []) = (None, st')
    /\ error (fst st') = false
    /\ real (fst st') = Some Examples.header_image
    /\ snd st' = [] ++ [handler_load_called]
    /\ forall n,
         @start_requests Scenarios.unlinkable_load_env n
           Examples.header_image st' =
         (repeat (@vips_region_new Scenarios.unlinkable_load_env
                    Examples.header_image) n, st').
Proof.
  apply (@failed_pipeline_link_is_not_remembered Scenarios.unlinkable_load_env
           Examples.header_image Examples.fresh_load Examples.fresh_load []
           Examples.empty_image);
    vm_compute; try reflexivity; discriminate.
Defined.

Lemma sequential_direct_read_witness :
  let built :=
    snd (fst (@LoadBuild.vips_foreign_load_build Scenarios.plain_build_env
                Scenarios.sequential_loader
                (Scenarios.load_object VIPS_ACCESS_SEQUENTIAL))) in
  fst (@vips_foreign_load_temp Scenarios.matching_load_env
         (LoadBuild.load built))
    = @vips_image_new Scenarios.matching_load_env
  /\ has_flag (LoadBuild.vips_foreign_load_operation_get_flags 0 built)
       LoadBuild.VIPS_OPERATION_NOCACHE = true.
Proof.
  apply (@sequential_direct_read_is_not_cached Scenarios.plain_build_env
           Scenarios.matching_load_env Scenarios.sequential_loader
           (Scenarios.load_object VIPS_ACCESS_SEQUENTIAL) 0);
    vm_compute; try reflexivity; discriminate.
Defined.

Lemma sequential_loader_random_mode_witness :
  let built :=
    snd (fst (@LoadBuild.vips_foreign_load_build Scenarios.plain_build_env
                Scenarios.sequential_loader
                (Scenarios.load_object VIPS_ACCESS_RANDOM))) in
  fst (@vips_foreign_load_temp Scenarios.matching_load_env
         (LoadBuild.load built)) =
    (if @VIPS_IMAGE_SIZEOF_IMAGE Scenarios.matching_load_env
          (out (LoadBuild.load built))
        >? @vips_get_disc_threshold Scenarios.matching_load_env
     then @vips_image_new_temp_file Scenarios.matching_load_env "%s.v"
     else @vips_image_new_memory Scenarios.matching_load_env)
  /\ LoadBuild.nocache built
     = LoadBuild.nocache (Scenarios.load_object VIPS_ACCESS_RANDOM).
Proof.
  apply (@sequential_loader_in_random_mode_is_decoded_whole
           Scenarios.plain_build_env Scenarios.matching_load_env
           Scenarios.sequential_loader
           (Scenarios.load_object VIPS_ACCESS_RANDOM));
    vm_compute; reflexivity.
Defined.

Lemma stage_order_witness :
  exists colour flatten extract cast recode,
    Scenarios.rgb_five_band_ops = colour ++ flatten ++ extract ++ cast ++ recode
    /\ forallb (@is_colour_op (list Z)) colour = true
    /\ (flatten = []
        \/ (flatten = [vips_flatten [0]]
            /\ has_flag VIPS_FOREIGN_SAVEABLE_RGB VIPS_FOREIGN_SAVEABLE_ALPHA
               = false))
    /\ (extract = []
        \/ exists n, extract = [vips_extract_band 0 n] /\ 0 < n
                     /\ VIPS_FOREIGN_SAVEABLE_RGB <> VIPS_FOREIGN_SAVEABLE_ANY)
    /\ (cast = []
        \/ exists im shift,
             cast = [vips_cast (vips_foreign_save_format_table (BandFmt im)) shift])
    /\ (recode = [] \/ recode = [vips_Lab2LabQ] \/ recode = [vips_float2rad]
        \/ recode = [vips_image_decode]).
Proof.
  apply (@convert_saveable_applies_operations_in_stage_order Examples.header_ops
           Examples.rgb_five_band_image Examples.header_image
           VIPS_FOREIGN_SAVEABLE_RGB vips_foreign_save_format_table
           VIPS_FOREIGN_CODING_NONE [0] Scenarios.rgb_five_band_ops).
  vm_compute. reflexivity.
Defined.

Lemma alpha_and_any_witness :
  (has_flag Examples.mono_rgb_alpha VIPS_FOREIGN_SAVEABLE_ALPHA = true ->
   forall bg : list Z,
     ~ In (vips_flatten bg)
         [vips_colourspace VIPS_INTERPRETATION_sRGB; vips_extract_band 0 4;
          vips_cast VIPS_FORMAT_UCHAR false])
  /\ (Examples.mono_rgb_alpha = VIPS_FOREIGN_SAVEABLE_ANY ->
      forall band n,
        ~ In (vips_extract_band band n)
            [vips_colourspace VIPS_INTERPRETATION_sRGB;
             @vips_extract_band (list Z) 0 4;
             vips_cast VIPS_FORMAT_UCHAR false]).
Proof.
  apply (@convert_saveable_respects_alpha_and_any Examples.header_ops
           Examples.rgb_five_band_image
           (Examples.image 640 480 4 VIPS_FORMAT_UCHAR VIPS_CODING_NONE
              VIPS_INTERPRETATION_sRGB [])
           Examples.mono_rgb_alpha vips_foreign_save_format_table
           VIPS_FOREIGN_CODING_NONE [0]).
  vm_compute. reflexivity.
Defined.

Lemma no_colour_model_witness :
  @vips__foreign_convert_saveable Examples.header_ops Examples.header_image
    VIPS_FOREIGN_SAVEABLE_ALPHA vips_foreign_save_format_table
    VIPS_FOREIGN_CODING_NONE [0] = None.
Proof.
  apply (@convert_saveable_fails_without_colour_model Examples.header_ops
           Examples.header_image VIPS_FOREIGN_SAVEABLE_ALPHA
           vips_foreign_save_format_table VIPS_FOREIGN_CODING_NONE [0]);
    vm_compute; try reflexivity; discriminate.
Defined.

Lemma operations_succeed_witness :
  exists out_ ops,
    @vips__foreign_convert_saveable Examples.header_ops Examples.rgb16_image
      VIPS_FOREIGN_SAVEABLE_RGB bandfmt_jpeg VIPS_FOREIGN_CODING_NONE [0]
    = Some (out_, ops).
Proof.
  apply (@convert_saveable_succeeds_when_operations_do Examples.header_ops
           Examples.rgb16_image VIPS_FOREIGN_SAVEABLE_RGB bandfmt_jpeg
           VIPS_FOREIGN_CODING_NONE [0]).
  - intros op im. destruct op; discriminate.
  - right. reflexivity.
Defined.

Lemma unkept_category_witness :
  vips_image_get_typeof
    (snd (@vips__foreign_update_metadata Examples.meta_env
            Examples.rgb_with_cmyk_profile VIPS_FOREIGN_KEEP_EXIF))
    VIPS_META_XMP_NAME = false.
Proof.
  apply (@update_metadata_removes_what_keep_does_not_retain Examples.meta_env
           Examples.rgb_with_cmyk_profile
           (snd (@vips__foreign_update_metadata Examples.meta_env
                   Examples.rgb_with_cmyk_profile VIPS_FOREIGN_KEEP_EXIF))
           VIPS_FOREIGN_KEEP_EXIF);
    vm_compute; reflexivity.
Defined.

Lemma save_build_ready_witness :
  let result :=
    @vips_foreign_save_build Examples.header_ops Examples.meta_env
      (fun _ => 0) Examples.any_saver Scenarios.save_paged in
  exists r,
    snd result
      = set_ready (save_build_keep Scenarios.save_paged) (Some r)
    /\ fst result = 0
    /\ meta r
       = [("icc-profile-data", GBlob Scenarios.rgb_profile);
          ("xmp-data", GBlob [Byte.x58]);
          ("exif-data", GBlob []);
          ("page-height", GInt 240)]
    /\ Bands r = 3 /\ BandFmt r = VIPS_FORMAT_UCHAR.
Proof.
  intro result.
  destruct (@save_build_sets_ready_only_on_success Examples.header_ops
              Examples.meta_env (fun _ => 0) Examples.any_saver
              Scenarios.save_paged Scenarios.rgb_with_rgb_profile eq_refl)
    as [_ Hsuccess].
  destruct (Hsuccess Scenarios.rgb_with_rgb_profile []
              Scenarios.rgb_with_rgb_profile
              (snd (@vips__foreign_update_metadata Examples.meta_env
                      Scenarios.rgb_with_rgb_profile VIPS_FOREIGN_KEEP_ALL))
              eq_refl eq_refl eq_refl)
    as (r & Hobject & Hstatus & Hmeta & _ & _ & Hbands & Hformat & _).
  exists r.
  split; [exact Hobject|]. split; [exact Hstatus|]. split; [exact Hmeta|].
  split; [exact Hbands|exact Hformat].
Defined.

Lemma strip_witness :
  vips_image_get_typeof Examples.header_image VIPS_META_ICC_NAME = false.
Proof.
  apply (@strip_leaves_no_metadata_on_ready Examples.header_ops
           Examples.meta_env (fun _ => 0) Examples.any_saver
           Scenarios.save_with_strip Examples.header_image);
    vm_compute; reflexivity.
Defined.

Section TiffScenarios.
Import TiffSave.
Import PrimFloat.

Lemma tiff_jpeg_witness :
  let built :=
    set_parent_object (Scenarios.tiff_object VIPS_FOREIGN_TIFF_COMPRESSION_JPEG)
      (snd (@vips_foreign_save_build Examples.header_ops Examples.meta_env
              (fun _ => 0) Examples.any_saver Scenarios.save_inch_image)) in
  let call :=
    @tiff_write_call Examples.header_ops Scenarios.writing_tiff_env built
      (Examples.image 640 480 3 VIPS_FORMAT_UCHAR VIPS_CODING_NONE
         VIPS_INTERPRETATION_RGB16
         [("resolution-unit", GString "in"); ("exif-data", GBlob [])]) in
  exists r ops,
    ready (parent_object built) = Some r
    /\ @vips__foreign_convert_saveable Examples.header_ops r tiff_jpeg_saveable
         bandfmt_jpeg (coding Examples.any_saver)
         (background (parent_object built))
       = Some (written_image call, ops)
    /\ has_flag tiff_jpeg_saveable VIPS_FOREIGN_SAVEABLE_ALPHA = false
    /\ forall f shift, In (vips_cast f shift) ops -> f = VIPS_FORMAT_UCHAR.
Proof.
  intros built call.
  apply (@tiff_jpeg_compression_casts_to_uchar Examples.meta_env
           Examples.header_ops Scenarios.writing_tiff_env (fun _ => 0)
           Examples.any_saver
           (Scenarios.tiff_object VIPS_FOREIGN_TIFF_COMPRESSION_JPEG)
           built 0 [call]).
  - reflexivity.
  - vm_compute. reflexivity.
  - left. reflexivity.
Defined.


Lemma tiff_build_witness :
  let tiff := Scenarios.tiff_object VIPS_FOREIGN_TIFF_COMPRESSION_NONE in
  let parent :=
    @vips_foreign_save_build Examples.header_ops Examples.meta_env
      (fun _ => 0) Examples.any_saver (parent_object tiff) in
  let built := set_parent_object tiff (snd parent) in
  let call :=
    @tiff_write_call Examples.header_ops Scenarios.writing_tiff_env built
      (Examples.image 640 480 3 VIPS_FORMAT_USHORT VIPS_CODING_NONE
         VIPS_INTERPRETATION_RGB16
         [("resolution-unit", GString "in"); ("exif-data", GBlob [])]) in
  parent_object built = snd parent
  /\ (0 = 0 \/ 0 = -1)
  /\ (fst parent <> 0 -> 0 = -1 /\ [call] = [])
  /\ ([call] = [] /\ 0 = -1
      \/ exists w,
           [call] = [w]
           /\ fst parent = 0
           /\ (0 = 0 <->
               @vips__tiff_write_target Examples.header_ops
                 Scenarios.writing_tiff_env w = 0
               /\ @vips_target_end Examples.header_ops
                    Scenarios.writing_tiff_env w = 0)
           /\ written_bitdepth w = (if squash tiff then 1 else bitdepth tiff)
           /\ written_page_height w = page_height (parent_object tiff)).
Proof.
  intros tiff parent built call.
  apply (@tiff_build_writes_once_after_parent_build Examples.meta_env
           Examples.header_ops Scenarios.writing_tiff_env (fun _ => 0)
           Examples.any_saver tiff built 0 [call]).
  vm_compute. reflexivity.
Defined.

End TiffScenarios.

Section FindLoadScenario.
#[local] Existing Instance Examples.one_file_fs.

Lemma find_load_result_witness :
  let filename := fst (vips__filename_split8 "fake.tif") in
  vips_existsf filename = true
  /\ vips_isdirf filename = false
  /\ exists c, In c [Examples.sniffing_x_load; Examples.suffix_tiff_load]
       /\ "VipsForeignLoadTiff" = class_name (VIPS_FOREIGN_CLASS c)
       /\ file_add_class_keeps c = true
       /\ is_file_loader c = true
       /\ (sniff_matches c filename = true
           \/ (suffix_only c = true /\ exists ss,
                 suffs (VIPS_FOREIGN_CLASS c) = Some ss
                 /\ vips_filename_suffix_match filename ss = true)).
Proof.
  apply (find_load_result_is_an_accepting_file_loader
           [Examples.sniffing_x_load; Examples.suffix_tiff_load]
           "fake.tif" "VipsForeignLoadTiff").
  vm_compute. reflexivity.
Defined.

End FindLoadScenario.
